(** * Product search service: query understanding, catalog indexes,
      filtering and ranking

    A shallow embedding of the JavaScript services of the repository
    ([QueryProcessor.js], [ProductService.js], [Product.js],
    [SearchService.js], [RankingEngine.js], [constants.js], the colour
    extraction of [metadataExtractor.js] and the data of the filters
    reply of [SearchController.js]) together with the properties of them
    that were checked.

    Conventions of the embedding.
    - Strings are sequences of 7-bit ASCII characters ([string]); case
      folding, [\w], [\s] and [\d] are the ASCII ones.
    - JavaScript numbers are exact rationals ([Q]) or integers ([Z]);
      IEEE-754 rounding is not modelled, and concrete inputs are chosen
      well away from every threshold.
    - [Map] and [Set] keep insertion order, so they are association lists
      and duplicate-free lists.
    - Code that may raise a [TypeError] returns a [result].
    - Regular expressions are interpreted by a small backtracking matcher
      with the greedy, leftmost-alternative semantics of the language. *)

From Stdlib Require Import Ascii String List Bool Arith ZArith QArith Qabs.
From Stdlib Require Import Qround.
From Stdlib Require Import Lia Lqa Permutation Sorted.
Import ListNotations.

Set Implicit Arguments.

Close Scope Q_scope.
Local Open Scope list_scope.
Local Open Scope string_scope.

(* ================================================================== *)
(** * Strings as the language's standard library sees them           *)
(* ================================================================== *)

Module Js.

Definition code (c : ascii) : N := N_of_ascii c.

Definition in_range (lo hi : N) (c : ascii) : bool :=
  (lo <=? code c)%N && (code c <=? hi)%N.

(** [\d] *)
Definition is_digit (c : ascii) : bool := in_range 48 57 c.

(** [\s]: tab, line feed, vertical tab, form feed, carriage return, space *)
Definition is_space (c : ascii) : bool :=
  in_range 9 13 c || (code c =? 32)%N.

(** [\w]: letters, digits and the underscore *)
Definition is_word (c : ascii) : bool :=
  in_range 97 122 c || in_range 65 90 c || is_digit c || (code c =? 95)%N.

Definition lower_char (c : ascii) : ascii :=
  if in_range 65 90 c then ascii_of_N (code c + 32) else c.

(** [String.prototype.toLowerCase] *)
Fixpoint toLowerCase (s : string) : string :=
  match s with
  | EmptyString => EmptyString
  | String c s' => String (lower_char c) (toLowerCase s')
  end.

(** [String.prototype.includes] *)
Fixpoint includes (s sub : string) : bool :=
  if String.prefix sub s then true
  else match s with
       | EmptyString => false
       | String _ s' => includes s' sub
       end.

Fixpoint trimStart (s : string) : string :=
  match s with
  | String c s' => if is_space c then trimStart s' else s
  | EmptyString => EmptyString
  end.

Fixpoint trimEnd (s : string) : string :=
  match s with
  | EmptyString => EmptyString
  | String c s' =>
      match trimEnd s' with
      | EmptyString => if is_space c then EmptyString else String c EmptyString
      | t => String c t
      end
  end.

(** [String.prototype.trim] *)
Definition trim (s : string) : string := trimEnd (trimStart s).

(** [Array.prototype.join] on strings *)
Definition join (sep : string) (l : list string) : string :=
  String.concat sep l.

(** [Array.prototype.includes] on strings *)
Definition mem (x : string) (l : list string) : bool :=
  existsb (String.eqb x) l.

(** [parseInt] on a run of decimal digits *)
Definition digit_value (c : ascii) : Z := Z.of_N (code c - 48).

Fixpoint parseDigits (acc : Z) (s : string) : Z :=
  match s with
  | EmptyString => acc
  | String c s' =>
      if is_digit c then parseDigits (10 * acc + digit_value c) s' else acc
  end.

Definition parseInt (s : string) : Z := parseDigits 0 s.

(** Truthiness of a string and of a number *)
Definition truthy_string (s : string) : bool :=
  match s with EmptyString => false | _ => true end.

Definition truthy_Z (z : Z) : bool := negb (z =? 0)%Z.

End Js.

(* ================================================================== *)
(** * Regular expressions                                             *)
(* ================================================================== *)

Module Regex.

Inductive cclass : Type :=
| CLit (c : ascii)        (* a literal character *)
| CDigit                  (* \d *)
| CSpace                  (* \s *)
| CNotWordSpace.          (* [^\w\s] *)

Inductive regex : Type :=
| Eps
| Chr (c : cclass)
| Seq (r1 r2 : regex)
| Alt (r1 r2 : regex)
| Star (r : regex)        (* greedy r* *)
| Bol                     (* ^ *)
| Eol                     (* $ *)
| WordB.                  (* \b *)

Definition Plus (r : regex) : regex := Seq r (Star r).
Definition Opt (r : regex) : regex := Alt r Eps.

Fixpoint Lit (s : string) : regex :=
  match s with
  | EmptyString => Eps
  | String c s' => Seq (Chr (CLit c)) (Lit s')
  end.

Fixpoint Seqs (rs : list regex) : regex :=
  match rs with
  | [] => Eps
  | r :: rs' => Seq r (Seqs rs')
  end.

Fixpoint Alts (rs : list regex) : regex :=
  match rs with
  | [] => Eps
  | [r] => r
  | r :: rs' => Alt r (Alts rs')
  end.

(** A position in the subject: the character just before it, if any, and
    what is left to read. *)
Definition pos : Type := (option ascii * string)%type.

Definition cmatch (ci : bool) (c : cclass) (x : ascii) : bool :=
  match c with
  | CLit a =>
      if ci then Ascii.eqb (Js.lower_char a) (Js.lower_char x)
      else Ascii.eqb a x
  | CDigit => Js.is_digit x
  | CSpace => Js.is_space x
  | CNotWordSpace => negb (Js.is_word x || Js.is_space x)
  end.

Definition word_before (p : pos) : bool :=
  match fst p with Some c => Js.is_word c | None => false end.

Definition word_after (p : pos) : bool :=
  match snd p with String c _ => Js.is_word c | EmptyString => false end.

(** Greedy iteration of [step], then [k].  An iteration that consumes
    nothing is rejected, as the language does, so [fuel], which starts as
    the number of characters left, is never used up before the input is. *)
Fixpoint iterate (step : pos -> (pos -> option pos) -> option pos)
         (k : pos -> option pos) (fuel : nat) (p : pos) {struct fuel}
  : option pos :=
  match fuel with
  | O => k p
  | S fuel' =>
      match step p
              (fun p' =>
                 if (String.length (snd p') <? String.length (snd p))%nat
                 then iterate step k fuel' p' else None) with
      | Some e => Some e
      | None => k p
      end
  end.

(** Backtracking matcher in continuation-passing style: [rmatch ci r p k]
    matches [r] at [p] and hands the position after the match to [k];
    when [k] fails the next way of matching [r] is tried. *)
Fixpoint rmatch (ci : bool) (r : regex) (p : pos)
         (k : pos -> option pos) {struct r} : option pos :=
  match r with
  | Eps => k p
  | Chr c =>
      match snd p with
      | String x rest => if cmatch ci c x then k (Some x, rest) else None
      | EmptyString => None
      end
  | Seq r1 r2 => rmatch ci r1 p (fun p' => rmatch ci r2 p' k)
  | Alt r1 r2 =>
      match rmatch ci r1 p k with
      | Some e => Some e
      | None => rmatch ci r2 p k
      end
  | Star r1 => iterate (rmatch ci r1) k (String.length (snd p)) p
  | Bol => match fst p with None => k p | Some _ => None end
  | Eol => match snd p with EmptyString => k p | String _ _ => None end
  | WordB => if xorb (word_before p) (word_after p) then k p else None
  end.

Definition match_at (ci : bool) (r : regex) (p : pos) : option pos :=
  rmatch ci r p (fun e => Some e).

(** The text consumed between a position and a later one. *)
Definition consumed (from : string) (to : pos) : string :=
  String.substring 0 (String.length from - String.length (snd to)) from.

(** Leftmost match at or after a position: the text matched. *)
Fixpoint search (ci : bool) (r : regex) (prev : option ascii) (s : string)
  : option string :=
  match match_at ci r (prev, s) with
  | Some e => Some (consumed s e)
  | None =>
      match s with
      | EmptyString => None
      | String c s' => search ci r (Some c) s'
      end
  end.

(** [RegExp.prototype.test] and [String.prototype.match] without [g]:
    the first match. *)
Definition test (ci : bool) (r : regex) (s : string) : bool :=
  match search ci r None s with Some _ => true | None => false end.

Definition exec (ci : bool) (r : regex) (s : string) : option string :=
  search ci r None s.

(** [String.prototype.match] with the [g] flag: every match, left to
    right.  The subject is read one character at a time; [skip] counts
    the characters still covered by the last match, and the search resumes
    where that match ended (one character further after an empty match).
    The empty list stands for [null]. *)
Fixpoint matchAll_scan (ci : bool) (r : regex) (prev : option ascii)
         (skip : nat) (s : string) {struct s} : list string :=
  match skip with
  | S skip' =>
      match s with
      | EmptyString => []
      | String c s' => matchAll_scan ci r (Some c) skip' s'
      end
  | O =>
      match match_at ci r (prev, s) with
      | Some e =>
          let m := consumed s e in
          m :: match s with
               | EmptyString => []
               | String c s' =>
                   matchAll_scan ci r (Some c) (String.length m - 1) s'
               end
      | None =>
          match s with
          | EmptyString => []
          | String c s' => matchAll_scan ci r (Some c) 0 s'
          end
      end
  end.

Definition matchAll (ci : bool) (r : regex) (s : string) : list string :=
  matchAll_scan ci r None 0 s.

(** [String.prototype.replace] with the [g] flag and a replacement text
    free of [$] patterns. *)
Fixpoint replaceAll_scan (ci : bool) (r : regex) (by_ : string)
         (prev : option ascii) (skip : nat) (s : string) {struct s} : string :=
  match skip with
  | S skip' =>
      match s with
      | EmptyString => EmptyString
      | String c s' => replaceAll_scan ci r by_ (Some c) skip' s'
      end
  | O =>
      match match_at ci r (prev, s) with
      | Some e =>
          by_ ++
            match s, String.length (consumed s e) with
            | EmptyString, _ => EmptyString
            | String c s', O => String c (replaceAll_scan ci r by_ (Some c) 0 s')
            | String c s', S n => replaceAll_scan ci r by_ (Some c) n s'
            end
      | None =>
          match s with
          | EmptyString => EmptyString
          | String c s' => String c (replaceAll_scan ci r by_ (Some c) 0 s')
          end
      end
  end.

Definition replaceAll (ci : bool) (r : regex) (by_ s : string) : string :=
  replaceAll_scan ci r by_ None 0 s.

(** [String.prototype.split] with a regular expression separator: the
    separator is tried at each position in turn, but not at the end of the
    subject; a match that would end where the current piece starts is
    passed over. *)
Fixpoint split_scan (ci : bool) (r : regex) (piece : string)
         (prev : option ascii) (skip : nat) (s : string) {struct s}
  : list string :=
  match s with
  | EmptyString => [piece]
  | String c s' =>
      match skip with
      | S skip' => split_scan ci r piece (Some c) skip' s'
      | O =>
          match match_at ci r (prev, s) with
          | Some e =>
              match String.length (consumed s e), piece with
              | O, EmptyString =>
                  split_scan ci r (String c EmptyString) (Some c) 0 s'
              | O, _ =>
                  piece :: split_scan ci r (String c EmptyString) (Some c) 0 s'
              | S n, _ => piece :: split_scan ci r EmptyString (Some c) n s'
              end
          | None =>
              split_scan ci r (piece ++ String c EmptyString) (Some c) 0 s'
          end
      end
  end.

Definition split (ci : bool) (r : regex) (s : string) : list string :=
  match s with
  | EmptyString =>
      match match_at ci r (None, s) with Some _ => [] | None => [s] end
  | _ => split_scan ci r EmptyString None 0 s
  end.

(** The building blocks the services use. *)
Definition digits : regex := Plus (Chr CDigit).      (* \d+ *)
Definition spaces : regex := Plus (Chr CSpace).      (* \s+ *)
Definition spaces0 : regex := Star (Chr CSpace).     (* \s* *)
Definition all_digits : regex := Seqs [Bol; digits; Eol].  (* ^\d+$ *)
Definition whole_word (w : string) : regex := Seqs [WordB; Lit w; WordB].

End Regex.

(* ================================================================== *)
(** * The [leven] package: Levenshtein distance                       *)
(* ================================================================== *)

Module Leven.

Definition min3 (a b c : nat) : nat := Nat.min a (Nat.min b c).

(** The recurrence that defines the distance: deleting the first character
    of [s], inserting the first character of [t], or matching the two
    first characters at cost 0 when they are equal and 1 otherwise. *)
Fixpoint distance (s t : string) {struct s} : nat :=
  match s with
  | EmptyString => String.length t
  | String a s' =>
      (fix against (t : string) : nat :=
         match t with
         | EmptyString => S (String.length s')
         | String b t' =>
             min3 (distance s' t + 1) (against t' + 1)
                  (distance s' t' + if Ascii.eqb a b then 0 else 1)
         end) t
  end.

(** The package fills a table row by row and keeps one row.  A row holds
    the distances from one suffix of [s] to every suffix of [t], the
    longest first. *)
Fixpoint lastRow (t : string) : list nat :=
  match t with
  | EmptyString => [0]
  | String _ t' => String.length t :: lastRow t'
  end.

(** The row of [String a s'] from the row [below] of [s']. *)
Fixpoint fillRow (a : ascii) (t : string) (below : list nat) : list nat :=
  match t, below with
  | String b t', down :: below' =>
      let rest := fillRow a t' below' in
      let right := hd 0 rest in
      let diag := hd 0 below' in
      min3 (down + 1) (right + 1) (diag + if Ascii.eqb a b then 0 else 1)
        :: rest
  | EmptyString, down :: _ => [down + 1]
  | _, [] => []
  end.

Fixpoint table (s t : string) : list nat :=
  match s with
  | EmptyString => lastRow t
  | String a s' => fillRow a t (table s' t)
  end.

Definition leven (s t : string) : nat := hd 0 (table s t).

(** Every suffix of a string, the longest first. *)
Fixpoint suffixes (t : string) : list string :=
  match t with
  | EmptyString => [EmptyString]
  | String _ t' => t :: suffixes t'
  end.

End Leven.

(* ================================================================== *)
(** * [utils/constants.js]                                            *)
(* ================================================================== *)

Module Constants.

Local Open Scope Q_scope.

Module RANKING_WEIGHTS.
Definition RELEVANCE : Q := 5 # 10.
Definition QUALITY : Q := 3 # 10.
Definition POPULARITY : Q := 2 # 10.
End RANKING_WEIGHTS.

Module RELEVANCE_WEIGHTS.
Definition TITLE_MATCH : Q := 4 # 10.
Definition DESCRIPTION_MATCH : Q := 2 # 10.
Definition METADATA_MATCH : Q := 2 # 10.
Definition EXACT_MATCH_BONUS : Q := 2 # 10.
Definition BRAND_MATCH_BONUS : Q := 1 # 10.
Definition MODEL_MATCH_BONUS : Q := 1 # 10.
End RELEVANCE_WEIGHTS.

Module QUALITY_WEIGHTS.
Definition RATING : Q := 3 # 10.
Definition REVIEW_COUNT : Q := 2 # 10.
Definition RETURN_RATE : Q := 2 # 10.
Definition COMPLAINT_COUNT : Q := 1 # 10.
Definition STOCK_AVAILABILITY : Q := 2 # 10.
End QUALITY_WEIGHTS.

Module POPULARITY_WEIGHTS.
Definition UNITS_SOLD : Q := 4 # 10.
Definition DISCOUNT_PERCENTAGE : Q := 3 # 10.
Definition IS_LATEST : Q := 3 # 10.
End POPULARITY_WEIGHTS.

Module SEARCH_CONFIG.
Definition MAX_RESULTS : Z := 100.
Definition DEFAULT_RESULTS : Z := 50.
Definition FUZZY_THRESHOLD : nat := 2.
Definition MIN_STOCK_FOR_BOOST : Q := 1.
End SEARCH_CONFIG.

(** Object literals keep the order in which their keys are written. *)
Definition HINGLISH_MAPPINGS : list (string * string) :=
  [ ("sasta", "cheap"); ("sastha", "cheap"); ("wala", "with");
    ("mein", "in"); ("ka", "of"); ("ki", "of"); ("ke", "of");
    ("se", "from"); ("par", "on") ]%string.

Definition SPELLING_CORRECTIONS : list (string * string) :=
  [ ("ifone", "iphone"); ("ipone", "iphone"); ("sastha", "sasta");
    ("samsung", "samsung"); ("oneplus", "oneplus") ]%string.

Definition PRICE_KEYWORDS : list (string * Z) :=
  [ ("k", 1000); ("thousand", 1000); ("lakh", 100000); ("lac", 100000);
    ("rupees", 1); ("rs", 1); ("rs.", 1) ]%string%Z.

End Constants.

(* ================================================================== *)
(** * [services/QueryProcessor.js]                                    *)
(* ================================================================== *)

Module QueryProcessor.

Import Regex.

Inductive SortBy : Type := latest | price_asc | rating.

Record PriceRange : Type := {
  minPrice : option Z;
  maxPrice : option Z
}.

(** [intent.filterBy]: a field that was never assigned is [None]. *)
Record FilterBy : Type := {
  color : option string;
  model : option string;
  brand : option string;
  priceRange : option PriceRange
}.

(** [intent]; the empty object [{}] that [processQuery] returns for a
    missing query has no [filterBy] at all. *)
Record Intent : Type := {
  sortBy : option SortBy;
  filterBy : option FilterBy;
  searchTerms : list string
}.

Record ProcessedQuery : Type := {
  original : string;
  normalized : string;
  corrected : string;
  intent : Intent
}.

(** The constructor's vocabularies. *)
Definition brands : list string :=
  [ "iphone"; "samsung"; "oneplus"; "xiaomi"; "redmi"; "oppo"; "vivo";
    "realme"; "nokia" ].

Definition productTerms : list string :=
  [ "phone"; "mobile"; "laptop"; "headphone"; "charger"; "cover"; "case";
    "screen"; "guard" ].

(** The loop [Object.keys(table).forEach(key => text = text.replace(
    new RegExp(`\\b${key}\\b`, "gi"), table[key]))]. *)
Definition replaceWords (table : list (string * string)) (text : string)
  : string :=
  fold_left
    (fun acc entry => replaceAll true (whole_word (fst entry)) (snd entry) acc)
    table text.

(** The body of each [for (const term of vocabulary)] loop of
    [correctSpelling]: the first term at distance 1 or 2 of a word longer
    than three characters. *)
Fixpoint closeTerm (word : string) (vocabulary : list string)
  : option string :=
  match vocabulary with
  | [] => None
  | term :: rest =>
      let distance := Leven.leven word term in
      if (distance <=? 2)%nat && (0 <? distance)%nat
         && (3 <? String.length word)%nat
      then Some term
      else closeTerm word rest
  end.

Definition correctWord (word : string) : string :=
  match closeTerm word brands with
  | Some b => b
  | None =>
      match closeTerm word productTerms with
      | Some term => term
      | None => word
      end
  end.

Definition correctSpelling (query : string) : string :=
  let corrected :=
    replaceWords Constants.SPELLING_CORRECTIONS (Js.toLowerCase query) in
  let words := split false spaces corrected in
  Js.join " " (map correctWord words).

Definition translateHinglish (query : string) : string :=
  replaceWords Constants.HINGLISH_MAPPINGS (Js.toLowerCase query).

(** [rupees?|rs\.?] *)
Definition rupees : regex :=
  Alt (Seq (Lit "rupee") (Opt (Lit "s"))) (Seq (Lit "rs") (Opt (Lit "."))).

Definition k_or_thousand : regex := Alt (Lit "k") (Lit "thousand").

Definition pricePatterns : list regex :=
  [ Seqs [digits; spaces0; Alts [Lit "k"; Lit "thousand"; Lit "thousands"];
          spaces0; Opt rupees];
    Seqs [digits; spaces0; Alt (Lit "lakh") (Lit "lac"); spaces0; Opt rupees];
    Seqs [digits; spaces0; rupees];
    Seqs [Lit "under"; spaces0; digits; spaces0; Opt k_or_thousand];
    Seqs [Lit "below"; spaces0; digits; spaces0; Opt k_or_thousand];
    Seqs [Lit "upto"; spaces0; digits; spaces0; Opt k_or_thousand];
    Seqs [Lit "max"; spaces0; digits; spaces0; Opt k_or_thousand] ].

(** The body of [for (const match of matches)]. *)
Definition priceOfMatch (range : PriceRange) (m : string) : PriceRange :=
  match exec false digits m with
  | Some numberMatch =>
      let value := Js.parseInt numberMatch in
      let lower := Js.toLowerCase m in
      let value :=
        if Js.includes lower "k" || Js.includes lower "thousand"
        then (value * 1000)%Z
        else if Js.includes lower "lakh" || Js.includes lower "lac"
             then (value * 100000)%Z
             else value in
      if Js.includes lower "under" || Js.includes lower "below"
         || Js.includes lower "upto" || Js.includes lower "max"
      then {| minPrice := minPrice range; maxPrice := Some value |}
      else {| minPrice := minPrice range; maxPrice := Some value |}
  | None => range
  end.

Definition extractPriceRange (query : string) : PriceRange :=
  fold_left
    (fun range pattern => fold_left priceOfMatch (matchAll true pattern query) range)
    pricePatterns
    {| minPrice := None; maxPrice := None |}.

Definition colors : list string :=
  [ "red"; "blue"; "green"; "yellow"; "black"; "white"; "silver"; "gold";
    "pink"; "purple"; "orange"; "grey"; "gray"; "brown"; "starlight";
    "cosmic orange"; "deep blue"; "sky blue"; "space black"; "space gray" ].

Definition extractColor (query : string) : option string :=
  let lowerQuery := Js.toLowerCase query in
  find (fun color => Js.includes lowerQuery (Js.toLowerCase color)) colors.

Definition iphonePattern : regex :=
  Seqs [Lit "iphone"; spaces0; digits; spaces0;
        Opt (Alts [Lit "pro"; Lit "max"; Lit "plus"; Lit "air"])].

Definition samsungPattern : regex :=
  Seqs [Lit "galaxy"; spaces; Lit "s"; digits].

Definition numberPattern : regex := Seqs [WordB; digits; WordB].

Definition extractModel (query : string) : option string :=
  match matchAll true iphonePattern query with
  | iphoneMatch :: _ => Some (Js.trim iphoneMatch)
  | [] =>
      match matchAll true samsungPattern query with
      | samsungMatch :: _ => Some (Js.trim samsungMatch)
      | [] => exec false numberPattern query
      end
  end.

Definition brandNames : list string :=
  [ "iphone"; "apple"; "samsung"; "oneplus"; "xiaomi"; "redmi"; "oppo";
    "vivo"; "realme"; "nokia" ].

Definition extractBrand (query : string) : option string :=
  let lowerQuery := Js.toLowerCase query in
  match find (fun b => Js.includes lowerQuery b) brandNames with
  | Some b => Some (if String.eqb b "iphone" then "apple" else b)
  | None => None
  end.

Definition filterKeywords : list string :=
  [ "latest"; "new"; "cheap"; "sasta"; "best"; "top"; "red"; "blue";
    "black"; "white"; "color"; "rupees"; "rs"; "k"; "thousand"; "lakh";
    "under"; "below"; "upto"; "max" ].

(** [if (value) intent.filterBy.field = value] for a string. *)
Definition whenTruthy (value : option string) : option string :=
  match value with
  | Some s => if Js.truthy_string s then Some s else None
  | None => None
  end.

Definition truthyPrice (p : option Z) : bool :=
  match p with Some z => Js.truthy_Z z | None => false end.

Definition extractIntent (query : string) : Intent :=
  let lowerQuery := Js.toLowerCase query in
  let sort0 : option SortBy := None in
  let sort1 :=
    if Js.includes lowerQuery "latest" || Js.includes lowerQuery "new"
       || Js.includes lowerQuery "newest"
    then Some latest else sort0 in
  let sort2 :=
    if Js.includes lowerQuery "cheap" || Js.includes lowerQuery "sasta"
       || Js.includes lowerQuery "sastha"
       || Js.includes lowerQuery "affordable"
       || Js.includes lowerQuery "budget"
    then Some price_asc else sort1 in
  let sort3 :=
    if Js.includes lowerQuery "best" || Js.includes lowerQuery "top"
    then Some rating else sort2 in
  let range := extractPriceRange query in
  let words := split false spaces (Js.toLowerCase query) in
  {| sortBy := sort3;
     filterBy :=
       Some {| color := whenTruthy (extractColor query);
               model := whenTruthy (extractModel query);
               brand := whenTruthy (extractBrand query);
               priceRange :=
                 if truthyPrice (minPrice range) || truthyPrice (maxPrice range)
                 then Some range else None |};
     searchTerms :=
       filter
         (fun word =>
            (2 <? String.length word)%nat && negb (Js.mem word filterKeywords))
         words |}.

Definition normalizeQuery (query : string) : string :=
  if negb (Js.truthy_string query) then ""
  else
    let normalized := replaceAll false (Chr CNotWordSpace) " " query in
    let normalized := Js.toLowerCase normalized in
    Js.trim (replaceAll false spaces " " normalized).

Definition processQuery (query : string) : ProcessedQuery :=
  if negb (Js.truthy_string query)
  then {| original := ""; normalized := ""; corrected := "";
          intent := {| sortBy := None; filterBy := None; searchTerms := [] |} |}
  else
    let normalized := normalizeQuery query in
    let translated := translateHinglish normalized in
    let corrected := correctSpelling translated in
    {| original := query;
       normalized := normalized;
       corrected := corrected;
       intent := extractIntent corrected |}.

End QueryProcessor.

(* ================================================================== *)
(** * Exceptions, dynamic values, insertion-ordered maps and sets     *)
(* ================================================================== *)

Inductive exn : Type := TypeError.

Inductive result (A : Type) : Type :=
| Ok (a : A)
| Throw (e : exn).

Arguments Ok {A} a.
Arguments Throw {A} e.

Definition bind {A B : Type} (c : result A) (k : A -> result B) : result B :=
  match c with
  | Ok a => k a
  | Throw e => Throw e
  end.

Notation "x <- c ;; k" := (bind c (fun x => k))
  (at level 61, c at next level, right associativity).

(** [Array.prototype.map] and [Array.prototype.filter] with a callback that
    may throw: elements are visited left to right and the first exception
    ends the loop. *)
Fixpoint mapM {A B : Type} (f : A -> result B) (l : list A) : result (list B) :=
  match l with
  | [] => Ok []
  | x :: l' => y <- f x ;; ys <- mapM f l' ;; Ok (y :: ys)
  end.

Fixpoint filterM {A : Type} (f : A -> result bool) (l : list A)
  : result (list A) :=
  match l with
  | [] => Ok []
  | x :: l' =>
      keep <- f x ;; rest <- filterM f l' ;;
      Ok (if keep then x :: rest else rest)
  end.

(** Values a metadata object can hold after [JSON.parse]. *)
Inductive JsValue : Type :=
| JString (s : string)
| JNumber (n : Z)
| JBoolean (b : bool)
| JNull.

Module JsValues.

Definition truthy (v : JsValue) : bool :=
  match v with
  | JString s => Js.truthy_string s
  | JNumber n => Js.truthy_Z n
  | JBoolean b => b
  | JNull => false
  end.

(** [typeof v === "string"] *)
Definition asString (v : JsValue) : option string :=
  match v with JString s => Some s | _ => None end.

(** [v.toLowerCase()]: only strings have the method. *)
Definition toLowerCase (v : JsValue) : result string :=
  match v with
  | JString s => Ok (Js.toLowerCase s)
  | _ => Throw TypeError
  end.

(** [a || b] where [a] may be [undefined] *)
Definition or (a : option JsValue) (b : JsValue) : JsValue :=
  match a with
  | Some v => if truthy v then v else b
  | None => b
  end.

Definition truthy_opt (a : option JsValue) : bool :=
  match a with Some v => truthy v | None => false end.

End JsValues.

(** [Map]: [set] on a present key keeps its place, on a new key appends. *)
Module JsMap.
Section WithKey.
Variables (K V : Type) (eqb : K -> K -> bool).

Fixpoint get (m : list (K * V)) (k : K) : option V :=
  match m with
  | [] => None
  | (k', v) :: m' => if eqb k k' then Some v else get m' k
  end.

Definition has (m : list (K * V)) (k : K) : bool :=
  match get m k with Some _ => true | None => false end.

Fixpoint set (m : list (K * V)) (k : K) (v : V) : list (K * V) :=
  match m with
  | [] => [(k, v)]
  | (k', v') :: m' =>
      if eqb k k' then (k', v) :: m' else (k', v') :: set m' k v
  end.

Fixpoint delete (m : list (K * V)) (k : K) : list (K * V) :=
  match m with
  | [] => []
  | (k', v') :: m' => if eqb k k' then m' else (k', v') :: delete m' k
  end.

Definition values (m : list (K * V)) : list V := map snd m.
End WithKey.
End JsMap.

(** [Set] of product identifiers. *)
Module JsSet.
Definition has (s : list Z) (x : Z) : bool := existsb (Z.eqb x) s.
Definition add (s : list Z) (x : Z) : list Z :=
  if has s x then s else (s ++ [x])%list.
Definition delete (s : list Z) (x : Z) : list Z :=
  filter (fun y => negb (Z.eqb x y)) s.
Definition addAll (s : list Z) (xs : list Z) : list Z := fold_left add xs s.
End JsSet.

(** Comparisons and clamps on numbers. *)
Module Num.
Definition ltb (a b : Q) : bool := negb (Qle_bool b a).
Definition leb (a b : Q) : bool := Qle_bool a b.
Definition truthy (a : Q) : bool := negb (Qeq_bool a 0).
Definition min (a b : Q) : Q := if Qle_bool a b then a else b.
Definition max (a b : Q) : Q := if Qle_bool a b then b else a.
Definition abs (a : Q) : Q := Qabs a.
Definition ofNat (n : nat) : Q := inject_Z (Z.of_nat n).
(** [a || b] on numbers *)
Definition or (a : option Q) (b : Q) : Q :=
  match a with Some q => if truthy q then q else b | None => b end.
End Num.

(* ================================================================== *)
(** * [models/Product.js]                                             *)
(* ================================================================== *)

Module Product.

Definition Metadata : Type := list (string * JsValue).

(** The fields the catalog and the search pipeline read.  [currency],
    [sellingPrice] and [popularityScore] are stored by the constructor
    and read by no service, so they are left out. *)
Record t : Type := {
  productId : Z;
  title : string;
  description : string;
  brand : string;
  category : string;
  price : Q;
  mrp : Q;
  rating : Q;
  stock : Q;
  metadata : Metadata;
  unitsSold : Q;
  returnRate : Q;
  reviewCount : Q;
  complaintCount : Q;
  discountPercentage : Q;
  isLatest : bool;
  searchKeywords : list string;
  searchText : string
}.

(** The argument of the constructor: every field may be missing. *)
Record Data : Type := {
  d_productId : option Z;
  d_title : option string;
  d_description : option string;
  d_brand : option string;
  d_category : option string;
  d_price : option Q;
  d_mrp : option Q;
  d_rating : option Q;
  d_stock : option Q;
  d_metadata : option Metadata;
  d_unitsSold : option Q;
  d_returnRate : option Q;
  d_reviewCount : option Q;
  d_complaintCount : option Q;
  d_discountPercentage : option Q;
  d_isLatest : option bool
}.

Definition meta (p : t) (key : string) : option JsValue :=
  JsMap.get String.eqb (metadata p) key.

Fixpoint dedup (seen : list string) (l : list string) : list string :=
  match l with
  | [] => []
  | x :: l' =>
      if Js.mem x seen then dedup seen l' else x :: dedup (x :: seen) l'
  end.

Definition extractKeywords (text : string) : list string :=
  let words :=
    filter
      (fun word =>
         (2 <? String.length word)%nat || Regex.test false Regex.all_digits word)
      (Regex.split false Regex.spaces
         (Regex.replaceAll false (Regex.Chr Regex.CNotWordSpace) " " text)) in
  dedup [] words.

Fixpoint stringValues (m : Metadata) : list string :=
  match m with
  | [] => []
  | (_, v) :: m' =>
      match JsValues.asString v with
      | Some s => s :: stringValues m'
      | None => stringValues m'
      end
  end.

Definition with_search (p : t) (text : string) (keywords : list string) : t :=
  {| productId := productId p; title := title p;
     description := description p; brand := brand p;
     category := category p; price := price p; mrp := mrp p;
     rating := rating p; stock := stock p; metadata := metadata p;
     unitsSold := unitsSold p; returnRate := returnRate p;
     reviewCount := reviewCount p; complaintCount := complaintCount p;
     discountPercentage := discountPercentage p; isLatest := isLatest p;
     searchKeywords := keywords; searchText := text |}.

Definition with_metadata (p : t) (m : Metadata) : t :=
  {| productId := productId p; title := title p;
     description := description p; brand := brand p;
     category := category p; price := price p; mrp := mrp p;
     rating := rating p; stock := stock p; metadata := m;
     unitsSold := unitsSold p; returnRate := returnRate p;
     reviewCount := reviewCount p; complaintCount := complaintCount p;
     discountPercentage := discountPercentage p; isLatest := isLatest p;
     searchKeywords := searchKeywords p; searchText := searchText p |}.

Definition updateSearchText (p : t) : t :=
  let parts :=
    ([title p; description p; brand p; category p]
       ++ stringValues (metadata p))%list in
  let text := Js.toLowerCase (Js.join " " parts) in
  with_search p text (extractKeywords text).

Definition orString (a : option string) (b : string) : string :=
  match a with
  | Some s => if Js.truthy_string s then s else b
  | None => b
  end.

(** [new Product(data)], for a [data] whose [productId] has been set. *)
Definition new (id : Z) (data : Data) : t :=
  let price := Num.or (d_price data) 0 in
  let mrp := Num.or (d_mrp data) (Num.or (d_price data) 0) in
  let discount := Num.or (d_discountPercentage data) 0 in
  updateSearchText
    {| productId := id;
       title := orString (d_title data) "";
       description := orString (d_description data) "";
       brand := orString (d_brand data) "unknown";
       category := orString (d_category data) "mobile";
       price := price;
       mrp := mrp;
       rating := Num.or (d_rating data) 0;
       stock := Num.or (d_stock data) 0;
       metadata := match d_metadata data with Some m => m | None => [] end;
       unitsSold := Num.or (d_unitsSold data) 0;
       returnRate := Num.or (d_returnRate data) 0;
       reviewCount := Num.or (d_reviewCount data) 0;
       complaintCount := Num.or (d_complaintCount data) 0;
       discountPercentage :=
         if Num.ltb 0 mrp && Num.ltb price mrp
         then ((mrp - price) / mrp * 100)%Q else discount;
       isLatest := match d_isLatest data with Some b => b | None => false end;
       searchKeywords := [];
       searchText := "" |}.

End Product.

(* ================================================================== *)
(** * [services/ProductService.js]                                    *)
(* ================================================================== *)

Module ProductService.

Definition Index : Type := list (string * list Z).

Record t : Type := {
  products : list (Z * Product.t);
  categoryIndex : Index;
  brandIndex : Index;
  keywordIndex : Index;
  nextProductId : Z
}.

Definition empty : t :=
  {| products := []; categoryIndex := []; brandIndex := [];
     keywordIndex := []; nextProductId := 1 |}.

Definition ids (index : Index) (key : string) : list Z :=
  match JsMap.get String.eqb index key with
  | Some s => s
  | None => []
  end.

(** [if (!index.has(key)) index.set(key, new Set());
     index.get(key).add(id);] *)
Definition file (index : Index) (key : string) (id : Z) : Index :=
  let index :=
    if JsMap.has String.eqb index key then index
    else JsMap.set String.eqb index key [] in
  JsMap.set String.eqb index key (JsSet.add (ids index key) id).

(** [if (index.has(key)) { index.get(key).delete(id);
     if (index.get(key).size === 0) index.delete(key); }] *)
Definition unfile (index : Index) (key : string) (id : Z) : Index :=
  if JsMap.has String.eqb index key then
    let bucket := JsSet.delete (ids index key) id in
    match bucket with
    | [] => JsMap.delete String.eqb index key
    | _ => JsMap.set String.eqb index key bucket
    end
  else index.

Definition updateIndexes (s : t) (product : Product.t) : t :=
  let id := Product.productId product in
  {| products := products s;
     categoryIndex :=
       file (categoryIndex s) (Js.toLowerCase (Product.category product)) id;
     brandIndex :=
       file (brandIndex s) (Js.toLowerCase (Product.brand product)) id;
     keywordIndex :=
       fold_left (fun index keyword => file index keyword id)
         (Product.searchKeywords product) (keywordIndex s);
     nextProductId := nextProductId s |}.

Definition removeFromIndexes (s : t) (product : Product.t) : t :=
  let id := Product.productId product in
  {| products := products s;
     categoryIndex :=
       unfile (categoryIndex s) (Js.toLowerCase (Product.category product)) id;
     brandIndex :=
       unfile (brandIndex s) (Js.toLowerCase (Product.brand product)) id;
     keywordIndex :=
       fold_left (fun index keyword => unfile index keyword id)
         (Product.searchKeywords product) (keywordIndex s);
     nextProductId := nextProductId s |}.

Definition with_products (s : t) (ps : list (Z * Product.t)) : t :=
  {| products := ps; categoryIndex := categoryIndex s;
     brandIndex := brandIndex s; keywordIndex := keywordIndex s;
     nextProductId := nextProductId s |}.

Definition with_next (s : t) (n : Z) : t :=
  {| products := products s; categoryIndex := categoryIndex s;
     brandIndex := brandIndex s; keywordIndex := keywordIndex s;
     nextProductId := n |}.

Definition truthyId (id : option Z) : option Z :=
  match id with
  | Some z => if Js.truthy_Z z then Some z else None
  | None => None
  end.

(** [addProduct]; writing the catalog file has no effect on the state. *)
Definition addProduct (s : t) (data : Product.Data) : t * Product.t :=
  let '(s, id) :=
    match truthyId (Product.d_productId data) with
    | None => (with_next s (nextProductId s + 1)%Z, nextProductId s)
    | Some id =>
        (if (nextProductId s <=? id)%Z then with_next s (id + 1)%Z else s, id)
    end in
  let product := Product.new id data in
  let s := with_products s (JsMap.set Z.eqb (products s) id product) in
  (updateIndexes s product, product).

Definition getProduct (s : t) (productId : Z) : option Product.t :=
  JsMap.get Z.eqb (products s) productId.

(** [{ ...old, ...update }], for keys that are not array indices. *)
Definition spread (old update : Product.Metadata) : Product.Metadata :=
  fold_left (fun m entry => JsMap.set String.eqb m (fst entry) (snd entry))
    update old.

(** [updateProductMetadata]: the product object is changed in place, so
    the catalog sees every step. *)
Definition updateProductMetadata (s : t) (productId : Z)
           (metadata : Product.Metadata) : t * option Product.t :=
  match JsMap.get Z.eqb (products s) productId with
  | None => (s, None)
  | Some product =>
      let product :=
        Product.with_metadata product
          (spread (Product.metadata product) metadata) in
      let product := Product.updateSearchText product in
      let s := with_products s (JsMap.set Z.eqb (products s) productId product) in
      let s := removeFromIndexes s product in
      let s := updateIndexes s product in
      (s, Some product)
  end.

Definition deleteProduct (s : t) (productId : Z) : t * bool :=
  match JsMap.get Z.eqb (products s) productId with
  | None => (s, false)
  | Some product =>
      let s := removeFromIndexes s product in
      (with_products s (JsMap.delete Z.eqb (products s) productId), true)
  end.

Definition getAllProductsUnpaginated (s : t) : list Product.t :=
  JsMap.values (products s).

(** [Array.from(ids).map(id => this.products.get(id))
      .filter(p => p !== undefined)] *)
Fixpoint lookupAll (s : t) (l : list Z) : list Product.t :=
  match l with
  | [] => []
  | id :: l' =>
      match getProduct s id with
      | Some p => p :: lookupAll s l'
      | None => lookupAll s l'
      end
  end.

Definition getProductsByCategory (s : t) (category : string) : list Product.t :=
  lookupAll s (ids (categoryIndex s) (Js.toLowerCase category)).

Definition getProductsByBrand (s : t) (brand : string) : list Product.t :=
  lookupAll s (ids (brandIndex s) (Js.toLowerCase brand)).

Definition getProductsByKeyword (s : t) (keyword : string) : list Product.t :=
  lookupAll s (ids (keywordIndex s) (Js.toLowerCase keyword)).

Definition isKeyword (k : string) : bool :=
  (2 <? String.length k)%nat || Regex.test false Regex.all_digits k.

Definition idsOf (ps : list Product.t) : list Z :=
  JsSet.addAll [] (map Product.productId ps).

Definition searchProductsByText (s : t) (searchText : string)
  : list Product.t :=
  let keywords :=
    filter isKeyword (Regex.split false Regex.spaces (Js.toLowerCase searchText)) in
  let productSets := map (getProductsByKeyword s) keywords in
  match productSets with
  | [] => []
  | first :: others =>
      let resultSet :=
        fold_left
          (fun acc set => filter (JsSet.has (idsOf set)) acc)
          others (idsOf first) in
      let resultSet :=
        match resultSet with
        | [] =>
            fold_left
              (fun acc set => JsSet.addAll acc (map Product.productId set))
              productSets []
        | _ => resultSet
        end in
      (* every identifier comes from a product that was just looked up *)
      lookupAll s resultSet
  end.

(** [array.slice(start, end)] for integer bounds: a negative bound counts
    from the end, and both are clamped to the array. *)
Definition slice {A : Type} (l : list A) (start e : Z) : list A :=
  let len := Z.of_nat (length l) in
  let k := if (start <? 0)%Z then Z.max (len + start) 0 else Z.min start len in
  let final := if (e <? 0)%Z then Z.max (len + e) 0 else Z.min e len in
  firstn (Z.to_nat (Z.max (final - k) 0)) (skipn (Z.to_nat k) l).

(** The object that [getAllProducts] returns.  [totalPages] is
    [Math.ceil(products.length / limit)], which is no finite number for a
    limit of zero: it is [None] then. *)
Record Page : Type := {
  pageProducts : list Product.t;
  total : Z;
  page : Z;
  limit : Z;
  totalPages : option Z
}.

(** [getAllProducts(page = 1, limit = 50)]; a missing argument is [None]. *)
Definition getAllProducts (s : t) (page limit : option Z) : Page :=
  let page := match page with Some n => n | None => 1%Z end in
  let limit := match limit with Some n => n | None => 50%Z end in
  let products := JsMap.values (products s) in
  let start := ((page - 1) * limit)%Z in
  let e := (start + limit)%Z in
  {| pageProducts := slice products start e;
     total := Z.of_nat (length products);
     page := page;
     limit := limit;
     totalPages :=
       if (limit =? 0)%Z then None
       else Some (Qceiling (inject_Z (Z.of_nat (length products))
                            / inject_Z limit)) |}.

Definition getProductCount (s : t) : nat := length (products s).

Definition clearAll (s : t) : t := empty.

End ProductService.

(* ================================================================== *)
(** * [Array.prototype.sort]                                          *)
(* ================================================================== *)

(** The engine's sort on an array of fewer than 64 elements: the longest
    initial run is found (and reversed when it is strictly descending),
    then every later element is placed by binary insertion.  On longer
    arrays the engine cuts the array into runs built this way and merges
    them.  The comparator's result is only tested for its sign. *)
Module ArraySort.
Section WithComparator.
Variable A : Type.
Variable compare : A -> A -> Q.

(** [order < 0] *)
Definition before (a b : A) : bool := Num.ltb (compare a b) 0.

Fixpoint extendRun (descending : bool) (previous : A) (rest : list A)
  : list A * list A :=
  match rest with
  | [] => ([], [])
  | current :: rest' =>
      if Bool.eqb (before current previous) descending then
        let (run, tail) := extendRun descending current rest' in
        (current :: run, tail)
      else ([], rest)
  end.

Definition countAndMakeRun (l : list A) : list A * list A :=
  match l with
  | [] => ([], [])
  | [a] => ([a], [])
  | high :: low :: rest =>
      let descending := before low high in
      let (run, tail) := extendRun descending low rest in
      let whole := high :: low :: run in
      (if descending then rev whole else whole, tail)
  end.

Fixpoint search (fuel : nat) (pivot : A) (work : list A)
         (left right : nat) : nat :=
  match fuel with
  | O => left
  | S fuel' =>
      if (left <? right)%nat then
        let mid := (left + (right - left) / 2)%nat in
        match nth_error work mid with
        | Some x =>
            if before pivot x
            then search fuel' pivot work left mid
            else search fuel' pivot work (mid + 1)%nat right
        | None => left
        end
      else left
  end.

Definition insert (work : list A) (pivot : A) : list A :=
  let left := search (length work) pivot work 0 (length work) in
  (firstn left work ++ pivot :: skipn left work)%list.

Definition sort (l : list A) : list A :=
  let (run, rest) := countAndMakeRun l in
  fold_left insert rest run.

(** [a] may stand before [b]: the comparator does not order [b] before
    [a]. *)
Definition inOrder (a b : A) : Prop := before b a = false.
End WithComparator.
End ArraySort.

(* ================================================================== *)
(** * [services/RankingEngine.js]                                     *)
(* ================================================================== *)

Module RankingEngine.

Import Constants.
Import QueryProcessor.
Local Open Scope Q_scope.

(** [processedQuery.intent.filterBy.something]: reading a property of
    [undefined] throws. *)
Definition filterByOf (pq : ProcessedQuery) : result FilterBy :=
  match filterBy (intent pq) with
  | Some f => Ok f
  | None => Throw TypeError
  end.

Definition countMatching (text : string) (keywords : list string) : nat :=
  length (filter (fun k => Js.includes text k) keywords).

(** [if (count > 0) score += weight * (count / keywords.length)] *)
Definition share (weight : Q) (count : nat) (keywords : list string) : Q :=
  if (0 <? count)%nat
  then weight * (Num.ofNat count / Num.ofNat (length keywords))
  else 0.

(** The loops of [calculateFuzzyMatch]. *)
Definition fuzzyOfWord (keyword : string) (total : nat) (score : Q)
           (word : string) : Q :=
  if (3 <? String.length word)%nat && (3 <? String.length keyword)%nat then
    let distance := Leven.leven word keyword in
    if (distance <=? SEARCH_CONFIG.FUZZY_THRESHOLD)%nat && (0 <? distance)%nat
    then score
         + (1 - Num.ofNat distance / Num.ofNat SEARCH_CONFIG.FUZZY_THRESHOLD)
           / Num.ofNat total
    else score
  else score.

Definition calculateFuzzyMatch (product : Product.t) (keywords : list string)
  : Q :=
  let productText := Js.toLowerCase (Product.searchText product) in
  let matchScore :=
    fold_left
      (fun score keyword =>
         let productWords := Regex.split false Regex.spaces productText in
         fold_left (fuzzyOfWord keyword (length keywords)) productWords score)
      keywords 0 in
  Num.min 1 matchScore.

(** [(product.metadata.key || "").toLowerCase()] *)
Definition metaLower (product : Product.t) (key : string) : result string :=
  JsValues.toLowerCase (JsValues.or (Product.meta product key) (JString "")).

(** [if (intent.filterBy.key) { const v = product.metadata.key || "";
     if (v.toLowerCase().includes(intent.filterBy.key.toLowerCase()))
       score += bonus; }] *)
Definition attributeBonus (product : Product.t) (key : string)
           (wanted : option string) (bonus : Q) : result Q :=
  match whenTruthy wanted with
  | Some w =>
      v <- metaLower product key ;;
      Ok (if Js.includes v (Js.toLowerCase w) then bonus else 0)
  | None => Ok 0
  end.

Definition calculateRelevanceScore (product : Product.t) (query : string)
           (pq : ProcessedQuery) : result Q :=
  let queryLower := Js.toLowerCase query in
  let correctedQuery := Js.toLowerCase (corrected pq) in
  let keywords :=
    filter (fun k => (2 <? String.length k)%nat)
      (Regex.split false Regex.spaces correctedQuery) in
  let titleLower := Js.toLowerCase (Product.title product) in
  let score :=
    if Js.includes titleLower queryLower
    then RELEVANCE_WEIGHTS.TITLE_MATCH
    else share RELEVANCE_WEIGHTS.TITLE_MATCH
           (countMatching titleLower keywords) keywords in
  let descLower := Js.toLowerCase (Product.description product) in
  let score :=
    score + share RELEVANCE_WEIGHTS.DESCRIPTION_MATCH
              (countMatching descLower keywords) keywords in
  let metadataText :=
    Js.toLowerCase
      (Js.join " " (Product.stringValues (Product.metadata product))) in
  let score :=
    score + share RELEVANCE_WEIGHTS.METADATA_MATCH
              (countMatching metadataText keywords) keywords in
  let score :=
    if String.eqb titleLower queryLower || Js.includes titleLower queryLower
    then score + RELEVANCE_WEIGHTS.EXACT_MATCH_BONUS else score in
  f <- filterByOf pq ;;
  let score :=
    match whenTruthy (brand f) with
    | Some b =>
        if String.eqb (Js.toLowerCase (Product.brand product)) (Js.toLowerCase b)
        then score + RELEVANCE_WEIGHTS.BRAND_MATCH_BONUS else score
    | None => score
    end in
  modelBonus <-
    attributeBonus product "model" (model f) RELEVANCE_WEIGHTS.MODEL_MATCH_BONUS ;;
  colorBonus <-
    attributeBonus product "color" (color f) RELEVANCE_WEIGHTS.MODEL_MATCH_BONUS ;;
  let score := score + modelBonus + colorBonus in
  let fuzzyMatch := calculateFuzzyMatch product keywords in
  let score := score + fuzzyMatch * (1 # 10) in
  Ok (Num.min 1 score).

Definition calculateQualityScore (product : Product.t) : Q :=
  let ratingScore := Product.rating product / 5 in
  let score := ratingScore * QUALITY_WEIGHTS.RATING in
  let maxReviews := 10000 in
  let reviewScore := Num.min 1 (Product.reviewCount product / maxReviews) in
  let score := score + reviewScore * QUALITY_WEIGHTS.REVIEW_COUNT in
  let returnScore := 1 - Product.returnRate product in
  let score := score + returnScore * QUALITY_WEIGHTS.RETURN_RATE in
  let maxComplaints := 1000 in
  let complaintScore :=
    1 - Num.min 1 (Product.complaintCount product / maxComplaints) in
  let score := score + complaintScore * QUALITY_WEIGHTS.COMPLAINT_COUNT in
  let stockScore := if Num.ltb 0 (Product.stock product) then 1 else 0 in
  let score := score + stockScore * QUALITY_WEIGHTS.STOCK_AVAILABILITY in
  Num.min 1 score.

Definition calculatePopularityScore (product : Product.t) : Q :=
  let maxUnitsSold := 100000 in
  let unitsScore := Num.min 1 (Product.unitsSold product / maxUnitsSold) in
  let score := unitsScore * POPULARITY_WEIGHTS.UNITS_SOLD in
  let discountScore := Num.min 1 (Product.discountPercentage product / 50) in
  let score := score + discountScore * POPULARITY_WEIGHTS.DISCOUNT_PERCENTAGE in
  let latestScore := if Product.isLatest product then 1 else 0 in
  let score := score + latestScore * POPULARITY_WEIGHTS.IS_LATEST in
  Num.min 1 score.

(** [if (intent.filterBy.key && product.metadata.key) {
       if (product.metadata.key.toLowerCase().includes(
             intent.filterBy.key.toLowerCase())) boost += 0.1; }] *)
Definition attributeBoost (product : Product.t) (key : string)
           (wanted : option string) : result Q :=
  match whenTruthy wanted, Product.meta product key with
  | Some w, Some v =>
      if JsValues.truthy v then
        lower <- JsValues.toLowerCase v ;;
        Ok (if Js.includes lower (Js.toLowerCase w) then 1 # 10 else 0)
      else Ok 0
  | _, _ => Ok 0
  end.

Definition sortByIs (pq : ProcessedQuery) (s : SortBy) : bool :=
  match sortBy (intent pq), s with
  | Some latest, latest => true
  | Some price_asc, price_asc => true
  | Some rating, rating => true
  | _, _ => false
  end.

Definition applySpecialBoosts (product : Product.t) (pq : ProcessedQuery)
  : result Q :=
  f <- filterByOf pq ;;
  let boost :=
    match priceRange f with
    | Some range =>
        match maxPrice range with
        | Some m =>
            let maxPrice := inject_Z m in
            if Js.truthy_Z m && Num.leb (Product.price product) maxPrice then
              let priceDiff := maxPrice - Product.price product in
              Num.min (2 # 10) (priceDiff / maxPrice * (2 # 10))
            else 0
        | None => 0
        end
    | None => 0
    end in
  let boost :=
    if Num.leb SEARCH_CONFIG.MIN_STOCK_FOR_BOOST (Product.stock product)
    then boost + (1 # 10) else boost in
  let boost :=
    if sortByIs pq latest && Product.isLatest product
    then boost + (15 # 100) else boost in
  colorBoost <- attributeBoost product "color" (color f) ;;
  modelBoost <- attributeBoost product "model" (model f) ;;
  Ok (boost + colorBoost + modelBoost).

Definition calculateRankingScore (product : Product.t) (query : string)
           (pq : ProcessedQuery) : result Q :=
  relevanceScore <- calculateRelevanceScore product query pq ;;
  let qualityScore := calculateQualityScore product in
  let popularityScore := calculatePopularityScore product in
  let finalScore :=
    relevanceScore * RANKING_WEIGHTS.RELEVANCE
    + qualityScore * RANKING_WEIGHTS.QUALITY
    + popularityScore * RANKING_WEIGHTS.POPULARITY in
  boost <- applySpecialBoosts product pq ;;
  let finalScore := finalScore + boost in
  Ok (Num.min 1 (Num.max 0 finalScore)).

(** An element of [productsWithScores]. *)
Definition Scored : Type := (Product.t * Q)%type.
Definition product (item : Scored) : Product.t := fst item.
Definition score (item : Scored) : Q := snd item.

Definition byScore (a b : Scored) : Q := score b - score a.

Definition tied (a b : Scored) : bool :=
  Num.ltb (Num.abs (score b - score a)) (1 # 100).

Definition byPrice (a b : Scored) : Q :=
  if tied a b
  then Product.price (product a) - Product.price (product b)
  else score b - score a.

Definition byLatest (a b : Scored) : Q :=
  if tied a b then
    if Product.isLatest (product b) && negb (Product.isLatest (product a))
    then 1
    else if Product.isLatest (product a) && negb (Product.isLatest (product b))
         then -1
         else inject_Z (Product.productId (product b)
                        - Product.productId (product a))
  else score b - score a.

Definition byRating (a b : Scored) : Q :=
  if tied a b
  then Product.rating (product b) - Product.rating (product a)
  else score b - score a.

Definition scoreProduct (query : string) (pq : ProcessedQuery)
           (p : Product.t) : result Scored :=
  s <- calculateRankingScore p query pq ;; Ok (p, s).

(** The chain [if (intent.sortBy === "price_asc") ... else if ...] of
    [rankProducts]: the second sort, when the intent asks for one. *)
Definition resort (pq : ProcessedQuery) (items : list Scored) : list Scored :=
  match sortBy (intent pq) with
  | Some price_asc => ArraySort.sort byPrice items
  | Some latest => ArraySort.sort byLatest items
  | Some rating => ArraySort.sort byRating items
  | None => items
  end.

Definition rankProducts (products : list Product.t) (query : string)
           (pq : ProcessedQuery) : result (list Product.t) :=
  productsWithScores <- mapM (scoreProduct query pq) products ;;
  let productsWithScores := ArraySort.sort byScore productsWithScores in
  let productsWithScores := resort pq productsWithScores in
  Ok (map product productsWithScores).

End RankingEngine.

(* ================================================================== *)
(** * [services/SearchService.js]                                     *)
(* ================================================================== *)

Module SearchService.

Import Constants.
Import QueryProcessor.

Definition categoryKeywords : list string :=
  [ "phone"; "mobile"; "laptop"; "headphone"; "charger"; "cover"; "case" ].

(** The first [allProducts.forEach] of [findMatchingProducts]. *)
Definition directMatch (queryLower : string) (keywords : list string)
           (p : Product.t) : bool :=
  let titleLower := Js.toLowerCase (Product.title p) in
  let descLower := Js.toLowerCase (Product.description p) in
  let searchTextLower := Js.toLowerCase (Product.searchText p) in
  if Js.includes titleLower queryLower || Js.includes descLower queryLower
  then true
  else match keywords with
       | [] => false
       | _ => forallb (fun keyword => Js.includes searchTextLower keyword) keywords
       end.

(** The fuzzy fallback's test of one product. *)
Definition hasFuzzyMatch (keywords : list string) (p : Product.t) : bool :=
  let productText := Js.toLowerCase (Product.searchText p) in
  existsb
    (fun keyword =>
       let productWords := Regex.split false Regex.spaces productText in
       existsb
         (fun word =>
            if (3 <? String.length word)%nat && (3 <? String.length keyword)%nat
            then (Leven.leven word keyword <=? SEARCH_CONFIG.FUZZY_THRESHOLD)%nat
            else false)
         productWords)
    keywords.

Definition addProducts (matches : list Z) (ps : list Product.t) : list Z :=
  JsSet.addAll matches (map Product.productId ps).

Definition findMatchingProducts (store : ProductService.t) (query : string)
           (pq : ProcessedQuery) : result (list Product.t) :=
  let queryLower := Js.trim (Js.toLowerCase query) in
  let correctedQuery := Js.toLowerCase (corrected pq) in
  let keywords :=
    filter ProductService.isKeyword
      (Regex.split false Regex.spaces correctedQuery) in
  let allProducts := ProductService.getAllProductsUnpaginated store in
  let matches :=
    addProducts [] (filter (directMatch queryLower keywords) allProducts) in
  let matches :=
    fold_left
      (fun acc keyword =>
         addProducts acc (ProductService.getProductsByKeyword store keyword))
      keywords matches in
  f <- RankingEngine.filterByOf pq ;;
  let matches :=
    match whenTruthy (brand f) with
    | Some b => addProducts matches (ProductService.getProductsByBrand store b)
    | None => matches
    end in
  let suggestedCategory :=
    find (fun cat => Js.includes queryLower cat) categoryKeywords in
  let matches :=
    match whenTruthy suggestedCategory with
    | Some _ =>
        addProducts matches (ProductService.getProductsByCategory store "mobile")
    | None => matches
    end in
  let matches :=
    if (length matches =? 0)%nat || (length matches <? 10)%nat
    then addProducts matches (filter (hasFuzzyMatch keywords) allProducts)
    else matches in
  Ok (ProductService.lookupAll store matches).

Definition priceOk (range : PriceRange) (p : Product.t) : bool :=
  let tooDear :=
    match maxPrice range with
    | Some m => Js.truthy_Z m && Num.ltb (inject_Z m) (Product.price p)
    | None => false
    end in
  let tooCheap :=
    match minPrice range with
    | Some m => Js.truthy_Z m && Num.ltb (Product.price p) (inject_Z m)
    | None => false
    end in
  if tooDear then false else if tooCheap then false else true.

Definition colorOk (wanted : string) (p : Product.t) : result bool :=
  productColor <- RankingEngine.metaLower p "color" ;;
  Ok (Js.includes productColor (Js.toLowerCase wanted)).

(** [(product.metadata.model || product.title || "").toLowerCase()] *)
Definition modelOk (wanted : string) (p : Product.t) : result bool :=
  productModel <-
    JsValues.toLowerCase
      (JsValues.or (Product.meta p "model")
         (JsValues.or (Some (JString (Product.title p))) (JString ""))) ;;
  Ok (Js.includes productModel (Js.toLowerCase wanted)).

Definition brandOk (wanted : string) (p : Product.t) : bool :=
  String.eqb (Js.toLowerCase (Product.brand p)) (Js.toLowerCase wanted).

Definition applyFilters (products : list Product.t) (pq : ProcessedQuery)
  : result (list Product.t) :=
  f <- RankingEngine.filterByOf pq ;;
  let filtered := products in
  let filtered :=
    match priceRange f with
    | Some range => filter (priceOk range) filtered
    | None => filtered
    end in
  filtered <-
    match whenTruthy (color f) with
    | Some c => filterM (colorOk c) filtered
    | None => Ok filtered
    end ;;
  filtered <-
    match whenTruthy (model f) with
    | Some m => filterM (modelOk m) filtered
    | None => Ok filtered
    end ;;
  let filtered :=
    match whenTruthy (brand f) with
    | Some b => filter (brandOk b) filtered
    | None => filtered
    end in
  Ok filtered.

(** [array.slice(0, end)] for an integer [end] *)
Definition slice0 {A : Type} (l : list A) (e : Z) : list A :=
  if (e <? 0)%Z
  then firstn (Z.to_nat (Z.max (Z.of_nat (length l) + e) 0)) l
  else firstn (Z.to_nat e) l.

(** [if (products.length === 0) { ... }] of [searchProducts]: when nothing
    matched, the words of the corrected query are looked up in the keyword
    index. *)
Definition orByText (store : ProductService.t) (pq : ProcessedQuery)
           (products : list Product.t) : list Product.t :=
  match products with
  | [] =>
      let words :=
        filter ProductService.isKeyword
          (Regex.split false Regex.spaces (corrected pq)) in
      match words with
      | [] => products
      | _ => ProductService.searchProductsByText store (Js.join " " words)
      end
  | _ => products
  end.

(** [searchProducts(query, limit = SEARCH_CONFIG.DEFAULT_RESULTS)]; a
    missing argument is [None]. *)
Definition searchProducts (store : ProductService.t) (query : option string)
           (limit : option Z) : result (list Product.t) :=
  let limit :=
    match limit with Some l => l | None => SEARCH_CONFIG.DEFAULT_RESULTS end in
  match query with
  | None => Ok []
  | Some query =>
      if negb (Js.truthy_string query)
         || (String.length (Js.trim query) =? 0)%nat
      then Ok []
      else
        let pq := processQuery query in
        products <- findMatchingProducts store query pq ;;
        let products := orByText store pq products in
        products <- applyFilters products pq ;;
        products <- RankingEngine.rankProducts products query pq ;;
        let maxResults := Z.min limit SEARCH_CONFIG.MAX_RESULTS in
        Ok (slice0 products maxResults)
  end.

(** [Set] of strings. *)
Definition addString (set : list string) (x : string) : list string :=
  if Js.mem x set then set else (set ++ [x])%list.

(** [word.startsWith(queryLower)] *)
Definition startsWith (word queryLower : string) : bool :=
  String.prefix queryLower word.

(** The loop [titleWords.forEach((word, index) => ...)] of
    [getSearchSuggestions]: [titleWords.slice(index, index + 3)] is the
    word and the two after it. *)
Fixpoint titleSuggestions (queryLower : string) (titleWords : list string)
         (suggestions : list string) : list string :=
  match titleWords with
  | [] => suggestions
  | word :: rest =>
      let suggestions :=
        if startsWith word queryLower
           && (String.length queryLower <? String.length word)%nat
        then
          let suggestion := Js.join " " (firstn 3 titleWords) in
          if (String.length queryLower <? String.length suggestion)%nat
          then addString suggestions suggestion
          else suggestions
        else suggestions in
      titleSuggestions queryLower rest suggestions
  end.

Definition suggestionBrands : list string :=
  [ "iphone"; "samsung"; "oneplus"; "xiaomi"; "redmi" ].

(** [getSearchSuggestions(query, limit = 10)] *)
Definition getSearchSuggestions (store : ProductService.t)
           (query : option string) (limit : option Z)
  : result (list string) :=
  let limit := match limit with Some l => l | None => 10%Z end in
  match query with
  | None => Ok []
  | Some query =>
      if negb (Js.truthy_string query) || (String.length query <? 2)%nat
      then Ok []
      else
        let queryLower := Js.toLowerCase query in
        products <- searchProducts store (Some query) (Some 50%Z) ;;
        let suggestions :=
          fold_left
            (fun acc product =>
               titleSuggestions queryLower
                 (Regex.split false Regex.spaces
                    (Js.toLowerCase (Product.title product)))
                 acc)
            products [] in
        let suggestions :=
          fold_left
            (fun acc brand =>
               if startsWith brand queryLower then addString acc brand else acc)
            suggestionBrands suggestions in
        Ok (slice0 suggestions limit)
  end.

End SearchService.

(* ================================================================== *)
(** * [utils/metadataExtractor.js]: the colour of a new product       *)
(* ================================================================== *)

Module MetadataExtractor.

Definition upper_char (c : ascii) : ascii :=
  if Js.in_range 97 122 c then ascii_of_N (Js.code c - 32) else c.

(** [w.charAt(0).toUpperCase() + w.slice(1)] *)
Definition capitalize (w : string) : string :=
  match w with
  | EmptyString => EmptyString
  | String c w' => String (upper_char c) w'
  end.

(** [String.prototype.split(" ")]: a literal one-character separator. *)
Fixpoint splitAt (sep : ascii) (piece : string) (s : string) : list string :=
  match s with
  | EmptyString => [piece]
  | String c s' =>
      if Ascii.eqb c sep then piece :: splitAt sep EmptyString s'
      else splitAt sep (piece ++ String c EmptyString) s'
  end.

Definition colors : list string :=
  [ "blue"; "red"; "green"; "yellow"; "black"; "white"; "silver"; "gold";
    "pink"; "purple"; "orange"; "grey"; "gray"; "brown"; "starlight";
    "cosmic orange"; "deep blue"; "sky blue"; "space black"; "space gray";
    "midnight"; "alpine green"; "sierra blue"; "graphite"; "pacific blue" ].

Definition extractColor (text : string) : option string :=
  let lowerText := Js.toLowerCase text in
  match find (fun color => Js.includes lowerText (Js.toLowerCase color)) colors with
  | Some color =>
      Some (Js.join " " (map capitalize (splitAt " " EmptyString color)))
  | None => None
  end.

End MetadataExtractor.

(* ================================================================== *)
(** * [controllers/SearchController.js]: the data of the filters reply *)
(* ================================================================== *)

Module SearchController.

(** [Math.min(...prices)] and [Math.max(...prices)] on a list that is not
    empty. *)
Definition minOf (first : Q) (others : list Q) : Q :=
  fold_left Num.min others first.

Definition maxOf (first : Q) (others : list Q) : Q :=
  fold_left Num.max others first.

(** The prices that [getSearchFilters] collects: [if (product.price)
    prices.push(product.price)]. *)
Definition prices (store : ProductService.t) : list Q :=
  map Product.price
    (filter (fun p => Num.truthy (Product.price p))
       (ProductService.getAllProductsUnpaginated store)).

(** The [priceRange] of the reply: [{ min, max }], both 0 without
    prices. *)
Definition priceRange (store : ProductService.t) : Q * Q :=
  match prices store with
  | [] => (0%Q, 0%Q)
  | first :: others => (minOf first others, maxOf first others)
  end.

(** The brands of the reply before they are sorted:
    [if (product.brand && product.brand !== "unknown") brands.add(...)]. *)
Definition brands (store : ProductService.t) : list string :=
  fold_left
    (fun acc p =>
       if Js.truthy_string (Product.brand p)
          && negb (String.eqb (Product.brand p) "unknown")
       then SearchService.addString acc (Product.brand p)
       else acc)
    (ProductService.getAllProductsUnpaginated store) [].

End SearchController.

(* ================================================================== *)
(** * Sample catalogs                                                 *)
(* ================================================================== *)

Module Samples.

Local Open Scope Q_scope.

(** The body of a creation request, the other fields left out. *)
Definition data (title description brand : string) (price rating : Q)
           (metadata : Product.Metadata) : Product.Data :=
  {| Product.d_productId := None;
     Product.d_title := Some title;
     Product.d_description := Some description;
     Product.d_brand := Some brand;
     Product.d_category := None;
     Product.d_price := Some price;
     Product.d_mrp := Some price;
     Product.d_rating := Some rating;
     Product.d_stock := Some 5;
     Product.d_metadata := Some metadata;
     Product.d_unitsSold := None;
     Product.d_returnRate := None;
     Product.d_reviewCount := None;
     Product.d_complaintCount := None;
     Product.d_discountPercentage := None;
     Product.d_isLatest := None |}.

Definition add (s : ProductService.t) (d : Product.Data) : ProductService.t :=
  fst (ProductService.addProduct s d).

(** One phone, as a creation request leaves it (the model is read off the
    title), whose colour is set to red and then changed to blue. *)
Definition onePhone : ProductService.t :=
  add ProductService.empty
    (data "Apple iPhone 16" "Flagship" "Apple" 79999 4.5
       [("model", JString "iPhone 16")]).

Definition redPhone : ProductService.t :=
  fst (ProductService.updateProductMetadata onePhone 1
         [("color", JString "Red")]).

Definition repainted : ProductService.t :=
  fst (ProductService.updateProductMetadata redPhone 1
         [("color", JString "Blue")]).

(** One cover, as a creation request leaves it (no brand, the colour read
    off the title), whose colour is then set to a number. *)
Definition cover : ProductService.t :=
  add ProductService.empty
    (data "Red Phone Cover" "Strong cover" "" 499 4.1
       [("color", JString "Red")]).

Definition numbered : ProductService.t :=
  fst (ProductService.updateProductMetadata cover 1 [("color", JNumber 5)]).

(** Four phones that differ in rating and price only. *)
Definition phone (price rating : Q) : Product.Data :=
  data "Apple iPhone 15" "Smart phone" "Apple" price rating [].

Definition phones : ProductService.t :=
  add (add (add (add ProductService.empty
                   (phone 30000 4.8)) (phone 40000 4.8))
         (phone 20000 4.4)) (phone 10000 4.0).

Definition phoneList : list Product.t :=
  ProductService.getAllProductsUnpaginated phones.

(** Two phones with the same rating, the dearer one first. *)
Definition twins : list Product.t :=
  ProductService.getAllProductsUnpaginated
    (add (add ProductService.empty (phone 30000 4.8)) (phone 20000 4.8)).

End Samples.

(* ================================================================== *)
(** * The specification's reading of the services                     *)
(* ================================================================== *)

(** Definitions that follow the words of the specification, to be compared
    with the code above. *)
Module Spec.

Import QueryProcessor.

(** A query made of whitespace only (the empty query included). *)
Fixpoint allSpaces (s : string) : bool :=
  match s with
  | EmptyString => true
  | String c s' => Js.is_space c && allSpaces s'
  end.

(** An empty, missing or whitespace-only query. *)
Definition blank (query : option string) : Prop :=
  match query with
  | None => True
  | Some s => allSpaces s = true
  end.

(** "edit distance ... at most 2 and greater than 0", the edit distance
    being the Levenshtein distance of the glossary. *)
Definition close (word term : string) : bool :=
  (0 <? Leven.distance word term)%nat && (Leven.distance word term <=? 2)%nat.

(** "the brand vocabulary checked before the product-term vocabulary" *)
Definition vocabulary : list string := (brands ++ productTerms)%list.

(** "every remaining word of length > 3 whose edit distance to some term
    ... is replaced by the first such matching term; every other word is
    left unchanged" *)
Definition correctWord (word : string) : string :=
  if (3 <? String.length word)%nat then
    match find (close word) vocabulary with
    | Some term => term
    | None => word
    end
  else word.

(** Spelling correction as the specification words it: the dictionary
    substitutions, then every word corrected on its own. *)
Definition correctSpelling (query : string) : string :=
  let substituted :=
    replaceWords Constants.SPELLING_CORRECTIONS (Js.toLowerCase query) in
  Js.join " " (map correctWord (Regex.split false Regex.spaces substituted)).

(** A metadata attribute that [toLowerCase] can be called on once the
    code has replaced a falsy value by the empty string: a string, a
    falsy value, or no value. *)
Definition plainAttribute (v : option JsValue) : bool :=
  match v with
  | Some (JString _) => true
  | Some v => negb (JsValues.truthy v)
  | None => true
  end.

(** A product whose [color] and [model] attributes are plain. *)
Definition plain (p : Product.t) : bool :=
  plainAttribute (Product.meta p "color")
  && plainAttribute (Product.meta p "model").

(** |a - b| < 0.01 *)
Definition near (a b : Q) : Prop := (Qabs (b - a) < 1 # 100)%Q.

(** The final score of a product for a query (0 when scoring throws). *)
Definition finalScore (query : string) (pq : ProcessedQuery) (p : Product.t)
  : Q :=
  match RankingEngine.calculateRankingScore p query pq with
  | Ok s => s
  | Throw _ => 0%Q
  end.

End Spec.

(* ================================================================== *)
(** * Invariants of the catalog                                       *)
(* ================================================================== *)

(** Statements about a catalog state that the operations of
    [ProductService] are checked against. *)
Module Invariant.

(** A [Map] built with [set] holds every key once; a [Set] holds every
    element once, and the indexes drop a bucket when it empties. *)
Definition indexOk (index : ProductService.Index) : Prop :=
  NoDup (map fst index)
  /\ forall key bucket, In (key, bucket) index -> bucket <> [] /\ NoDup bucket.

Record wellFormed (s : ProductService.t) : Prop := {
  keys_unique : NoDup (map fst (ProductService.products s));
  keyed :
    forall id p, In (id, p) (ProductService.products s) ->
                 Product.productId p = id;
  below_next :
    forall id p, In (id, p) (ProductService.products s) ->
                 (id < ProductService.nextProductId s)%Z;
  category_ok : indexOk (ProductService.categoryIndex s);
  brand_ok : indexOk (ProductService.brandIndex s);
  keyword_ok : indexOk (ProductService.keywordIndex s)
}.

(** [id] is filed under [key]. *)
Definition filed (index : ProductService.Index) (key : string) (id : Z)
  : Prop :=
  In id (ProductService.ids index key).

(** Nothing is missing from the indexes: every product of the catalog is
    filed under its category, its brand and each of its keywords. *)
Definition complete (s : ProductService.t) : Prop :=
  forall id p,
    ProductService.getProduct s id = Some p ->
    filed (ProductService.categoryIndex s)
          (Js.toLowerCase (Product.category p)) id
    /\ filed (ProductService.brandIndex s)
             (Js.toLowerCase (Product.brand p)) id
    /\ forall keyword,
         In keyword (Product.searchKeywords p) ->
         filed (ProductService.keywordIndex s) keyword id.

(** Nothing is stale in the category and brand indexes. *)
Definition soundAttributes (s : ProductService.t) : Prop :=
  forall key id,
    (filed (ProductService.categoryIndex s) key id ->
     exists p, ProductService.getProduct s id = Some p
               /\ key = Js.toLowerCase (Product.category p))
    /\ (filed (ProductService.brandIndex s) key id ->
        exists p, ProductService.getProduct s id = Some p
                  /\ key = Js.toLowerCase (Product.brand p)).

(** Nothing is stale in the keyword index. *)
Definition soundKeywords (s : ProductService.t) : Prop :=
  forall key id,
    filed (ProductService.keywordIndex s) key id ->
    exists p, ProductService.getProduct s id = Some p
              /\ In key (Product.searchKeywords p).

(** The indexes mirror the catalog. *)
Definition exact (s : ProductService.t) : Prop :=
  complete s /\ soundAttributes s /\ soundKeywords s.

(** Every character of the string passes the test. *)
Fixpoint allChars (test : ascii -> bool) (s : string) : bool :=
  match s with
  | EmptyString => true
  | String c s' => test c && allChars test s'
  end.

(** Lower-case letters, digits and the underscore. *)
Definition keywordChar (c : ascii) : bool :=
  Js.in_range 97 122 c || Js.is_digit c || (Js.code c =? 95)%N.

(** A call of one of the methods that change the catalog. *)
Inductive Call : Type :=
| Add (data : Product.Data)
| Update (productId : Z) (metadata : Product.Metadata)
| Delete (productId : Z)
| Clear.

Definition call (s : ProductService.t) (c : Call) : ProductService.t :=
  match c with
  | Add data => fst (ProductService.addProduct s data)
  | Update productId metadata =>
      fst (ProductService.updateProductMetadata s productId metadata)
  | Delete productId => fst (ProductService.deleteProduct s productId)
  | Clear => ProductService.clearAll s
  end.

(** The catalog after a series of calls on a new service. *)
Definition after (calls : list Call) : ProductService.t :=
  fold_left call calls ProductService.empty.

(** Calls that leave the choice of the identifier to the service. *)
Definition freshCall (c : Call) : bool :=
  match c with
  | Add data =>
      match ProductService.truthyId (Product.d_productId data) with
      | None => true
      | Some _ => false
      end
  | _ => true
  end.

(** Calls that leave the choice of the identifier to the service and do
    not update metadata. *)
Definition plainCall (c : Call) : bool :=
  match c with
  | Add data =>
      match ProductService.truthyId (Product.d_productId data) with
      | None => true
      | Some _ => false
      end
  | Update _ _ => false
  | Delete _ => true
  | Clear => true
  end.

End Invariant.

(** What the filters of a processed query ask of a product. *)
Module Criteria.

Import QueryProcessor.

(** A test that throws does not hold. *)
Definition holds (r : result bool) : bool :=
  match r with
  | Ok b => b
  | Throw _ => false
  end.

(** The product passes every filter that the query set. *)
Definition passes (f : FilterBy) (p : Product.t) : bool :=
  match priceRange f with
  | Some range => SearchService.priceOk range p
  | None => true
  end
  && match whenTruthy (color f) with
     | Some c => holds (SearchService.colorOk c p)
     | None => true
     end
  && match whenTruthy (model f) with
     | Some m => holds (SearchService.modelOk m p)
     | None => true
     end
  && match whenTruthy (brand f) with
     | Some b => SearchService.brandOk b p
     | None => true
     end.

End Criteria.

(** Series of calls that the statements below are tried on. *)
Module Cases.

Import Invariant.
Local Open Scope Q_scope.

Definition coverData : Product.Data :=
  Samples.data "Red Phone Cover" "Strong cover" "" 499 4.1
    [("color", JString "Red")].

(** Two phones and a cover are created, the first phone is deleted. *)
Definition shop : list Call :=
  [Add (Samples.phone 30000 4.8); Add (Samples.phone 40000 4.8);
   Add coverData; Delete 1%Z].

(** The same, and the cover is painted blue. *)
Definition restyled : list Call :=
  (shop ++ [Update 3%Z [("color", JString "Blue")]])%list.


(** The cover of [restyled], as the update leaves it. *)
Definition blueCover : Product.t :=
  let cover := Product.new 3%Z coverData in
  Product.updateSearchText
    (Product.with_metadata cover
       (ProductService.spread (Product.metadata cover)
          [("color", JString "Blue")])).

(** Two phones, the better rated one created last. *)
Definition rated : list Product.t :=
  ProductService.getAllProductsUnpaginated
    (Samples.add (Samples.add ProductService.empty (Samples.phone 20000 4.4))
       (Samples.phone 30000 4.8)).

End Cases.

(* ================================================================== *)
(** * The edit distance                                               *)
(* ================================================================== *)

Section EditDistance.

Lemma distance_empty_r (s : string) :
  Leven.distance s "" = String.length s.
Proof. destruct s; reflexivity. Qed.

Lemma lastRow_spec (t : string) :
  Leven.lastRow t = map (Leven.distance "") (Leven.suffixes t).
Proof.
  induction t as [|b t IH]; [reflexivity|].
  cbn [Leven.lastRow Leven.suffixes map]. rewrite IH. reflexivity.
Qed.

Lemma hd_map_distance (s t : string) :
  hd 0 (map (Leven.distance s) (Leven.suffixes t)) = Leven.distance s t.
Proof. destruct t; reflexivity. Qed.

Lemma fillRow_spec (a : ascii) (s t : string) :
  Leven.fillRow a t (map (Leven.distance s) (Leven.suffixes t))
  = map (Leven.distance (String a s)) (Leven.suffixes t).
Proof.
  induction t as [|b t IH].
  - cbn [Leven.suffixes map Leven.fillRow].
    rewrite distance_empty_r, Nat.add_1_r. reflexivity.
  - cbn [Leven.suffixes map Leven.fillRow]. cbv zeta.
    rewrite IH, !hd_map_distance. reflexivity.
Qed.

Lemma table_spec (s t : string) :
  Leven.table s t = map (Leven.distance s) (Leven.suffixes t).
Proof.
  induction s as [|a s IH]; cbn [Leven.table].
  - apply lastRow_spec.
  - rewrite IH. apply fillRow_spec.
Qed.

(** The table that [leven] fills computes the Levenshtein distance, as
    its defining recurrence gives it. *)
Lemma leven_distance (s t : string) :
  Leven.leven s t = Leven.distance s t.
Proof. unfold Leven.leven. rewrite table_spec. apply hd_map_distance. Qed.

Example leven_examples :
  Leven.leven "kitten" "sitting" = 3
  /\ Leven.leven "ifone" "iphone" = 2
  /\ Leven.leven "phone" "iphone" = 1
  /\ Leven.leven "nokia" "nokia" = 0
  /\ Leven.leven "" "vivo" = 4.
Proof. repeat split; vm_compute; reflexivity. Qed.

End EditDistance.

(* ================================================================== *)
(** * The matcher's bound on iterations                               *)
(* ================================================================== *)

Section Matcher.

Import Regex.

Lemma iterate_ext (step : pos -> (pos -> option pos) -> option pos) :
  (forall p k k', (forall x, k x = k' x) -> step p k = step p k') ->
  forall k k', (forall x, k x = k' x) ->
  forall fuel p, iterate step k fuel p = iterate step k' fuel p.
Proof.
  intros Hstep k k' H.
  induction fuel as [|fuel IH]; intros p; cbn [iterate]; [apply H|].
  rewrite H.
  rewrite (Hstep p _
             (fun p' =>
                if (String.length (snd p') <? String.length (snd p))%nat
                then iterate step k' fuel p' else None)); [reflexivity|].
  intros x. destruct (_ <? _)%nat; [apply IH|reflexivity].
Qed.

Lemma rmatch_ext (ci : bool) (r : regex) :
  forall p k k', (forall x, k x = k' x) -> rmatch ci r p k = rmatch ci r p k'.
Proof.
  induction r as [|c|r1 IH1 r2 IH2|r1 IH1 r2 IH2|r1 IH1| | |];
    intros p k k' H; cbn [rmatch].
  - apply H.
  - destruct (snd p) as [|x rest]; [reflexivity|].
    destruct (cmatch ci c x); [apply H|reflexivity].
  - apply IH1. intros x. apply IH2. exact H.
  - rewrite (IH1 p k k' H), (IH2 p k k' H). reflexivity.
  - apply iterate_ext; assumption.
  - destruct (fst p); [reflexivity|apply H].
  - destruct (snd p); [apply H|reflexivity].
  - destruct (xorb _ _); [apply H|reflexivity].
Qed.

Lemma iterate_fails (step : pos -> (pos -> option pos) -> option pos) :
  (forall p k, (forall x, k x = None) -> step p k = None) ->
  forall k, (forall x, k x = None) ->
  forall fuel p, iterate step k fuel p = None.
Proof.
  intros Hstep k H.
  induction fuel as [|fuel IH]; intros p; cbn [iterate]; [apply H|].
  rewrite Hstep; [apply H|].
  intros x. destruct (_ <? _)%nat; [apply IH|reflexivity].
Qed.

(** A match is only ever produced by the continuation. *)
Lemma rmatch_fails (ci : bool) (r : regex) :
  forall p k, (forall x, k x = None) -> rmatch ci r p k = None.
Proof.
  induction r as [|c|r1 IH1 r2 IH2|r1 IH1 r2 IH2|r1 IH1| | |];
    intros p k H; cbn [rmatch].
  - apply H.
  - destruct (snd p) as [|x rest]; [reflexivity|].
    destruct (cmatch ci c x); [apply H|reflexivity].
  - apply IH1. intros x. apply IH2. exact H.
  - rewrite (IH1 p k H), (IH2 p k H). reflexivity.
  - apply iterate_fails; assumption.
  - destruct (fst p); [reflexivity|apply H].
  - destruct (snd p); [apply H|reflexivity].
  - destruct (xorb _ _); [apply H|reflexivity].
Qed.

Lemma iterate_fuel (step : pos -> (pos -> option pos) -> option pos)
      (k : pos -> option pos) :
  (forall p k k', (forall x, k x = k' x) -> step p k = step p k') ->
  (forall p k, (forall x, k x = None) -> step p k = None) ->
  forall fuel1 fuel2 p,
    String.length (snd p) <= fuel1 ->
    String.length (snd p) <= fuel2 ->
    iterate step k fuel1 p = iterate step k fuel2 p.
Proof.
  intros Hext Hfail.
  assert (forall fuel p,
             String.length (snd p) = 0 ->
             iterate step k fuel p = k p) as Hend.
  { intros [|fuel] p Hp; cbn [iterate]; [reflexivity|].
    rewrite Hfail; [reflexivity|].
    intros x. rewrite Hp. reflexivity. }
  induction fuel1 as [|fuel1 IH]; intros fuel2 p H1 H2.
  - rewrite !Hend by lia. reflexivity.
  - destruct fuel2 as [|fuel2]; [rewrite !Hend by lia; reflexivity|].
    cbn [iterate].
    rewrite (Hext p _
               (fun p' =>
                  if (String.length (snd p') <? String.length (snd p))%nat
                  then iterate step k fuel2 p' else None)); [reflexivity|].
    intros x.
    destruct (String.length (snd x) <? String.length (snd p))%nat eqn:E;
      [|reflexivity].
    apply Nat.ltb_lt in E. apply IH; lia.
Qed.

(** The star never runs out of iterations: any bound that is at least
    the number of characters left gives the same match. *)
Lemma rmatch_star_fuel (ci : bool) (r : regex) (p : pos)
      (k : pos -> option pos) (fuel : nat) :
  String.length (snd p) <= fuel ->
  rmatch ci (Star r) p k = iterate (rmatch ci r) k fuel p.
Proof.
  intros H. cbn [rmatch].
  apply iterate_fuel; [apply rmatch_ext|apply rmatch_fails|lia|exact H].
Qed.

End Matcher.

(* ================================================================== *)
(** * Properties of the query processor                               *)
(* ================================================================== *)

(** Case analysis on the condition of the first conditional of the goal. *)
Ltac case_if :=
  match goal with |- context [if ?c then _ else _] => destruct c end.

Section PriceIntent.

Import QueryProcessor.

Lemma priceOfMatch_minPrice (range : PriceRange) (m : string) :
  minPrice (priceOfMatch range m) = minPrice range.
Proof.
  unfold priceOfMatch.
  destruct (Regex.exec false Regex.digits m) as [numberMatch|]; [|reflexivity].
  cbv zeta.
  case_if;
    reflexivity.
Qed.

Lemma matches_keep_minPrice (ms : list string) (range : PriceRange) :
  minPrice (fold_left priceOfMatch ms range) = minPrice range.
Proof.
  revert range.
  induction ms as [|m ms IH]; intros range; simpl; [reflexivity|].
  rewrite IH. apply priceOfMatch_minPrice.
Qed.

Lemma patterns_keep_minPrice (query : string) (ps : list Regex.regex)
      (range : PriceRange) :
  minPrice
    (fold_left
       (fun r pattern =>
          fold_left priceOfMatch (Regex.matchAll true pattern query) r)
       ps range)
  = minPrice range.
Proof.
  revert range.
  induction ps as [|p ps IH]; intros range; simpl; [reflexivity|].
  rewrite IH. apply matches_keep_minPrice.
Qed.

(** What [processQuery] hands on as the intent. *)
Lemma processQuery_intent (query : string) :
  intent (processQuery query)
  = {| sortBy := None; filterBy := None; searchTerms := [] |}
  \/ intent (processQuery query)
     = extractIntent
         (correctSpelling (translateHinglish (normalizeQuery query))).
Proof.
  unfold processQuery.
  destruct (negb (Js.truthy_string query)); [left|right]; reflexivity.
Qed.

Lemma extractIntent_priceRange (query : string) :
  exists f,
    filterBy (extractIntent query) = Some f
    /\ priceRange f
       = if truthyPrice (minPrice (extractPriceRange query))
            || truthyPrice (maxPrice (extractPriceRange query))
         then Some (extractPriceRange query) else None.
Proof. eexists. split; reflexivity. Qed.

(** C7. Price-intent extraction never sets a minimum price: on every
    query the [minPrice] of the extracted range is [null], and so is
    the [minPrice] of whatever range ends up in
    [intent.filterBy.priceRange]. *)
Theorem extractPriceRange_minPrice_null (query : string) :
  minPrice (extractPriceRange query) = None
  /\ match filterBy (intent (processQuery query)) with
     | Some f =>
         match priceRange f with
         | Some range => minPrice range = None
         | None => True
         end
     | None => True
     end.
Proof.
  split.
  - unfold extractPriceRange. apply patterns_keep_minPrice.
  - destruct (processQuery_intent query) as [-> | ->]; [exact I|].
    destruct (extractIntent_priceRange
                (correctSpelling (translateHinglish (normalizeQuery query))))
      as (f & -> & ->).
    case_if;
      [|exact I].
    unfold extractPriceRange. apply patterns_keep_minPrice.
Qed.

Lemma includes_lakh_k (s : string) :
  Js.includes s "lakh" = true -> Js.includes s "k" = true.
Proof.
  induction s as [|c s IH]; [discriminate|].
  cbn [Js.includes].
  destruct (String.prefix "lakh" (String c s)) eqn:E.
  - intros _. cbn [String.prefix] in E.
    destruct (Ascii.ascii_dec "l" c) as [<-|]; [|discriminate].
    destruct s as [|a s]; [discriminate|]. cbn [String.prefix] in E.
    destruct (Ascii.ascii_dec "a" a) as [<-|]; [|discriminate].
    destruct s as [|k s]; [discriminate|]. cbn [String.prefix] in E.
    destruct (Ascii.ascii_dec "k" k) as [<-|]; [|discriminate].
    destruct s; reflexivity.
  - intros H. rewrite (IH H).
    destruct (String.prefix "k" (String c s)); reflexivity.
Qed.

(** Every match tagged "lakh" takes the branch of the "k" multiplier. *)
Lemma priceOfMatch_lakh (range : PriceRange) (m number : string) :
  Regex.exec false Regex.digits m = Some number ->
  Js.includes (Js.toLowerCase m) "lakh" = true ->
  maxPrice (priceOfMatch range m) = Some (Js.parseInt number * 1000)%Z.
Proof.
  intros Hn Hl. unfold priceOfMatch. rewrite Hn. cbv zeta.
  rewrite (includes_lakh_k _ Hl). cbn [orb].
  case_if;
    reflexivity.
Qed.

(** C2 (the code departs from it). A number tagged "lakh" is multiplied
    by 1000, not by 100000: the test for the "k" multiplier looks for
    the letter k anywhere in the matched text and "lakh" contains it,
    so the branch that multiplies by 100000 is only reached by "lac". *)
Theorem extractPriceRange_lakh :
  extractPriceRange "5 lakh" = {| minPrice := None; maxPrice := Some 5000%Z |}
  /\ extractPriceRange "5 lac" = {| minPrice := None; maxPrice := Some 500000%Z |}
  /\ JsMap.get String.eqb Constants.PRICE_KEYWORDS "lakh" = Some 100000%Z.
Proof. repeat split; vm_compute; reflexivity. Qed.

(** The other tags behave as the specification says. *)
Example extractPriceRange_tags :
  maxPrice (extractPriceRange "iphone 50k rupees") = Some 50000%Z
  /\ maxPrice (extractPriceRange "tv 30 thousand") = Some 30000%Z
  /\ maxPrice (extractPriceRange "cover 500 rupees") = Some 500%Z
  /\ maxPrice (extractPriceRange "cover 500 rs") = Some 500%Z
  /\ maxPrice (extractPriceRange "phone under 20000") = Some 20000%Z.
Proof. repeat split; vm_compute; reflexivity. Qed.

End PriceIntent.

Section SpellingCorrection.

Import QueryProcessor.

Lemma closeTerm_find (word : string) (vocabulary : list string) :
  closeTerm word vocabulary
  = if (3 <? String.length word)%nat
    then find (Spec.close word) vocabulary
    else None.
Proof.
  induction vocabulary as [|term rest IH]; simpl.
  - destruct (3 <? String.length word)%nat; reflexivity.
  - rewrite IH. unfold Spec.close. rewrite leven_distance.
    destruct (3 <? String.length word)%nat;
      destruct (Leven.distance word term <=? 2)%nat;
      destruct (0 <? Leven.distance word term)%nat; reflexivity.
Qed.

Lemma find_app {A : Type} (f : A -> bool) (l1 l2 : list A) :
  find f (l1 ++ l2)%list
  = match find f l1 with Some x => Some x | None => find f l2 end.
Proof.
  induction l1 as [|x l1 IH]; simpl; [reflexivity|].
  destruct (f x); [reflexivity|exact IH].
Qed.

Lemma correctWord_spec (word : string) :
  correctWord word = Spec.correctWord word.
Proof.
  unfold correctWord, Spec.correctWord, Spec.vocabulary.
  rewrite !closeTerm_find, find_app.
  destruct (3 <? String.length word)%nat; [|reflexivity].
  destruct (find (Spec.close word) brands); reflexivity.
Qed.

(** C6. After the dictionary substitutions, spelling correction replaces
    every word longer than three characters that is at edit distance 1
    or 2 of a vocabulary term by the first such term, brands before
    product terms, and leaves every other word as it is. *)
Theorem correctSpelling_spec (query : string) :
  correctSpelling query = Spec.correctSpelling query.
Proof.
  unfold correctSpelling, Spec.correctSpelling.
  f_equal. apply map_ext. exact correctWord_spec.
Qed.

Example correctSpelling_examples :
  correctSpelling "ifone 16" = "phone 16"
  /\ correctSpelling "samsng galaxy" = "samsung galaxy"
  /\ correctSpelling "phone cover" = "iphone cover"
  /\ correctSpelling "tv" = "tv".
Proof. repeat split; vm_compute; reflexivity. Qed.

End SpellingCorrection.

(* ================================================================== *)
(** * Where the pipeline can throw                                    *)
(* ================================================================== *)

Section Throwing.

Import QueryProcessor.

Lemma bind_Ok {A B : Type} (c : result A) (k : A -> result B) (b : B) :
  bind c k = Ok b -> exists a, c = Ok a /\ k a = Ok b.
Proof. destruct c as [a|e]; simpl; [eauto|discriminate]. Qed.

Lemma mapM_total {A B : Type} (f : A -> result B) (l : list A) :
  (forall x, In x l -> exists y, f x = Ok y) ->
  exists ys, mapM f l = Ok ys.
Proof.
  induction l as [|x l IH]; intros H; simpl; [eauto|].
  destruct (H x (or_introl eq_refl)) as [y ->].
  destruct IH as [ys ->]; [intros; apply H; right; assumption|].
  simpl. eauto.
Qed.

Lemma filterM_total {A : Type} (f : A -> result bool) (l : list A) :
  (forall x, In x l -> exists b, f x = Ok b) ->
  exists kept, filterM f l = Ok kept.
Proof.
  induction l as [|x l IH]; intros H; simpl; [eauto|].
  destruct (H x (or_introl eq_refl)) as [b ->].
  destruct IH as [kept ->]; [intros; apply H; right; assumption|].
  simpl. eauto.
Qed.

Lemma filterM_incl {A : Type} (f : A -> result bool) (l kept : list A) :
  filterM f l = Ok kept -> incl kept l.
Proof.
  revert kept.
  induction l as [|x l IH]; intros kept H; simpl in H.
  - injection H as <-. apply incl_refl.
  - apply bind_Ok in H. destruct H as (b & _ & H).
    apply bind_Ok in H. destruct H as (rest & Hrest & H).
    injection H as <-. specialize (IH rest Hrest).
    destruct b.
    + intros y [<-|Hy]; [left; reflexivity|right; apply IH; assumption].
    + intros y Hy. right. apply IH. assumption.
Qed.

Lemma plain_color (p : Product.t) :
  Spec.plain p = true -> Spec.plainAttribute (Product.meta p "color") = true.
Proof. unfold Spec.plain. intros H. apply andb_prop in H. tauto. Qed.

Lemma plain_model (p : Product.t) :
  Spec.plain p = true -> Spec.plainAttribute (Product.meta p "model") = true.
Proof. unfold Spec.plain. intros H. apply andb_prop in H. tauto. Qed.

Lemma plain_or_lower (v : option JsValue) (s : string) :
  Spec.plainAttribute v = true ->
  exists t, JsValues.toLowerCase (JsValues.or v (JString s)) = Ok t.
Proof.
  destruct v as [[t|n|b|]|]; simpl; intros H;
    try solve [eexists; reflexivity].
  - destruct (Js.truthy_string t); simpl; eauto.
  - rewrite (negb_true_iff _) in H. rewrite H. simpl. eauto.
  - rewrite (negb_true_iff _) in H. subst b. simpl. eauto.
Qed.

Lemma metaLower_total (p : Product.t) (key : string) :
  Spec.plainAttribute (Product.meta p key) = true ->
  exists s, RankingEngine.metaLower p key = Ok s.
Proof. apply plain_or_lower. Qed.

Lemma attributeBonus_total (p : Product.t) (key : string)
      (wanted : option string) (bonus : Q) :
  Spec.plainAttribute (Product.meta p key) = true ->
  exists b, RankingEngine.attributeBonus p key wanted bonus = Ok b.
Proof.
  intros H. unfold RankingEngine.attributeBonus.
  destruct (whenTruthy wanted) as [w|]; [|eauto].
  destruct (metaLower_total p key H) as [lower ->]. simpl. eauto.
Qed.

Lemma attributeBoost_total (p : Product.t) (key : string)
      (wanted : option string) :
  Spec.plainAttribute (Product.meta p key) = true ->
  exists b, RankingEngine.attributeBoost p key wanted = Ok b.
Proof.
  intros H. unfold RankingEngine.attributeBoost.
  destruct (whenTruthy wanted) as [w|]; [|eauto].
  destruct (Product.meta p key) as [v|]; [|eauto].
  destruct (JsValues.truthy v) eqn:Hv; [|eauto].
  destruct v; simpl in *; try discriminate;
    try (rewrite Hv in H; discriminate); eauto.
Qed.

Lemma calculateRankingScore_total (p : Product.t) (query : string)
      (pq : ProcessedQuery) (f : FilterBy) :
  filterBy (intent pq) = Some f ->
  Spec.plain p = true ->
  exists s, RankingEngine.calculateRankingScore p query pq = Ok s.
Proof.
  intros Hf Hp.
  unfold RankingEngine.calculateRankingScore,
    RankingEngine.calculateRelevanceScore, RankingEngine.applySpecialBoosts,
    RankingEngine.filterByOf.
  rewrite Hf. cbv zeta. cbn [bind].
  destruct (attributeBonus_total p "model" (model f)
              Constants.RELEVANCE_WEIGHTS.MODEL_MATCH_BONUS (plain_model p Hp))
    as [b1 ->].
  destruct (attributeBonus_total p "color" (color f)
              Constants.RELEVANCE_WEIGHTS.MODEL_MATCH_BONUS (plain_color p Hp))
    as [b2 ->].
  cbn [bind].
  destruct (attributeBoost_total p "color" (color f) (plain_color p Hp))
    as [b3 ->].
  destruct (attributeBoost_total p "model" (model f) (plain_model p Hp))
    as [b4 ->].
  cbn [bind]. eauto.
Qed.

Lemma rankProducts_total (products : list Product.t) (query : string)
      (pq : ProcessedQuery) (f : FilterBy) :
  filterBy (intent pq) = Some f ->
  (forall p, In p products -> Spec.plain p = true) ->
  exists ranked, RankingEngine.rankProducts products query pq = Ok ranked.
Proof.
  intros Hf Hp. unfold RankingEngine.rankProducts.
  destruct (mapM_total (RankingEngine.scoreProduct query pq) products)
    as [items ->].
  - intros p Hin. unfold RankingEngine.scoreProduct.
    destruct (calculateRankingScore_total p query pq Hf (Hp p Hin)) as [s ->].
    simpl. eauto.
  - cbn [bind]. eauto.
Qed.

Lemma modelOk_total (wanted : string) (p : Product.t) :
  Spec.plain p = true -> exists b, SearchService.modelOk wanted p = Ok b.
Proof.
  intros Hp. unfold SearchService.modelOk.
  pose proof (plain_model p Hp) as H.
  destruct (Product.meta p "model") as [[t|n|b|]|]; simpl in *.
  - destruct (Js.truthy_string t); simpl; [eauto|].
    destruct (Js.truthy_string (Product.title p)); simpl; eauto.
  - rewrite (negb_true_iff _) in H. rewrite H. simpl.
    destruct (Js.truthy_string (Product.title p)); simpl; eauto.
  - rewrite (negb_true_iff _) in H. subst b. simpl.
    destruct (Js.truthy_string (Product.title p)); simpl; eauto.
  - destruct (Js.truthy_string (Product.title p)); simpl; eauto.
  - destruct (Js.truthy_string (Product.title p)); simpl; eauto.
Qed.

Lemma colorOk_total (wanted : string) (p : Product.t) :
  Spec.plain p = true -> exists b, SearchService.colorOk wanted p = Ok b.
Proof.
  intros Hp. unfold SearchService.colorOk.
  destruct (metaLower_total p "color" (plain_color p Hp)) as [s ->].
  simpl. eauto.
Qed.

(** What [applyFilters] keeps went through the price test and was among
    the candidates. *)
Lemma applyFilters_kept (products kept : list Product.t)
      (pq : ProcessedQuery) :
  SearchService.applyFilters products pq = Ok kept ->
  exists f,
    filterBy (intent pq) = Some f
    /\ incl kept
         match priceRange f with
         | Some range => filter (SearchService.priceOk range) products
         | None => products
         end.
Proof.
  unfold SearchService.applyFilters, RankingEngine.filterByOf.
  destruct (filterBy (intent pq)) as [f|]; [|discriminate].
  cbn [bind]. cbv zeta. intros H. exists f. split; [reflexivity|].
  apply bind_Ok in H. destruct H as (l1 & H1 & H).
  apply bind_Ok in H. destruct H as (l2 & H2 & H).
  injection H as <-.
  assert (incl l2 l1) as I2.
  { destruct (whenTruthy (model f)); [eapply filterM_incl; eassumption|].
    injection H2 as <-. apply incl_refl. }
  assert (incl l1
            match priceRange f with
            | Some range => filter (SearchService.priceOk range) products
            | None => products
            end) as I1.
  { destruct (whenTruthy (color f)); [eapply filterM_incl; eassumption|].
    injection H1 as <-. apply incl_refl. }
  assert (incl match whenTruthy (brand f) with
               | Some b => filter (SearchService.brandOk b) l2
               | None => l2
               end l2) as I3.
  { destruct (whenTruthy (brand f)); [apply incl_filter|apply incl_refl]. }
  eapply incl_tran; [exact I3|]. eapply incl_tran; eassumption.
Qed.

Lemma applyFilters_incl (products kept : list Product.t)
      (pq : ProcessedQuery) :
  SearchService.applyFilters products pq = Ok kept -> incl kept products.
Proof.
  intros H. destruct (applyFilters_kept _ _ H) as (f & _ & I).
  eapply incl_tran; [exact I|].
  destruct (priceRange f); [apply incl_filter|apply incl_refl].
Qed.

Lemma applyFilters_total (products : list Product.t) (pq : ProcessedQuery)
      (f : FilterBy) :
  filterBy (intent pq) = Some f ->
  (forall p, In p products -> Spec.plain p = true) ->
  exists kept, SearchService.applyFilters products pq = Ok kept.
Proof.
  intros Hf Hp. unfold SearchService.applyFilters, RankingEngine.filterByOf.
  rewrite Hf. cbn [bind]. cbv zeta.
  set (l0 := match priceRange f with
             | Some range => filter (SearchService.priceOk range) products
             | None => products
             end).
  assert (forall p, In p l0 -> Spec.plain p = true) as H0.
  { intros p Hin. apply Hp. subst l0.
    destruct (priceRange f); [apply filter_In in Hin; tauto|assumption]. }
  assert (exists l1,
             match whenTruthy (color f) with
             | Some c => filterM (SearchService.colorOk c) l0
             | None => Ok l0
             end = Ok l1 /\ incl l1 l0) as (l1 & E1 & I1).
  { destruct (whenTruthy (color f)) as [c|].
    - destruct (filterM_total (SearchService.colorOk c) l0) as [l1 E].
      + intros p Hin. apply colorOk_total. apply H0. assumption.
      + exists l1. split; [assumption|]. eapply filterM_incl; eassumption.
    - exists l0. split; [reflexivity|apply incl_refl]. }
  rewrite E1. cbn [bind].
  assert (exists l2,
             match whenTruthy (model f) with
             | Some m => filterM (SearchService.modelOk m) l1
             | None => Ok l1
             end = Ok l2) as (l2 & E2).
  { destruct (whenTruthy (model f)) as [m|]; [|eauto].
    apply filterM_total. intros p Hin. apply modelOk_total.
    apply H0. apply I1. assumption. }
  rewrite E2. cbn [bind]. eauto.
Qed.

End Throwing.

(* ================================================================== *)
(** * The sort returns a permutation                                  *)
(* ================================================================== *)

Section SortPermutes.

Variable A : Type.
Variable compare : A -> A -> Q.

Lemma extendRun_app (descending : bool) (previous : A) (rest run tail : list A) :
  ArraySort.extendRun compare descending previous rest = (run, tail) ->
  rest = (run ++ tail)%list.
Proof.
  revert previous run tail.
  induction rest as [|current rest IH]; intros previous run tail H; simpl in H.
  - injection H as <- <-. reflexivity.
  - destruct (Bool.eqb (ArraySort.before compare current previous) descending).
    + destruct (ArraySort.extendRun compare descending current rest)
        as [run' tail'] eqn:E.
      injection H as <- <-. simpl. f_equal. apply (IH current). exact E.
    + injection H as <- <-. reflexivity.
Qed.

Lemma countAndMakeRun_perm (l run tail : list A) :
  ArraySort.countAndMakeRun compare l = (run, tail) ->
  Permutation l (run ++ tail).
Proof.
  unfold ArraySort.countAndMakeRun.
  destruct l as [|high [|low rest]]; intros H.
  - injection H as <- <-. constructor.
  - injection H as <- <-. apply Permutation_refl.
  - destruct (ArraySort.extendRun compare (ArraySort.before compare low high)
                low rest) as [run' tail'] eqn:E.
    apply extendRun_app in E. subst rest.
    injection H as <- <-.
    destruct (ArraySort.before compare low high).
    + apply Permutation_app_tail with (tl := tail')
        (l := (high :: low :: run')) (l' := rev (high :: low :: run')).
      apply Permutation_rev.
    + apply Permutation_refl.
Qed.

Lemma insert_perm (work : list A) (pivot : A) :
  Permutation (ArraySort.insert compare work pivot) (pivot :: work).
Proof.
  unfold ArraySort.insert.
  set (left := ArraySort.search compare (length work) pivot work 0 (length work)).
  apply Permutation_sym.
  rewrite <- (firstn_skipn left work) at 1.
  apply Permutation_middle.
Qed.

Lemma inserts_perm (rest run : list A) :
  Permutation (fold_left (ArraySort.insert compare) rest run) (run ++ rest).
Proof.
  revert run.
  induction rest as [|pivot rest IH]; intros run; simpl.
  - rewrite app_nil_r. apply Permutation_refl.
  - eapply Permutation_trans; [apply IH|].
    eapply Permutation_trans;
      [apply Permutation_app_tail; apply insert_perm|].
    simpl. apply Permutation_middle.
Qed.

Lemma sort_perm (l : list A) : Permutation (ArraySort.sort compare l) l.
Proof.
  unfold ArraySort.sort.
  destruct (ArraySort.countAndMakeRun compare l) as [run rest] eqn:E.
  eapply Permutation_trans; [apply inserts_perm|].
  apply Permutation_sym. apply countAndMakeRun_perm. exact E.
Qed.

End SortPermutes.

(* ================================================================== *)
(** * Ranking                                                         *)
(* ================================================================== *)

Section Ranking.

Import QueryProcessor.

Lemma mapM_scoreProduct (query : string) (pq : ProcessedQuery)
      (products : list Product.t) (items : list RankingEngine.Scored) :
  mapM (RankingEngine.scoreProduct query pq) products = Ok items ->
  map RankingEngine.product items = products
  /\ Forall
       (fun item =>
          RankingEngine.calculateRankingScore (RankingEngine.product item)
            query pq = Ok (RankingEngine.score item))
       items.
Proof.
  revert items.
  induction products as [|p products IH]; intros items H; simpl in H.
  - injection H as <-. split; constructor.
  - apply bind_Ok in H. destruct H as (item & Hitem & H).
    apply bind_Ok in H. destruct H as (rest & Hrest & H).
    injection H as <-.
    unfold RankingEngine.scoreProduct in Hitem.
    apply bind_Ok in Hitem. destruct Hitem as (s & Hs & Hitem).
    injection Hitem as <-.
    destruct (IH rest Hrest) as [IH1 IH2].
    split; simpl; [f_equal; exact IH1|].
    constructor; [exact Hs|exact IH2].
Qed.

Lemma resort_perm (pq : ProcessedQuery) (items : list RankingEngine.Scored) :
  Permutation (RankingEngine.resort pq items) items.
Proof.
  unfold RankingEngine.resort.
  destruct (sortBy (intent pq)) as [[| |]|];
    try apply sort_perm; apply Permutation_refl.
Qed.

Lemma rankProducts_Ok (products ranked : list Product.t) (query : string)
      (pq : ProcessedQuery) :
  RankingEngine.rankProducts products query pq = Ok ranked ->
  exists items,
    mapM (RankingEngine.scoreProduct query pq) products = Ok items
    /\ ranked
       = map RankingEngine.product
           (RankingEngine.resort pq
              (ArraySort.sort RankingEngine.byScore items)).
Proof.
  unfold RankingEngine.rankProducts. intros H.
  apply bind_Ok in H. destruct H as (items & Hitems & H).
  exists items. split; [exact Hitems|].
  injection H as <-. reflexivity.
Qed.

Lemma not_all_plain (products : list Product.t) :
  forallb Spec.plain products = false ->
  exists p, In p products /\ Spec.plain p = false.
Proof.
  induction products as [|p products IH]; simpl; [discriminate|].
  destruct (Spec.plain p) eqn:E; simpl.
  - intros H. destruct (IH H) as (b & Hin & Hb). eauto.
  - intros _. eauto.
Qed.

Lemma rankProducts_returns_perm (products ranked : list Product.t)
      (query : string) (pq : ProcessedQuery) :
  RankingEngine.rankProducts products query pq = Ok ranked ->
  Permutation products ranked.
Proof.
  intros E.
  apply rankProducts_Ok in E. destruct E as (items & Hitems & ->).
  apply mapM_scoreProduct in Hitems. destruct Hitems as [<- _].
  apply Permutation_map. apply Permutation_sym.
  eapply Permutation_trans; [apply resort_perm|apply sort_perm].
Qed.

Lemma rankProducts_throws (products : list Product.t) (query : string)
      (pq : ProcessedQuery) (e : exn) :
  RankingEngine.rankProducts products query pq = Throw e ->
  filterBy (intent pq) = None
  \/ exists p, In p products /\ Spec.plain p = false.
Proof.
  intros E.
  destruct (filterBy (intent pq)) as [f|] eqn:Hf; [right|left; reflexivity].
  destruct (forallb Spec.plain products) eqn:Hp.
  - destruct (rankProducts_total products query pq Hf) as [ranked Hr].
    + intros p Hin. rewrite forallb_forall in Hp. apply Hp. exact Hin.
    + rewrite Hr in E. discriminate.
  - apply not_all_plain. exact Hp.
Qed.

(** C10. The ranking stage only reorders its candidates: whenever it
    returns, the result is a permutation of the candidate list; and it
    returns unless the processed query has no filters object or some
    candidate carries a [color] or [model] that is a truthy non-string,
    on which [toLowerCase] throws. *)
Theorem rankProducts_permutation (products : list Product.t) (query : string)
        (pq : ProcessedQuery) :
  match RankingEngine.rankProducts products query pq with
  | Ok ranked => Permutation products ranked
  | Throw _ =>
      filterBy (intent pq) = None
      \/ exists p, In p products /\ Spec.plain p = false
  end.
Proof.
  destruct (RankingEngine.rankProducts products query pq) as [ranked|e] eqn:E.
  - eapply rankProducts_returns_perm. exact E.
  - eapply rankProducts_throws. exact E.
Qed.

End Ranking.

(* ================================================================== *)
(** * The search pipeline                                             *)
(* ================================================================== *)

Section Search.

Import QueryProcessor.

Lemma get_In {K V : Type} (eqb : K -> K -> bool) (m : list (K * V))
      (k : K) (v : V) :
  JsMap.get eqb m k = Some v -> In v (JsMap.values m).
Proof.
  induction m as [|[k' v'] m IH]; simpl; [discriminate|].
  destruct (eqb k k').
  - intros H. injection H as <-. left. reflexivity.
  - intros H. right. apply IH. exact H.
Qed.

Lemma lookupAll_incl (store : ProductService.t) (l : list Z) :
  incl (ProductService.lookupAll store l)
       (ProductService.getAllProductsUnpaginated store).
Proof.
  induction l as [|id l IH]; simpl; [intros p []|].
  destruct (ProductService.getProduct store id) as [p|] eqn:E; [|exact IH].
  intros q [<-|Hq]; [|apply IH; exact Hq].
  unfold ProductService.getProduct in E. eapply get_In. exact E.
Qed.

Lemma searchProductsByText_incl (store : ProductService.t) (text : string) :
  incl (ProductService.searchProductsByText store text)
       (ProductService.getAllProductsUnpaginated store).
Proof.
  unfold ProductService.searchProductsByText.
  destruct (map (ProductService.getProductsByKeyword store) _).
  - intros p [].
  - apply lookupAll_incl.
Qed.

Lemma findMatchingProducts_Ok (store : ProductService.t) (query : string)
      (pq : ProcessedQuery) (f : FilterBy) :
  filterBy (intent pq) = Some f ->
  exists ps,
    SearchService.findMatchingProducts store query pq = Ok ps
    /\ incl ps (ProductService.getAllProductsUnpaginated store).
Proof.
  intros Hf.
  unfold SearchService.findMatchingProducts, RankingEngine.filterByOf.
  rewrite Hf. cbn [bind]. eexists. split; [reflexivity|].
  apply lookupAll_incl.
Qed.

Lemma processQuery_filterBy (query : string) :
  Js.truthy_string query = true ->
  exists f, filterBy (intent (processQuery query)) = Some f.
Proof.
  intros H. unfold processQuery. rewrite H. simpl negb. cbv iota.
  eexists. reflexivity.
Qed.

Lemma slice0_nil {A : Type} (e : Z) : SearchService.slice0 (@nil A) e = [].
Proof. unfold SearchService.slice0. destruct (e <? 0)%Z; apply firstn_nil. Qed.

Lemma slice0_length {A : Type} (l : list A) (e : Z) :
  (0 <= e)%Z -> (Z.of_nat (length (SearchService.slice0 l e)) <= e)%Z.
Proof.
  intros H. unfold SearchService.slice0.
  destruct (e <? 0)%Z eqn:E; [apply Z.ltb_lt in E; lia|].
  pose proof (firstn_le_length (Z.to_nat e) l). lia.
Qed.

Lemma orByText_incl (store : ProductService.t) (pq : ProcessedQuery)
      (ps : list Product.t) :
  incl ps (ProductService.getAllProductsUnpaginated store) ->
  incl (SearchService.orByText store pq ps)
       (ProductService.getAllProductsUnpaginated store).
Proof.
  intros H. unfold SearchService.orByText. destruct ps; [|exact H].
  cbv zeta. destruct (filter _ _); [exact H|apply searchProductsByText_incl].
Qed.

(** What a search does: it returns a prefix (or, for a negative limit, all
    but a suffix) of a ranking of catalog products, unless some catalog
    product has a [color] or [model] that is not plain. *)
Lemma searchProducts_run (store : ProductService.t) (query : option string)
      (limit : option Z) :
  match SearchService.searchProducts store query limit with
  | Ok found =>
      exists ranked,
        found
        = SearchService.slice0 ranked
            (Z.min
               match limit with
               | Some l => l
               | None => Constants.SEARCH_CONFIG.DEFAULT_RESULTS
               end
               Constants.SEARCH_CONFIG.MAX_RESULTS)
        /\ incl ranked (ProductService.getAllProductsUnpaginated store)
  | Throw _ =>
      exists p,
        In p (ProductService.getAllProductsUnpaginated store)
        /\ Spec.plain p = false
  end.
Proof.
  unfold SearchService.searchProducts.
  destruct query as [query|];
    [|exists []; split; [symmetry; apply slice0_nil|intros p []]].
  destruct (Js.truthy_string query) eqn:Hq; cbn [negb orb];
    [|exists []; split; [symmetry; apply slice0_nil|intros p []]].
  destruct (String.length (Js.trim query) =? 0)%nat;
    [exists []; split; [symmetry; apply slice0_nil|intros p []]|].
  destruct (processQuery_filterBy query Hq) as [f Hf].
  destruct (findMatchingProducts_Ok store query (processQuery query) Hf)
    as (ps & -> & Hps).
  cbn [bind]. cbv zeta.
  pose proof (orByText_incl store (processQuery query) Hps) as Hc.
  set (cands := SearchService.orByText store (processQuery query) ps) in *.
  destruct (SearchService.applyFilters cands (processQuery query))
    as [kept|e] eqn:Ek; cbn [bind].
  - pose proof (applyFilters_incl _ _ Ek) as Hk.
    destruct (RankingEngine.rankProducts kept query (processQuery query))
      as [ranked|e] eqn:Er; cbn [bind].
    + exists ranked. split; [reflexivity|].
      intros p Hp. apply Hc, Hk.
      eapply Permutation_in; [apply Permutation_sym|exact Hp].
      eapply rankProducts_returns_perm. exact Er.
    + apply rankProducts_throws in Er.
      destruct Er as [Er|(p & Hp & Hbad)]; [congruence|].
      exists p. split; [apply Hc, Hk, Hp|exact Hbad].
  - destruct (forallb Spec.plain cands) eqn:Hp.
    + destruct (applyFilters_total cands (processQuery query) Hf) as [kept Hk].
      * intros p Hin. rewrite forallb_forall in Hp. apply Hp. exact Hin.
      * rewrite Hk in Ek. discriminate.
    + destruct (not_all_plain _ Hp) as (p & Hin & Hbad).
      exists p. split; [apply Hc, Hin|exact Hbad].
Qed.

(** On a catalog whose [color] and [model] attributes are all plain, a
    search returns. *)
Lemma searchProducts_returns (store : ProductService.t)
      (query : option string) (limit : option Z) :
  (forall p, In p (ProductService.getAllProductsUnpaginated store) ->
             Spec.plain p = true) ->
  exists found, SearchService.searchProducts store query limit = Ok found.
Proof.
  intros Hplain.
  pose proof (searchProducts_run store query limit) as H.
  destruct (SearchService.searchProducts store query limit) as [found|e];
    [eauto|].
  destruct H as (p & Hin & Hbad). rewrite (Hplain p Hin) in Hbad. discriminate.
Qed.

Lemma searchProducts_returns_witness :
  (forall p, In p (ProductService.getAllProductsUnpaginated Samples.phones) ->
             Spec.plain p = true)
  /\ exists found,
       SearchService.searchProducts Samples.phones (Some "cheap phone") None
       = Ok found.
Proof.
  assert (forall p,
             In p (ProductService.getAllProductsUnpaginated Samples.phones) ->
             Spec.plain p = true) as H.
  { intros p [<-|[<-|[<-|[<-|[]]]]]; reflexivity. }
  split; [exact H|].
  exact (@searchProducts_returns Samples.phones (Some "cheap phone") None H).
Defined.

Lemma trimStart_blank (s : string) :
  Spec.allSpaces s = true -> Js.trimStart s = "".
Proof.
  induction s as [|c s IH]; simpl; [reflexivity|].
  intros H. apply andb_prop in H. destruct H as [Hc Hs].
  rewrite Hc. apply IH. exact Hs.
Qed.

(** C8. An empty, missing or whitespace-only query gives the empty result
    list, and no exception. *)
Theorem searchProducts_blank (store : ProductService.t)
        (query : option string) (limit : option Z) :
  Spec.blank query ->
  SearchService.searchProducts store query limit = Ok [].
Proof.
  intros H. unfold SearchService.searchProducts.
  destruct query as [query|]; [|reflexivity].
  simpl in H. unfold Js.trim. rewrite (trimStart_blank query H).
  simpl. rewrite orb_true_r. reflexivity.
Qed.

Lemma searchProducts_blank_witness :
  Spec.blank (Some "   ")
  /\ SearchService.searchProducts Samples.phones (Some "   ") (Some 10%Z)
     = Ok [].
Proof.
  split; [reflexivity|].
  apply (searchProducts_blank Samples.phones (Some "   ") (Some 10%Z)).
  reflexivity.
Defined.

(** C4, as the code has it. For a limit that is not negative, a search
    returns at most min(limit, 100) products; it returns unless a catalog
    product has a [color] or [model] that is a truthy non-string. *)
Theorem searchProducts_length (store : ProductService.t)
        (query : option string) (L : Z) :
  (0 <= L)%Z ->
  match SearchService.searchProducts store query (Some L) with
  | Ok found => (Z.of_nat (length found) <= Z.min L 100)%Z
  | Throw _ =>
      exists p,
        In p (ProductService.getAllProductsUnpaginated store)
        /\ Spec.plain p = false
  end.
Proof.
  intros HL.
  pose proof (searchProducts_run store query (Some L)) as H.
  destruct (SearchService.searchProducts store query (Some L)) as [found|e];
    [|exact H].
  destruct H as (ranked & -> & _).
  apply slice0_length. unfold Constants.SEARCH_CONFIG.MAX_RESULTS. lia.
Qed.

Lemma searchProducts_length_witness :
  (0 <= 2)%Z
  /\ exists found,
       SearchService.searchProducts Samples.phones (Some "cheap phone") (Some 2%Z)
       = Ok found
       /\ (Z.of_nat (length found) <= Z.min 2 100)%Z.
Proof.
  split; [lia|].
  pose proof (@searchProducts_length Samples.phones (Some "cheap phone") 2%Z)
    as H.
  destruct (SearchService.searchProducts Samples.phones (Some "cheap phone")
              (Some 2%Z)) as [found|e] eqn:E.
  - exists found. split; [reflexivity|]. apply H. lia.
  - vm_compute in E. discriminate.
Defined.

(** C4 as stated fails for a negative limit: [slice(0, -1)] drops the last
    element only, so three of the four matching phones are returned. *)
Lemma searchProducts_negative_limit :
  exists found,
    SearchService.searchProducts Samples.phones (Some "cheap phone")
      (Some (-1)%Z) = Ok found
    /\ length found = 3
    /\ (Z.min (-1) 100 < Z.of_nat (length found))%Z.
Proof. eexists. split; [vm_compute; reflexivity|]. split; [reflexivity|]. simpl. lia. Qed.

End Search.

(* ================================================================== *)
(** * The filter stage                                                *)
(* ================================================================== *)

Section Filter.

Import QueryProcessor.

Lemma ltb_false_le (a b : Q) : Num.ltb a b = false -> (b <= a)%Q.
Proof.
  unfold Num.ltb. intros H. apply negb_false_iff in H.
  apply Qle_bool_iff. exact H.
Qed.

Lemma priceOk_max (range : PriceRange) (m : Z) (p : Product.t) :
  maxPrice range = Some m ->
  m <> 0%Z ->
  SearchService.priceOk range p = true ->
  (Product.price p <= inject_Z m)%Q.
Proof.
  intros Hmax Hm. unfold SearchService.priceOk. rewrite Hmax.
  assert (Js.truthy_Z m = true) as ->.
  { unfold Js.truthy_Z. apply negb_true_iff. apply Z.eqb_neq. exact Hm. }
  cbn [andb].
  destruct (Num.ltb (inject_Z m) (Product.price p)) eqn:E; [discriminate|].
  intros _. apply ltb_false_le. exact E.
Qed.

(** The price test of [applyFilters] on any intent: a ceiling that is not
    zero bounds the price of every product kept. *)
Lemma applyFilters_max (products kept : list Product.t) (pq : ProcessedQuery)
      (f : FilterBy) (range : PriceRange) (m : Z) (p : Product.t) :
  filterBy (intent pq) = Some f ->
  priceRange f = Some range ->
  maxPrice range = Some m ->
  m <> 0%Z ->
  SearchService.applyFilters products pq = Ok kept ->
  In p kept ->
  (Product.price p <= inject_Z m)%Q.
Proof.
  intros Hf Hr Hmax Hm Hk Hin.
  destruct (applyFilters_kept _ _ Hk) as (f' & Hf' & I).
  rewrite Hf in Hf'. injection Hf' as <-. rewrite Hr in I.
  apply I in Hin. apply filter_In in Hin. destruct Hin as [_ Hok].
  eapply priceOk_max; eassumption.
Qed.

(** The intent of a processed query carries a price range only when its
    ceiling is a number other than zero. *)
Lemma processQuery_maxPrice (query : string) (f : FilterBy)
      (range : PriceRange) (m : Z) :
  filterBy (intent (processQuery query)) = Some f ->
  priceRange f = Some range ->
  maxPrice range = Some m ->
  m <> 0%Z.
Proof.
  destruct (processQuery_intent query) as [-> | ->]; [discriminate|].
  destruct (extractIntent_priceRange
              (correctSpelling (translateHinglish (normalizeQuery query))))
    as (f' & -> & Hr).
  intros Hf. injection Hf as <-. rewrite Hr.
  unfold extractPriceRange at 1. rewrite patterns_keep_minPrice.
  cbn [minPrice truthyPrice orb].
  destruct (truthyPrice (maxPrice _)) eqn:E; [|discriminate].
  intros H. injection H as <-. intros Hm. rewrite Hm in E.
  intros ->. discriminate.
Qed.

(** C5. Every product that the filter stage keeps costs at most the
    ceiling of the intent's price range, when the intent has one. *)
Theorem applyFilters_price_ceiling (query : string)
        (products kept : list Product.t) (f : FilterBy) (range : PriceRange)
        (m : Z) (p : Product.t) :
  filterBy (intent (processQuery query)) = Some f ->
  priceRange f = Some range ->
  maxPrice range = Some m ->
  SearchService.applyFilters products (processQuery query) = Ok kept ->
  In p kept ->
  (Product.price p <= inject_Z m)%Q.
Proof.
  intros Hf Hr Hmax Hk Hin.
  eapply applyFilters_max; try eassumption.
  eapply processQuery_maxPrice; eassumption.
Qed.

Lemma applyFilters_price_ceiling_witness :
  exists f range kept p,
    filterBy (intent (processQuery "iphone 25k")) = Some f
    /\ priceRange f = Some range
    /\ maxPrice range = Some 25000%Z
    /\ SearchService.applyFilters Samples.phoneList (processQuery "iphone 25k")
       = Ok kept
    /\ In p kept
    /\ Product.price p = 20000%Q
    /\ (Product.price p <= inject_Z 25000)%Q.
Proof.
  do 4 eexists.
  assert (forall A B C D E F G : Prop,
             A -> B -> C -> D -> E -> F -> (A -> B -> C -> D -> E -> G) ->
             A /\ B /\ C /\ D /\ E /\ F /\ G) as conj7 by tauto.
  apply conj7.
  - vm_compute. reflexivity.
  - reflexivity.
  - reflexivity.
  - vm_compute. reflexivity.
  - left. reflexivity.
  - reflexivity.
  - intros Hf Hr Hmax Hk Hin.
    exact (@applyFilters_price_ceiling "iphone 25k" Samples.phoneList
             _ _ _ _ _ Hf Hr Hmax Hk Hin).
Defined.

(** C9 (the code departs from it). A catalog product whose [color] was
    set to a number makes the colour filter call [toLowerCase] on that
    number: the search for "red cover" ends in a [TypeError], where
    before the update it returned the product. *)
Theorem searchProducts_throws :
  SearchService.searchProducts Samples.numbered (Some "red cover") None
  = Throw TypeError
  /\ (exists found,
        SearchService.searchProducts Samples.cover (Some "red cover") None
        = Ok found
        /\ map Product.productId found = [1%Z])
  /\ map Product.metadata
       (ProductService.getAllProductsUnpaginated Samples.numbered)
     = [[("color", JNumber 5)]].
Proof.
  split; [vm_compute; reflexivity|].
  split; [eexists; split; [vm_compute; reflexivity|reflexivity]|].
  vm_compute. reflexivity.
Qed.

End Filter.

(* ================================================================== *)
(** * The catalog's indexes                                           *)
(* ================================================================== *)

Section Indexes.

(** C1 (the code departs from it). [updateProductMetadata] recomputes the
    product's keywords before it removes the product from the indexes, so
    the removal walks the new keywords: after the colour of the sample
    phone is changed from red to blue the phone is still filed under
    "red", which is none of its keywords any more. *)
Theorem updateProductMetadata_stale_keyword :
  ProductService.ids (ProductService.keywordIndex Samples.redPhone) "red" = [1%Z]
  /\ ProductService.ids (ProductService.keywordIndex Samples.repainted) "red"
     = [1%Z]
  /\ ProductService.ids (ProductService.keywordIndex Samples.repainted) "blue"
     = [1%Z]
  /\ map Product.searchKeywords
       (ProductService.getAllProductsUnpaginated Samples.repainted)
     = [["apple"; "iphone"; "16"; "flagship"; "mobile"; "blue"]].
Proof. repeat split; vm_compute; reflexivity. Qed.

Lemma get_set_same (m : ProductService.Index) (k : string) (v : list Z) :
  JsMap.get String.eqb (JsMap.set String.eqb m k v) k = Some v.
Proof.
  induction m as [|[k' v'] m IH]; simpl.
  - rewrite String.eqb_refl. reflexivity.
  - destruct (String.eqb k k') eqn:E; simpl; rewrite E; [reflexivity|exact IH].
Qed.

Lemma get_set_other (m : ProductService.Index) (k k' : string) (v : list Z) :
  k' <> k ->
  JsMap.get String.eqb (JsMap.set String.eqb m k v) k'
  = JsMap.get String.eqb m k'.
Proof.
  intros Hne.
  induction m as [|[k0 v0] m IH]; simpl.
  - apply String.eqb_neq in Hne. rewrite Hne. reflexivity.
  - destruct (String.eqb k k0) eqn:E; simpl.
    + apply String.eqb_eq in E. subst k0.
      apply String.eqb_neq in Hne. rewrite Hne. reflexivity.
    + rewrite IH. reflexivity.
Qed.

Lemma add_In (s : list Z) (x y : Z) :
  In y (JsSet.add s x) <-> y = x \/ In y s.
Proof.
  unfold JsSet.add, JsSet.has.
  destruct (existsb (Z.eqb x) s) eqn:E.
  - split; [tauto|]. intros [->|H]; [|exact H].
    apply existsb_exists in E. destruct E as (z & Hz & Hxz).
    apply Z.eqb_eq in Hxz. subst z. exact Hz.
  - rewrite in_app_iff. simpl. split; intros H.
    + destruct H as [H|[H|[]]]; [right; exact H|left; symmetry; exact H].
    + destruct H as [->|H]; [right; left; reflexivity|left; exact H].
Qed.

(** Filing an identifier under a key puts it there and removes nothing. *)
Lemma file_In (index : ProductService.Index) (k k' : string) (id x : Z) :
  In x (ProductService.ids (ProductService.file index k id) k')
  <-> (k' = k /\ x = id) \/ In x (ProductService.ids index k').
Proof.
  unfold ProductService.file, ProductService.ids at 1.
  destruct (String.eqb_spec k' k) as [->|Hne].
  - rewrite get_set_same, add_In.
    unfold JsMap.has, ProductService.ids.
    destruct (JsMap.get String.eqb index k) eqn:E.
    + rewrite E. tauto.
    + rewrite get_set_same. tauto.
  - rewrite get_set_other by exact Hne.
    unfold ProductService.ids.
    destruct (JsMap.has String.eqb index k).
    + tauto.
    + rewrite get_set_other by exact Hne. tauto.
Qed.

Lemma files_In (keywords : list string) (index : ProductService.Index)
      (k : string) (id x : Z) :
  In x (ProductService.ids
          (fold_left (fun i keyword => ProductService.file i keyword id)
             keywords index) k)
  <-> (In k keywords /\ x = id) \/ In x (ProductService.ids index k).
Proof.
  revert index.
  induction keywords as [|k0 keywords IH]; intros index; simpl.
  - tauto.
  - rewrite IH, file_In. intuition congruence.
Qed.

(** Insertion files the product: after [updateIndexes] the identifier of
    the product stands under its category, under its brand and under each
    of its keywords (all in lower case), and every identifier that was
    filed is still filed where it was. *)
Theorem updateIndexes_files (s : ProductService.t) (p : Product.t) :
  In (Product.productId p)
     (ProductService.ids
        (ProductService.categoryIndex (ProductService.updateIndexes s p))
        (Js.toLowerCase (Product.category p)))
  /\ In (Product.productId p)
       (ProductService.ids
          (ProductService.brandIndex (ProductService.updateIndexes s p))
          (Js.toLowerCase (Product.brand p)))
  /\ Forall
       (fun keyword =>
          In (Product.productId p)
             (ProductService.ids
                (ProductService.keywordIndex (ProductService.updateIndexes s p))
                keyword))
       (Product.searchKeywords p)
  /\ forall x k,
       (In x (ProductService.ids (ProductService.keywordIndex s) k) ->
        In x (ProductService.ids
                (ProductService.keywordIndex (ProductService.updateIndexes s p))
                k))
       /\ (In x (ProductService.ids
                   (ProductService.keywordIndex (ProductService.updateIndexes s p))
                   k) ->
           (In k (Product.searchKeywords p) /\ x = Product.productId p)
           \/ In x (ProductService.ids (ProductService.keywordIndex s) k)).
Proof.
  unfold ProductService.updateIndexes. cbn [ProductService.categoryIndex
    ProductService.brandIndex ProductService.keywordIndex].
  split; [apply file_In; left; split; reflexivity|].
  split; [apply file_In; left; split; reflexivity|].
  split.
  - apply Forall_forall. intros k Hk. apply files_In. left. split;
      [exact Hk|reflexivity].
  - intros x k. split; intros H.
    + apply files_In. right. exact H.
    + apply files_In in H. exact H.
Qed.

End Indexes.

(* ================================================================== *)
(** * The sort orders its input when the comparator is consistent     *)
(* ================================================================== *)

Section StronglySortedFacts.

Variable A : Type.
Variable R : A -> A -> Prop.

Lemma sorted_snoc (l : list A) (y : A) :
  StronglySorted R l -> Forall (fun x => R x y) l ->
  StronglySorted R (l ++ [y]).
Proof.
  induction l as [|x l IH]; intros Hs Hy; simpl.
  - constructor; constructor.
  - apply StronglySorted_inv in Hs. destruct Hs as [Hs Hx].
    inversion Hy as [|x' l' Hxy Hy']; subst.
    constructor; [apply IH; assumption|].
    apply Forall_app. split; [exact Hx|constructor; [exact Hxy|constructor]].
Qed.

Lemma sorted_app_inv (l1 l2 : list A) :
  StronglySorted R (l1 ++ l2) ->
  StronglySorted R l1 /\ StronglySorted R l2
  /\ forall x y, In x l1 -> In y l2 -> R x y.
Proof.
  induction l1 as [|a l1 IH]; simpl; intros Hs.
  - split; [constructor|]. split; [exact Hs|]. intros x y [].
  - apply StronglySorted_inv in Hs. destruct Hs as [Hs Ha].
    destruct (IH Hs) as (H1 & H2 & H12).
    apply Forall_app in Ha. destruct Ha as [Ha1 Ha2].
    split; [constructor; assumption|]. split; [exact H2|].
    intros x y [<-|Hx] Hy.
    + rewrite Forall_forall in Ha2. apply Ha2. exact Hy.
    + apply H12; assumption.
Qed.

Lemma sorted_app (l1 l2 : list A) :
  StronglySorted R l1 -> StronglySorted R l2 ->
  (forall x y, In x l1 -> In y l2 -> R x y) ->
  StronglySorted R (l1 ++ l2).
Proof.
  induction l1 as [|a l1 IH]; simpl; intros H1 H2 H12; [exact H2|].
  apply StronglySorted_inv in H1. destruct H1 as [H1 Ha].
  constructor.
  - apply IH; [exact H1|exact H2|]. intros x y Hx Hy. apply H12; [right|]; assumption.
  - apply Forall_app. split; [exact Ha|].
    apply Forall_forall. intros y Hy. apply H12; [left; reflexivity|exact Hy].
Qed.

Lemma sorted_nth (l : list A) (i j : nat) (a b : A) :
  StronglySorted R l -> i < j ->
  nth_error l i = Some a -> nth_error l j = Some b -> R a b.
Proof.
  revert i j.
  induction l as [|x l IH]; intros i j Hs Hij Hi Hj.
  - destruct i; discriminate.
  - apply StronglySorted_inv in Hs. destruct Hs as [Hs Hx].
    destruct j as [|j]; [lia|]. simpl in Hj.
    destruct i as [|i]; simpl in Hi.
    + injection Hi as <-. rewrite Forall_forall in Hx. apply Hx.
      eapply nth_error_In. exact Hj.
    + apply (IH i j); [exact Hs|lia|exact Hi|exact Hj].
Qed.

End StronglySortedFacts.

Section SortOrders.

Variable A : Type.
Variable compare : A -> A -> Q.

(** The elements being sorted, on which the comparator is a strict weak
    ordering. *)
Variable D : A -> Prop.

Abbreviation before := (ArraySort.before compare).
Abbreviation inOrder := (ArraySort.inOrder compare).

Hypothesis asymmetric :
  forall a b, D a -> D b -> before a b = true -> before b a = false.

Hypothesis negatively_transitive :
  forall a b c, D a -> D b -> D c ->
                before a b = false -> before b c = false -> before a c = false.

Lemma inOrder_trans (a b c : A) :
  D a -> D b -> D c -> inOrder a b -> inOrder b c -> inOrder a c.
Proof.
  unfold ArraySort.inOrder. intros Da Db Dc Hab Hbc.
  apply (negatively_transitive Dc Db Da); assumption.
Qed.

Lemma sorted_cons (a : A) (l : list A) :
  D a -> Forall D l ->
  StronglySorted inOrder l ->
  match l with [] => True | b :: _ => inOrder a b end ->
  StronglySorted inOrder (a :: l).
Proof.
  intros Da Dl Hs Hab. constructor; [exact Hs|].
  destruct l as [|b l]; [constructor|].
  apply StronglySorted_inv in Hs. destruct Hs as [_ Hb].
  inversion Dl as [|b' l' Db Dl']; subst.
  constructor; [exact Hab|].
  rewrite Forall_forall in *. intros x Hx.
  apply (@inOrder_trans a b x); auto.
Qed.

Lemma extendRun_ascending (previous : A) (rest run tail : list A) :
  ArraySort.extendRun compare false previous rest = (run, tail) ->
  D previous -> Forall D rest ->
  StronglySorted inOrder (previous :: run).
Proof.
  revert previous run tail.
  induction rest as [|current rest IH]; intros previous run tail H Dp Dr;
    simpl in H.
  - injection H as <- <-. constructor; constructor.
  - inversion Dr as [|c r Dc Dr']; subst.
    destruct (before current previous) eqn:E; simpl in H.
    + injection H as <- <-. constructor; constructor.
    + destruct (ArraySort.extendRun compare false current rest)
        as [run' tail'] eqn:E'.
      injection H as <- <-.
      pose proof (extendRun_app _ _ _ _ E') as Happ.
      apply sorted_cons; [exact Dp| |eapply IH; eassumption|exact E].
      constructor; [exact Dc|].
      subst rest. apply Forall_app in Dr'. tauto.
Qed.

Lemma extendRun_descending (previous : A) (rest run tail : list A) :
  ArraySort.extendRun compare true previous rest = (run, tail) ->
  D previous -> Forall D rest ->
  StronglySorted inOrder (rev run ++ [previous]).
Proof.
  revert previous run tail.
  induction rest as [|current rest IH]; intros previous run tail H Dp Dr;
    simpl in H.
  - injection H as <- <-. constructor; constructor.
  - inversion Dr as [|c r Dc Dr']; subst.
    destruct (before current previous) eqn:E; simpl in H.
    + destruct (ArraySort.extendRun compare true current rest)
        as [run' tail'] eqn:E'.
      injection H as <- <-.
      pose proof (extendRun_app _ _ _ _ E') as Happ.
      assert (Forall D run') as Drun.
      { subst rest. apply Forall_app in Dr'. tauto. }
      specialize (IH current run' tail' E' Dc Dr').
      simpl. apply sorted_snoc; [exact IH|].
      assert (inOrder current previous) as Hcp.
      { unfold ArraySort.inOrder. apply asymmetric; assumption. }
      apply sorted_app_inv in IH. destruct IH as (_ & _ & Hcross).
      apply Forall_app. split; [|constructor; [exact Hcp|constructor]].
      apply Forall_forall. intros x Hx.
      apply (@inOrder_trans x current previous); auto.
      * rewrite Forall_forall in Drun. apply Drun. apply in_rev. exact Hx.
      * apply Hcross; [exact Hx|left; reflexivity].
    + injection H as <- <-. constructor; constructor.
Qed.

Lemma countAndMakeRun_sorted (l run tail : list A) :
  ArraySort.countAndMakeRun compare l = (run, tail) ->
  Forall D l ->
  StronglySorted inOrder run.
Proof.
  unfold ArraySort.countAndMakeRun.
  destruct l as [|high [|low rest]]; intros H Dl.
  - injection H as <- <-. constructor.
  - injection H as <- <-. constructor; constructor.
  - inversion Dl as [|h r Dh Dl']; subst.
    destruct (ArraySort.extendRun compare (before low high) low rest)
      as [run' tail'] eqn:E.
    injection H as <- <-.
    destruct (before low high) eqn:Hd.
    + assert (ArraySort.extendRun compare true high (low :: rest)
              = (low :: run', tail')) as E2.
      { simpl. rewrite Hd. simpl. rewrite E. reflexivity. }
      apply extendRun_descending in E2; [|exact Dh|exact Dl'].
      simpl in *. exact E2.
    + assert (ArraySort.extendRun compare false high (low :: rest)
              = (low :: run', tail')) as E2.
      { simpl. rewrite Hd. simpl. rewrite E. reflexivity. }
      apply extendRun_ascending in E2; [|exact Dh|exact Dl'].
      exact E2.
Qed.

Lemma search_spec (pivot : A) (work : list A) :
  D pivot -> Forall D work -> StronglySorted inOrder work ->
  forall fuel left right,
    left <= right <= length work ->
    right - left <= fuel ->
    (forall i x, i < left -> nth_error work i = Some x ->
                 before pivot x = false) ->
    (forall i x, right <= i -> nth_error work i = Some x ->
                 before pivot x = true) ->
    let r := ArraySort.search compare fuel pivot work left right in
    r <= length work
    /\ (forall i x, i < r -> nth_error work i = Some x ->
                    before pivot x = false)
    /\ (forall i x, r <= i -> nth_error work i = Some x ->
                    before pivot x = true).
Proof.
  intros Dp Dw Hs.
  assert (forall i x, nth_error work i = Some x -> D x) as Dnth.
  { intros i x Hx. rewrite Forall_forall in Dw. apply Dw.
    eapply nth_error_In. exact Hx. }
  induction fuel as [|fuel IH]; intros left right Hlr Hfuel Hlo Hhi;
    cbn [ArraySort.search].
  - assert (left = right) as -> by lia.
    split; [lia|]. split; assumption.
  - destruct (left <? right)%nat eqn:Hlt.
    + apply Nat.ltb_lt in Hlt.
      pose proof (Nat.div_mod_eq (right - left) 2) as Hdiv.
      pose proof (Nat.mod_upper_bound (right - left) 2) as Hmod.
      set (mid := left + (right - left) / 2) in *.
      assert (left <= mid < right) as Hmid by (subst mid; lia).
      destruct (nth_error work mid) as [x|] eqn:Hx.
      * destruct (before pivot x) eqn:Hpx.
        -- apply IH; [lia|lia|exact Hlo|].
           intros i y Hi Hy.
           destruct (Nat.eq_dec i mid) as [->|Hne]; [congruence|].
           destruct (before pivot y) eqn:Hpy; [reflexivity|].
           assert (inOrder x y) as Hxy.
           { apply (@sorted_nth _ inOrder work mid i); [exact Hs|lia|exact Hx|exact Hy]. }
           unfold ArraySort.inOrder in Hxy.
           rewrite (@negatively_transitive pivot y x) in Hpx;
             [discriminate|exact Dp|eapply Dnth; exact Hy|eapply Dnth; exact Hx
             |exact Hpy|exact Hxy].
        -- apply IH; [lia|lia| |exact Hhi].
           intros i y Hi Hy.
           destruct (Nat.eq_dec i mid) as [->|Hne]; [congruence|].
           assert (inOrder y x) as Hyx.
           { apply (@sorted_nth _ inOrder work i mid); [exact Hs|lia|exact Hy|exact Hx]. }
           unfold ArraySort.inOrder in Hyx.
           apply (@negatively_transitive pivot x y);
             [exact Dp|eapply Dnth; exact Hx|eapply Dnth; exact Hy
             |exact Hpx|exact Hyx].
      * apply nth_error_None in Hx. lia.
    + apply Nat.ltb_ge in Hlt. assert (left = right) as -> by lia.
      split; [lia|]. split; assumption.
Qed.

Lemma insert_sorted (work : list A) (pivot : A) :
  D pivot -> Forall D work -> StronglySorted inOrder work ->
  StronglySorted inOrder (ArraySort.insert compare work pivot).
Proof.
  intros Dp Dw Hs. unfold ArraySort.insert.
  destruct (@search_spec pivot work Dp Dw Hs (length work) 0 (length work))
    as (Hr & Hlo & Hhi).
  - lia.
  - lia.
  - intros i x Hi. lia.
  - intros i x Hi Hx. assert (nth_error work i <> None) as Hn by congruence.
    apply nth_error_Some in Hn. lia.
  - set (r := ArraySort.search compare (length work) pivot work 0 (length work))
      in *.
    assert (forall x, In x work -> D x) as Din.
    { rewrite Forall_forall in Dw. exact Dw. }
    pose proof Hs as Hsplit. rewrite <- (firstn_skipn r work) in Hsplit.
    apply sorted_app_inv in Hsplit. destruct Hsplit as (H1 & H2 & H12).
    assert (forall y, In y (skipn r work) -> before pivot y = true) as Hafter.
    { intros y Hy. apply In_nth_error in Hy. destruct Hy as [i Hi].
      rewrite nth_error_skipn in Hi. apply (Hhi (r + i)); [lia|exact Hi]. }
    assert (forall x, In x (firstn r work) -> before pivot x = false) as Hbefore.
    { intros x Hx. apply In_nth_error in Hx. destruct Hx as [i Hi].
      rewrite nth_error_firstn in Hi.
      destruct (i <? r)%nat eqn:Hir; [|discriminate].
      apply Nat.ltb_lt in Hir. apply (Hlo i); assumption. }
    apply sorted_app; [exact H1| |].
    + constructor; [exact H2|].
      apply Forall_forall. intros y Hy. unfold ArraySort.inOrder.
      apply asymmetric; [exact Dp| |apply Hafter; exact Hy].
      apply Din. rewrite <- (firstn_skipn r work). apply in_or_app. right.
      exact Hy.
    + intros x y Hx [<-|Hy].
      * unfold ArraySort.inOrder. apply Hbefore. exact Hx.
      * apply H12; assumption.
Qed.

Lemma inserts_sorted (rest run : list A) :
  Forall D rest -> Forall D run -> StronglySorted inOrder run ->
  StronglySorted inOrder (fold_left (ArraySort.insert compare) rest run).
Proof.
  revert run.
  induction rest as [|pivot rest IH]; intros run Dr Drun Hs; simpl;
    [exact Hs|].
  inversion Dr as [|p r Dp Dr']; subst.
  apply IH; [exact Dr'| |apply insert_sorted; assumption].
  apply Forall_forall. intros x Hx.
  apply (Permutation_in _ (insert_perm compare run pivot)) in Hx.
  destruct Hx as [<-|Hx]; [exact Dp|].
  rewrite Forall_forall in Drun. apply Drun. exact Hx.
Qed.

(** A comparator that is a strict weak ordering on the elements of a list
    leaves no later element ordered before an earlier one. *)
Lemma sort_sorted (l : list A) :
  Forall D l -> StronglySorted inOrder (ArraySort.sort compare l).
Proof.
  intros Dl. unfold ArraySort.sort.
  destruct (ArraySort.countAndMakeRun compare l) as [run rest] eqn:E.
  pose proof (countAndMakeRun_perm compare l E) as Hp.
  assert (Forall D (run ++ rest)) as Dall.
  { apply Forall_forall. intros x Hx. rewrite Forall_forall in Dl. apply Dl.
    eapply Permutation_in; [apply Permutation_sym; exact Hp|exact Hx]. }
  apply Forall_app in Dall. destruct Dall as [Drun Drest].
  apply inserts_sorted; [exact Drest|exact Drun|].
  eapply countAndMakeRun_sorted; eassumption.
Qed.

End SortOrders.

(* ================================================================== *)
(** * Ties under [sortBy = price_asc]                                 *)
(* ================================================================== *)

Section PriceTies.

Import QueryProcessor.
Local Open Scope Q_scope.

Lemma ltb_true (a b : Q) : Num.ltb a b = true <-> a < b.
Proof.
  unfold Num.ltb. rewrite negb_true_iff. split.
  - intros H. apply Qnot_le_lt. intros Hle.
    apply Qle_bool_iff in Hle. congruence.
  - intros H. destruct (Qle_bool b a) eqn:E; [|reflexivity].
    apply Qle_bool_iff in E. apply Qlt_not_le in H. contradiction.
Qed.

Lemma ltb_false (a b : Q) : Num.ltb a b = false <-> b <= a.
Proof.
  unfold Num.ltb. rewrite negb_false_iff. apply Qle_bool_iff.
Qed.

Lemma tied_sym (a b : RankingEngine.Scored) :
  RankingEngine.tied a b = RankingEngine.tied b a.
Proof.
  unfold RankingEngine.tied, Num.abs.
  rewrite (Qabs_Qminus (RankingEngine.score b) (RankingEngine.score a)).
  reflexivity.
Qed.

Lemma tied_true (a b : RankingEngine.Scored) :
  RankingEngine.tied a b = true
  <-> - (1 # 100) < RankingEngine.score b - RankingEngine.score a
      /\ RankingEngine.score b - RankingEngine.score a < 1 # 100.
Proof.
  unfold RankingEngine.tied, Num.abs. rewrite ltb_true.
  apply Qabs_Qlt_condition.
Qed.

Lemma tied_false (a b : RankingEngine.Scored) :
  RankingEngine.tied a b = false ->
  RankingEngine.score b - RankingEngine.score a <= - (1 # 100)
  \/ 1 # 100 <= RankingEngine.score b - RankingEngine.score a.
Proof.
  intros H.
  destruct (Qlt_le_dec (- (1 # 100))
              (RankingEngine.score b - RankingEngine.score a)) as [H1|H1];
    [|left; exact H1].
  destruct (Qlt_le_dec (RankingEngine.score b - RankingEngine.score a)
              (1 # 100)) as [H2|H2];
    [|right; exact H2].
  assert (RankingEngine.tied a b = true) as Ht by (apply tied_true; tauto).
  congruence.
Qed.

Lemma tied_near (a b : RankingEngine.Scored) :
  RankingEngine.tied a b = true
  <-> Spec.near (RankingEngine.score a) (RankingEngine.score b).
Proof.
  unfold RankingEngine.tied, Spec.near, Num.abs. apply ltb_true.
Qed.

Lemma byPrice_asymmetric (a b : RankingEngine.Scored) :
  ArraySort.before RankingEngine.byPrice a b = true ->
  ArraySort.before RankingEngine.byPrice b a = false.
Proof.
  unfold ArraySort.before. rewrite ltb_true, ltb_false.
  unfold RankingEngine.byPrice. rewrite (tied_sym b a).
  destruct (RankingEngine.tied a b); intros H; lra.
Qed.

Lemma byPrice_negatively_transitive (items : list RankingEngine.Scored) :
  (forall a b c, In a items -> In b items -> In c items ->
                 RankingEngine.tied a b = true ->
                 RankingEngine.tied b c = true ->
                 RankingEngine.tied a c = true) ->
  forall a b c, In a items -> In b items -> In c items ->
    ArraySort.before RankingEngine.byPrice a b = false ->
    ArraySort.before RankingEngine.byPrice b c = false ->
    ArraySort.before RankingEngine.byPrice a c = false.
Proof.
  intros Htrans a b c Da Db Dc.
  unfold ArraySort.before. rewrite !ltb_false.
  unfold RankingEngine.byPrice.
  destruct (RankingEngine.tied a b) eqn:Tab;
    destruct (RankingEngine.tied b c) eqn:Tbc;
    destruct (RankingEngine.tied a c) eqn:Tac;
    intros Hab Hbc.
  - lra.
  - rewrite (Htrans a b c) in Tac; auto. discriminate.
  - rewrite (Htrans b a c) in Tbc; auto; [discriminate|].
    rewrite tied_sym. exact Tab.
  - apply tied_true in Tab. apply tied_false in Tbc. lra.
  - rewrite (Htrans a c b) in Tab; auto; [discriminate|].
    rewrite tied_sym. exact Tbc.
  - apply tied_false in Tab. apply tied_true in Tbc. lra.
  - apply tied_false in Tab. apply tied_false in Tbc. apply tied_true in Tac.
    lra.
  - apply tied_false in Tab. apply tied_false in Tbc. lra.
Qed.

Lemma scored_finalScore (query : string) (pq : ProcessedQuery)
      (item : RankingEngine.Scored) :
  RankingEngine.calculateRankingScore (RankingEngine.product item) query pq
  = Ok (RankingEngine.score item) ->
  RankingEngine.score item
  = Spec.finalScore query pq (RankingEngine.product item).
Proof. unfold Spec.finalScore. intros ->. reflexivity. Qed.

(** C3, as the code has it. Under [sortBy = price_asc], when being within
    0.01 in final score is transitive among the candidates (so that the
    comparator of the second sort is consistent), every two products of
    the ranked output whose final scores differ by less than 0.01 stand in
    non-decreasing price order. *)
Theorem rankProducts_price_ties (products ranked : list Product.t)
        (query : string) (pq : ProcessedQuery) (i j : nat) (a b : Product.t) :
  sortBy (intent pq) = Some price_asc ->
  (forall x y z, In x products -> In y products -> In z products ->
     Spec.near (Spec.finalScore query pq x) (Spec.finalScore query pq y) ->
     Spec.near (Spec.finalScore query pq y) (Spec.finalScore query pq z) ->
     Spec.near (Spec.finalScore query pq x) (Spec.finalScore query pq z)) ->
  RankingEngine.rankProducts products query pq = Ok ranked ->
  (i < j)%nat ->
  nth_error ranked i = Some a ->
  nth_error ranked j = Some b ->
  Spec.near (Spec.finalScore query pq a) (Spec.finalScore query pq b) ->
  Product.price a <= Product.price b.
Proof.
  intros Hsort Htrans Hrank Hij Hi Hj Hnear.
  apply rankProducts_Ok in Hrank. destruct Hrank as (items & Hitems & ->).
  apply mapM_scoreProduct in Hitems. destruct Hitems as [Hproducts Hscores].
  unfold RankingEngine.resort in *. rewrite Hsort in *.
  set (first := ArraySort.sort RankingEngine.byScore items) in *.
  assert (forall x, In x items ->
            RankingEngine.score x
            = Spec.finalScore query pq (RankingEngine.product x)
            /\ In (RankingEngine.product x) products) as Hitem.
  { intros x Hx. split.
    - apply scored_finalScore. rewrite Forall_forall in Hscores.
      apply Hscores. exact Hx.
    - rewrite <- Hproducts. apply in_map. exact Hx. }
  assert (StronglySorted (ArraySort.inOrder RankingEngine.byPrice)
            (ArraySort.sort RankingEngine.byPrice first)) as Hsorted.
  { apply sort_sorted with (D := fun x => In x items).
    - intros x y _ _. apply byPrice_asymmetric.
    - apply byPrice_negatively_transitive.
      intros x y z Hx Hy Hz Txy Tyz.
      destruct (Hitem x Hx) as [Ex Px].
      destruct (Hitem y Hy) as [Ey Py].
      destruct (Hitem z Hz) as [Ez Pz].
      apply tied_near. apply tied_near in Txy. apply tied_near in Tyz.
      rewrite Ex, Ey in Txy. rewrite Ey, Ez in Tyz. rewrite Ex, Ez.
      apply (Htrans _ _ _ Px Py Pz Txy Tyz).
    - apply Forall_forall. intros x Hx.
      eapply Permutation_in; [apply sort_perm|exact Hx]. }
  rewrite nth_error_map in Hi, Hj.
  destruct (nth_error (ArraySort.sort RankingEngine.byPrice first) i)
    as [x|] eqn:Ex; [|discriminate].
  destruct (nth_error (ArraySort.sort RankingEngine.byPrice first) j)
    as [y|] eqn:Ey; [|discriminate].
  injection Hi as <-. injection Hj as <-.
  pose proof (sorted_nth Hsorted Hij Ex Ey) as Hxy.
  assert (forall z n,
             nth_error (ArraySort.sort RankingEngine.byPrice first) n = Some z ->
             In z items) as Hin.
  { intros z n Hz. apply nth_error_In in Hz.
    eapply Permutation_in; [apply sort_perm|].
    eapply Permutation_in; [apply sort_perm|exact Hz]. }
  destruct (Hitem x (Hin _ _ Ex)) as [Sx _].
  destruct (Hitem y (Hin _ _ Ey)) as [Sy _].
  rewrite <- Sx, <- Sy in Hnear. apply tied_near in Hnear.
  unfold ArraySort.inOrder, ArraySort.before in Hxy.
  apply ltb_false in Hxy. unfold RankingEngine.byPrice in Hxy.
  rewrite tied_sym, Hnear in Hxy. lra.
Qed.

Lemma rankProducts_price_ties_witness :
  sortBy (intent (processQuery "cheap phone")) = Some price_asc
  /\ exists ranked a b,
       RankingEngine.rankProducts Samples.twins "cheap phone"
         (processQuery "cheap phone") = Ok ranked
       /\ nth_error ranked 0 = Some a
       /\ nth_error ranked 1 = Some b
       /\ Product.price a = 20000
       /\ Product.price b = 30000
       /\ Spec.near
            (Spec.finalScore "cheap phone" (processQuery "cheap phone") a)
            (Spec.finalScore "cheap phone" (processQuery "cheap phone") b)
       /\ Product.price a <= Product.price b.
Proof.
  split; [vm_compute; reflexivity|].
  do 3 eexists.
  assert (forall A B C D E F G : Prop,
             A -> B -> C -> D -> E -> F -> (A -> B -> C -> F -> G) ->
             A /\ B /\ C /\ D /\ E /\ F /\ G) as conj7 by tauto.
  apply conj7.
  - vm_compute. reflexivity.
  - reflexivity.
  - reflexivity.
  - reflexivity.
  - reflexivity.
  - unfold Spec.near. vm_compute. reflexivity.
  - intros Hrank Ha Hb Hnear.
    refine (@rankProducts_price_ties Samples.twins _ "cheap phone"
              (processQuery "cheap phone") 0 1 _ _ _ _ Hrank _ Ha Hb Hnear).
    + vm_compute. reflexivity.
    + intros x y z Hx Hy Hz _ _.
      destruct Hx as [<-|[<-|[]]]; destruct Hz as [<-|[<-|[]]];
        unfold Spec.near; vm_compute; reflexivity.
    + lia.
Defined.

(** C3 as stated fails: of the four sample phones, the third and the
    fourth are 0.0072 apart in final score, yet the ranking for "cheap
    phone" puts the third (20000) first and the fourth (10000) last.
    The fourth is placed by binary search and is only compared with the
    two phones that are 0.0144 above it. *)
Lemma rankProducts_tie_out_of_order :
  sortBy (intent (processQuery "cheap phone")) = Some price_asc
  /\ exists ranked a b,
       RankingEngine.rankProducts Samples.phoneList "cheap phone"
         (processQuery "cheap phone") = Ok ranked
       /\ nth_error ranked 0 = Some a
       /\ nth_error ranked 3 = Some b
       /\ Spec.near
            (Spec.finalScore "cheap phone" (processQuery "cheap phone") a)
            (Spec.finalScore "cheap phone" (processQuery "cheap phone") b)
       /\ Product.price a = 20000
       /\ Product.price b = 10000
       /\ Product.price b < Product.price a.
Proof.
  split; [vm_compute; reflexivity|].
  do 3 eexists.
  split; [vm_compute; reflexivity|].
  split; [reflexivity|]. split; [reflexivity|].
  split; [unfold Spec.near; vm_compute; reflexivity|].
  split; [reflexivity|]. split; [reflexivity|].
  vm_compute. reflexivity.
Qed.

End PriceTies.

(* ================================================================== *)
(** * Guards of the ranking arithmetic                                *)
(* ================================================================== *)

Section Guards.

Import QueryProcessor.



Lemma includes_empty (sub : string) :
  Js.truthy_string sub = true -> Js.includes "" (Js.toLowerCase sub) = false.
Proof. destruct sub; [discriminate|reflexivity]. Qed.

Lemma whenTruthy_Some (wanted : option string) (w : string) :
  whenTruthy wanted = Some w -> Js.truthy_string w = true.
Proof.
  unfold whenTruthy. destruct wanted as [s|]; [|discriminate].
  destruct (Js.truthy_string s) eqn:E; [|discriminate].
  intros H. injection H as <-. exact E.
Qed.

(** A product without the attribute that the query asks for gets no bonus
    and no boost for it, and nothing throws. *)
Theorem absent_attribute_scores_zero (p : Product.t) (key : string)
        (wanted : option string) (bonus : Q) :
  Product.meta p key = None ->
  RankingEngine.attributeBonus p key wanted bonus = Ok 0%Q
  /\ RankingEngine.attributeBoost p key wanted = Ok 0%Q.
Proof.
  intros H.
  unfold RankingEngine.attributeBonus, RankingEngine.attributeBoost,
    RankingEngine.metaLower.
  rewrite H.
  destruct (whenTruthy wanted) as [w|] eqn:E; [|split; reflexivity].
  cbn [JsValues.or JsValues.toLowerCase Js.toLowerCase bind].
  rewrite (includes_empty w (whenTruthy_Some _ E)).
  split; reflexivity.
Qed.

Lemma absent_attribute_scores_zero_witness :
  exists p,
    nth_error Samples.phoneList 0 = Some p
    /\ Product.meta p "color" = None
    /\ RankingEngine.attributeBonus p "color" (Some "red") (1 # 10) = Ok 0%Q
    /\ RankingEngine.attributeBoost p "color" (Some "red") = Ok 0%Q.
Proof.
  eexists. split; [vm_compute; reflexivity|]. split; [reflexivity|].
  refine (@absent_attribute_scores_zero _ "color" (Some "red") (1 # 10) _).
  reflexivity.
Defined.

End Guards.

(* ================================================================== *)
(** * Insertion-ordered maps and sets                                 *)
(* ================================================================== *)

Section MapFacts.

Variables (K V : Type) (eqb : K -> K -> bool).
Hypothesis eqb_eq : forall a b, eqb a b = true <-> a = b.

Lemma eqb_same (a : K) : eqb a a = true.
Proof. apply eqb_eq. reflexivity. Qed.

Lemma eqb_differ (a b : K) : a <> b -> eqb a b = false.
Proof.
  intros H. destruct (eqb a b) eqn:E; [|reflexivity].
  apply eqb_eq in E. contradiction.
Qed.

Lemma map_get_set_eq (m : list (K * V)) (k : K) (v : V) :
  JsMap.get eqb (JsMap.set eqb m k v) k = Some v.
Proof.
  induction m as [|[k' v'] m IH]; simpl.
  - rewrite eqb_same. reflexivity.
  - destruct (eqb k k') eqn:E; simpl; rewrite E; [reflexivity|exact IH].
Qed.

Lemma map_get_set_ne (m : list (K * V)) (k k' : K) (v : V) :
  k' <> k ->
  JsMap.get eqb (JsMap.set eqb m k v) k' = JsMap.get eqb m k'.
Proof.
  intros Hne.
  induction m as [|[k0 v0] m IH]; simpl.
  - rewrite (eqb_differ Hne). reflexivity.
  - destruct (eqb k k0) eqn:E; simpl.
    + apply eqb_eq in E. subst k0. rewrite (eqb_differ Hne). reflexivity.
    + rewrite IH. reflexivity.
Qed.

Lemma map_get_delete_ne (m : list (K * V)) (k k' : K) :
  k' <> k ->
  JsMap.get eqb (JsMap.delete eqb m k) k' = JsMap.get eqb m k'.
Proof.
  intros Hne.
  induction m as [|[k0 v0] m IH]; simpl; [reflexivity|].
  destruct (eqb k k0) eqn:E; simpl.
  - apply eqb_eq in E. subst k0. rewrite (eqb_differ Hne). reflexivity.
  - rewrite IH. reflexivity.
Qed.

Lemma map_get_None (m : list (K * V)) (k : K) :
  JsMap.get eqb m k = None <-> ~ In k (map fst m).
Proof.
  induction m as [|[k0 v0] m IH]; simpl; [tauto|].
  destruct (eqb k k0) eqn:E.
  - apply eqb_eq in E. subst k0. split; [discriminate|tauto].
  - rewrite IH. split.
    + intros H [H0|H0]; [|tauto]. subst k0. rewrite eqb_same in E. discriminate.
    + tauto.
Qed.

Lemma map_get_delete_eq (m : list (K * V)) (k : K) :
  NoDup (map fst m) -> JsMap.get eqb (JsMap.delete eqb m k) k = None.
Proof.
  induction m as [|[k0 v0] m IH]; simpl; intros Hnd; [reflexivity|].
  inversion Hnd as [|a l Hnotin Hnd']; subst.
  destruct (eqb k k0) eqn:E; simpl.
  - apply eqb_eq in E. subst k0. apply map_get_None. exact Hnotin.
  - rewrite E. apply IH. exact Hnd'.
Qed.

Lemma map_get_In (m : list (K * V)) (k : K) (v : V) :
  JsMap.get eqb m k = Some v -> In (k, v) m.
Proof.
  induction m as [|[k0 v0] m IH]; simpl; [discriminate|].
  destruct (eqb k k0) eqn:E.
  - apply eqb_eq in E. subst k0. intros H. injection H as <-. left. reflexivity.
  - intros H. right. apply IH. exact H.
Qed.

Lemma map_In_get (m : list (K * V)) (k : K) (v : V) :
  NoDup (map fst m) -> In (k, v) m -> JsMap.get eqb m k = Some v.
Proof.
  induction m as [|[k0 v0] m IH]; simpl; intros Hnd Hin; [contradiction|].
  inversion Hnd as [|a l Hnotin Hnd']; subst.
  destruct Hin as [H|H].
  - injection H as -> ->. rewrite eqb_same. reflexivity.
  - destruct (eqb k k0) eqn:E.
    + apply eqb_eq in E. subst k0. exfalso. apply Hnotin.
      apply (in_map fst) in H. exact H.
    + apply IH; assumption.
Qed.

Lemma map_keys_set (m : list (K * V)) (k : K) (v : V) :
  map fst (JsMap.set eqb m k v)
  = if JsMap.has eqb m k then map fst m else (map fst m ++ [k])%list.
Proof.
  unfold JsMap.has.
  induction m as [|[k0 v0] m IH]; simpl; [reflexivity|].
  destruct (eqb k k0) eqn:E; simpl; [reflexivity|].
  rewrite IH. destruct (JsMap.get eqb m k); reflexivity.
Qed.

Lemma map_set_NoDup (m : list (K * V)) (k : K) (v : V) :
  NoDup (map fst m) -> NoDup (map fst (JsMap.set eqb m k v)).
Proof.
  intros Hnd. rewrite map_keys_set. unfold JsMap.has.
  destruct (JsMap.get eqb m k) eqn:E; [exact Hnd|].
  apply map_get_None in E.
  apply NoDup_rev in Hnd. rewrite <- (rev_involutive (map fst m ++ [k])).
  apply NoDup_rev. rewrite rev_app_distr. simpl.
  constructor; [|exact Hnd]. rewrite <- in_rev. exact E.
Qed.

Lemma map_In_delete (m : list (K * V)) (k : K) (x : K * V) :
  In x (JsMap.delete eqb m k) -> In x m.
Proof.
  induction m as [|[k0 v0] m IH]; simpl; [tauto|].
  destruct (eqb k k0); simpl; [tauto|].
  intros [H|H]; [left; exact H|right; apply IH; exact H].
Qed.

Lemma map_delete_NoDup (m : list (K * V)) (k : K) :
  NoDup (map fst m) -> NoDup (map fst (JsMap.delete eqb m k)).
Proof.
  induction m as [|[k0 v0] m IH]; simpl; intros Hnd; [constructor|].
  inversion Hnd as [|a l Hnotin Hnd']; subst.
  destruct (eqb k k0); simpl; [exact Hnd'|].
  constructor; [|apply IH; exact Hnd'].
  intros Hin. apply Hnotin. apply in_map_iff in Hin.
  destruct Hin as (x & Hx & Hin). apply map_In_delete in Hin.
  rewrite <- Hx. apply in_map. exact Hin.
Qed.

Lemma map_In_set (m : list (K * V)) (k : K) (v : V) (x : K * V) :
  In x (JsMap.set eqb m k v) -> x = (k, v) \/ In x m.
Proof.
  induction m as [|[k0 v0] m IH]; simpl.
  - intros [H|[]]. left. symmetry. exact H.
  - destruct (eqb k k0) eqn:E; simpl.
    + apply eqb_eq in E. subst k0. intros [H|H]; [left; symmetry; exact H|tauto].
    + intros [H|H]; [tauto|]. destruct (IH H); tauto.
Qed.

Lemma map_set_set (m : list (K * V)) (k : K) (v w : V) :
  JsMap.set eqb (JsMap.set eqb m k v) k w = JsMap.set eqb m k w.
Proof.
  induction m as [|[k0 v0] m IH]; simpl.
  - rewrite eqb_same. reflexivity.
  - destruct (eqb k k0) eqn:E; simpl; rewrite E; [reflexivity|].
    rewrite IH. reflexivity.
Qed.

Lemma map_values_In (m : list (K * V)) (v : V) :
  In v (JsMap.values m) <-> exists k, In (k, v) m.
Proof.
  unfold JsMap.values. rewrite in_map_iff. split.
  - intros ([k v'] & E & H). simpl in E. subst v'. exists k. exact H.
  - intros (k & H). exists (k, v). split; [reflexivity|exact H].
Qed.

End MapFacts.

Section SetFacts.

Lemma set_has_In (s : list Z) (x : Z) : JsSet.has s x = true <-> In x s.
Proof.
  unfold JsSet.has. rewrite existsb_exists. split.
  - intros (y & Hy & E). apply Z.eqb_eq in E. subst y. exact Hy.
  - intros H. exists x. split; [exact H|apply Z.eqb_refl].
Qed.

Lemma set_delete_In (s : list Z) (x y : Z) :
  In y (JsSet.delete s x) <-> In y s /\ y <> x.
Proof.
  unfold JsSet.delete. rewrite filter_In, negb_true_iff, Z.eqb_neq.
  intuition congruence.
Qed.

Lemma set_add_NoDup (s : list Z) (x : Z) :
  NoDup s -> NoDup (JsSet.add s x).
Proof.
  intros Hnd. unfold JsSet.add.
  destruct (JsSet.has s x) eqn:E; [exact Hnd|].
  assert (~ In x s) as Hx.
  { intros H. apply set_has_In in H. congruence. }
  apply NoDup_rev in Hnd. rewrite <- (rev_involutive (s ++ [x])).
  apply NoDup_rev. rewrite rev_app_distr. simpl.
  constructor; [|exact Hnd]. rewrite <- in_rev. exact Hx.
Qed.

Lemma set_add_nonempty (s : list Z) (x : Z) : JsSet.add s x <> [].
Proof.
  unfold JsSet.add. destruct (JsSet.has s x) eqn:E.
  - apply set_has_In in E. intros ->. contradiction.
  - destruct s; discriminate.
Qed.

Lemma set_addAll_In (xs s : list Z) (y : Z) :
  In y (JsSet.addAll s xs) <-> In y s \/ In y xs.
Proof.
  unfold JsSet.addAll. revert s.
  induction xs as [|x xs IH]; intros s; simpl; [tauto|].
  rewrite IH, add_In. intuition.
Qed.

Lemma set_addAll_NoDup (xs s : list Z) :
  NoDup s -> NoDup (JsSet.addAll s xs).
Proof.
  unfold JsSet.addAll. revert s.
  induction xs as [|x xs IH]; intros s H; simpl; [exact H|].
  apply IH. apply set_add_NoDup. exact H.
Qed.

End SetFacts.

(* ================================================================== *)
(** * The catalog and its indexes                                     *)
(* ================================================================== *)

Section CatalogFacts.

Lemma file_eq (index : ProductService.Index) (k : string) (id : Z) :
  ProductService.file index k id
  = JsMap.set String.eqb index k (JsSet.add (ProductService.ids index k) id).
Proof.
  unfold ProductService.file, JsMap.has, ProductService.ids.
  destruct (JsMap.get String.eqb index k) eqn:E.
  - rewrite E. reflexivity.
  - rewrite (map_get_set_eq _ String.eqb_eq), (map_set_set _ String.eqb_eq).
    reflexivity.
Qed.

Lemma bucket_NoDup (index : ProductService.Index) (k : string) :
  Invariant.indexOk index -> NoDup (ProductService.ids index k).
Proof.
  intros [_ Hb]. unfold ProductService.ids.
  destruct (JsMap.get String.eqb index k) eqn:G; [|constructor].
  apply (map_get_In _ String.eqb_eq) in G. exact (proj2 (Hb _ _ G)).
Qed.

Lemma file_ok (index : ProductService.Index) (k : string) (id : Z) :
  Invariant.indexOk index -> Invariant.indexOk (ProductService.file index k id).
Proof.
  intros Hok. pose proof Hok as [Hnd Hb]. rewrite file_eq. split.
  - apply (map_set_NoDup _ String.eqb_eq). exact Hnd.
  - intros key bucket Hin. apply (map_In_set _ String.eqb_eq) in Hin.
    destruct Hin as [E|Hin]; [|exact (Hb _ _ Hin)].
    injection E as -> ->. split; [apply set_add_nonempty|].
    apply set_add_NoDup. apply bucket_NoDup. exact Hok.
Qed.

Lemma files_ok (keywords : list string) (index : ProductService.Index)
      (id : Z) :
  Invariant.indexOk index ->
  Invariant.indexOk
    (fold_left (fun i keyword => ProductService.file i keyword id)
       keywords index).
Proof.
  revert index. induction keywords as [|k keywords IH]; intros index H; simpl.
  - exact H.
  - apply IH. apply file_ok. exact H.
Qed.

Lemma unfile_ok (index : ProductService.Index) (k : string) (id : Z) :
  Invariant.indexOk index ->
  Invariant.indexOk (ProductService.unfile index k id).
Proof.
  intros Hok. pose proof Hok as [Hnd Hb]. unfold ProductService.unfile.
  destruct (JsMap.has String.eqb index k) eqn:Hhas; [|exact Hok].
  destruct (JsSet.delete (ProductService.ids index k) id) as [|x bucket] eqn:Ed.
  - split; [apply map_delete_NoDup; exact Hnd|].
    intros key b Hin. apply map_In_delete in Hin. exact (Hb _ _ Hin).
  - split; [apply (map_set_NoDup _ String.eqb_eq); exact Hnd|].
    intros key b Hin. apply (map_In_set _ String.eqb_eq) in Hin.
    destruct Hin as [E|Hin]; [|exact (Hb _ _ Hin)].
    injection E as -> ->. split; [discriminate|].
    rewrite <- Ed. unfold JsSet.delete. apply NoDup_filter.
    apply bucket_NoDup. exact Hok.
Qed.

Lemma unfiles_ok (keywords : list string) (index : ProductService.Index)
      (id : Z) :
  Invariant.indexOk index ->
  Invariant.indexOk
    (fold_left (fun i keyword => ProductService.unfile i keyword id)
       keywords index).
Proof.
  revert index. induction keywords as [|k keywords IH]; intros index H; simpl.
  - exact H.
  - apply IH. apply unfile_ok. exact H.
Qed.

(** Removing an identifier from under a key removes that entry alone. *)
Lemma unfile_In (index : ProductService.Index) (k k' : string) (id x : Z) :
  NoDup (map fst index) ->
  In x (ProductService.ids (ProductService.unfile index k id) k')
  <-> In x (ProductService.ids index k') /\ ~ (k' = k /\ x = id).
Proof.
  intros Hnd. unfold ProductService.unfile.
  destruct (JsMap.has String.eqb index k) eqn:Hhas.
  - destruct (JsSet.delete (ProductService.ids index k) id)
      as [|y bucket] eqn:Ed.
    + destruct (String.eqb_spec k' k) as [->|Hne].
      * unfold ProductService.ids at 1.
        rewrite (map_get_delete_eq _ String.eqb_eq) by exact Hnd.
        split; [intros []|]. intros [Hin Hno].
        assert (In x (JsSet.delete (ProductService.ids index k) id)) as H.
        { apply set_delete_In. split; [exact Hin|].
          intros ->. apply Hno. split; reflexivity. }
        rewrite Ed in H. exact H.
      * unfold ProductService.ids.
        rewrite (map_get_delete_ne _ String.eqb_eq) by exact Hne. tauto.
    + destruct (String.eqb_spec k' k) as [->|Hne].
      * unfold ProductService.ids at 1.
        rewrite (map_get_set_eq _ String.eqb_eq), <- Ed, set_delete_In.
        intuition.
      * unfold ProductService.ids.
        rewrite (map_get_set_ne _ String.eqb_eq) by exact Hne. tauto.
  - split; [|tauto]. intros H. split; [exact H|]. intros [-> ->].
    unfold ProductService.ids, JsMap.has in *.
    destruct (JsMap.get String.eqb index k); [discriminate|]. exact H.
Qed.

Lemma unfiles_In (keywords : list string) (index : ProductService.Index)
      (k : string) (id x : Z) :
  Invariant.indexOk index ->
  In x (ProductService.ids
          (fold_left (fun i keyword => ProductService.unfile i keyword id)
             keywords index) k)
  <-> In x (ProductService.ids index k) /\ ~ (In k keywords /\ x = id).
Proof.
  revert index.
  induction keywords as [|k0 keywords IH]; intros index Hok; simpl.
  - tauto.
  - rewrite IH by (apply unfile_ok; exact Hok).
    rewrite unfile_In by apply Hok. split.
    + intros [[HA H1] H2]. split; [exact HA|].
      intros [[E|Hin] Hx]; [apply H1|apply H2]; split; auto.
    + intros [HA H]. repeat split; [exact HA| |].
      * intros [E Hx]. apply H. split; [left; symmetry; exact E|exact Hx].
      * intros [Hin Hx]. apply H. split; [right; exact Hin|exact Hx].
Qed.

End CatalogFacts.

Section CatalogInvariants.

Lemma addProduct_shape (s : ProductService.t) (data : Product.Data) :
  exists id next,
    ProductService.addProduct s data
    = (ProductService.updateIndexes
         (ProductService.with_products (ProductService.with_next s next)
            (JsMap.set Z.eqb (ProductService.products s) id
               (Product.new id data)))
         (Product.new id data),
       Product.new id data)
    /\ (ProductService.nextProductId s <= next)%Z
    /\ (id < next)%Z
    /\ (ProductService.truthyId (Product.d_productId data) = None ->
        id = ProductService.nextProductId s).
Proof.
  unfold ProductService.addProduct.
  destruct (ProductService.truthyId (Product.d_productId data)) as [id|] eqn:E.
  - destruct (Z.leb_spec (ProductService.nextProductId s) id) as [Hle|Hlt].
    + exists id, (id + 1)%Z. repeat split; try lia. discriminate.
    + exists id, (ProductService.nextProductId s).
      split; [destruct s; reflexivity|].
      repeat split; try lia. discriminate.
  - exists (ProductService.nextProductId s),
      (ProductService.nextProductId s + 1)%Z.
    repeat split; lia.
Qed.

Lemma wellFormed_empty : Invariant.wellFormed ProductService.empty.
Proof.
  constructor; simpl; try (split; [constructor|intros ? ? []]);
    try constructor; intros ? ? [].
Qed.

Lemma addProduct_wellFormed (s : ProductService.t) (data : Product.Data) :
  Invariant.wellFormed s ->
  Invariant.wellFormed (fst (ProductService.addProduct s data)).
Proof.
  intros [Hk Hkeyed Hnext Hc Hb Hkw].
  destruct (addProduct_shape s data) as (id & next & -> & Hle & Hlt & _).
  cbn [fst].
  constructor;
    cbn [ProductService.products ProductService.updateIndexes
         ProductService.with_products ProductService.with_next
         ProductService.categoryIndex ProductService.brandIndex
         ProductService.keywordIndex ProductService.nextProductId].
  - apply (map_set_NoDup _ Z.eqb_eq). exact Hk.
  - intros id' p' Hin. apply (map_In_set _ Z.eqb_eq) in Hin.
    destruct Hin as [E|Hin]; [|exact (Hkeyed _ _ Hin)].
    injection E as -> ->. reflexivity.
  - intros id' p' Hin. apply (map_In_set _ Z.eqb_eq) in Hin.
    destruct Hin as [E|Hin]; [injection E as -> ->; exact Hlt|].
    specialize (Hnext _ _ Hin). lia.
  - apply file_ok. exact Hc.
  - apply file_ok. exact Hb.
  - apply files_ok. exact Hkw.
Qed.

Lemma updateProductMetadata_wellFormed (s : ProductService.t) (id : Z)
      (metadata : Product.Metadata) :
  Invariant.wellFormed s ->
  Invariant.wellFormed (fst (ProductService.updateProductMetadata s id metadata)).
Proof.
  intros Hwf. pose proof Hwf as [Hk Hkeyed Hnext Hc Hb Hkw].
  unfold ProductService.updateProductMetadata.
  destruct (JsMap.get Z.eqb (ProductService.products s) id)
    as [product|] eqn:G; [|exact Hwf].
  apply (map_get_In _ Z.eqb_eq) in G.
  cbn [fst].
  constructor;
    cbn [ProductService.products ProductService.updateIndexes
         ProductService.removeFromIndexes
         ProductService.with_products ProductService.with_next
         ProductService.categoryIndex ProductService.brandIndex
         ProductService.keywordIndex ProductService.nextProductId].
  - apply (map_set_NoDup _ Z.eqb_eq). exact Hk.
  - intros id' p' Hin. apply (map_In_set _ Z.eqb_eq) in Hin.
    destruct Hin as [E|Hin]; [|exact (Hkeyed _ _ Hin)].
    injection E as -> ->. exact (Hkeyed _ _ G).
  - intros id' p' Hin. apply (map_In_set _ Z.eqb_eq) in Hin.
    destruct Hin as [E|Hin]; [|exact (Hnext _ _ Hin)].
    injection E as -> ->. exact (Hnext _ _ G).
  - apply file_ok, unfile_ok. exact Hc.
  - apply file_ok, unfile_ok. exact Hb.
  - apply files_ok, unfiles_ok. exact Hkw.
Qed.

Lemma deleteProduct_wellFormed (s : ProductService.t) (id : Z) :
  Invariant.wellFormed s ->
  Invariant.wellFormed (fst (ProductService.deleteProduct s id)).
Proof.
  intros Hwf. pose proof Hwf as [Hk Hkeyed Hnext Hc Hb Hkw].
  unfold ProductService.deleteProduct.
  destruct (JsMap.get Z.eqb (ProductService.products s) id)
    as [product|] eqn:G; [|exact Hwf].
  cbn [fst].
  constructor;
    cbn [ProductService.products ProductService.removeFromIndexes
         ProductService.with_products
         ProductService.categoryIndex ProductService.brandIndex
         ProductService.keywordIndex ProductService.nextProductId].
  - apply map_delete_NoDup. exact Hk.
  - intros id' p' Hin. apply map_In_delete in Hin. exact (Hkeyed _ _ Hin).
  - intros id' p' Hin. apply map_In_delete in Hin. exact (Hnext _ _ Hin).
  - apply unfile_ok. exact Hc.
  - apply unfile_ok. exact Hb.
  - apply unfiles_ok. exact Hkw.
Qed.

Lemma call_wellFormed (s : ProductService.t) (c : Invariant.Call) :
  Invariant.wellFormed s -> Invariant.wellFormed (Invariant.call s c).
Proof.
  intros H. destruct c as [data|id metadata|id|]; simpl.
  - apply addProduct_wellFormed. exact H.
  - apply updateProductMetadata_wellFormed. exact H.
  - apply deleteProduct_wellFormed. exact H.
  - apply wellFormed_empty.
Qed.

Lemma complete_empty : Invariant.complete ProductService.empty.
Proof. intros id p H. discriminate H. Qed.

Lemma addProduct_complete (s : ProductService.t) (data : Product.Data) :
  Invariant.complete s ->
  Invariant.complete (fst (ProductService.addProduct s data)).
Proof.
  intros Hc.
  destruct (addProduct_shape s data) as (id & next & -> & _).
  cbn [fst]. intros id' p'. unfold ProductService.getProduct, Invariant.filed.
  cbn [ProductService.products ProductService.updateIndexes
       ProductService.with_products ProductService.with_next
       ProductService.categoryIndex ProductService.brandIndex
       ProductService.keywordIndex].
  destruct (Z.eq_dec id' id) as [->|Hne].
  - rewrite (map_get_set_eq _ Z.eqb_eq). intros E. injection E as <-.
    change (Product.productId (Product.new id data)) with id.
    split; [apply file_In; left; split; reflexivity|].
    split; [apply file_In; left; split; reflexivity|].
    intros keyword Hin. apply files_In. left. split; [exact Hin|reflexivity].
  - rewrite (map_get_set_ne _ Z.eqb_eq) by exact Hne. intros G.
    destruct (Hc _ _ G) as (H1 & H2 & H3).
    split; [apply file_In; right; exact H1|].
    split; [apply file_In; right; exact H2|].
    intros keyword Hin. apply files_In. right. apply H3. exact Hin.
Qed.

Lemma updateProductMetadata_complete (s : ProductService.t) (id : Z)
      (metadata : Product.Metadata) :
  Invariant.wellFormed s ->
  Invariant.complete s ->
  Invariant.complete (fst (ProductService.updateProductMetadata s id metadata)).
Proof.
  intros Hwf Hc. pose proof Hwf as [Hk Hkeyed Hnext Hci Hbi Hkwi].
  unfold ProductService.updateProductMetadata.
  destruct (JsMap.get Z.eqb (ProductService.products s) id)
    as [product|] eqn:G; [|exact Hc].
  pose proof (Hkeyed _ _ (map_get_In _ Z.eqb_eq _ _ G)) as Hid.
  cbn [fst]. intros id' p'. unfold ProductService.getProduct, Invariant.filed.
  cbn [ProductService.products ProductService.updateIndexes
       ProductService.removeFromIndexes
       ProductService.with_products ProductService.with_next
       ProductService.categoryIndex ProductService.brandIndex
       ProductService.keywordIndex].
  destruct (Z.eq_dec id' id) as [->|Hne].
  - rewrite (map_get_set_eq _ Z.eqb_eq). intros E. injection E as <-.
    cbn [Product.productId Product.updateSearchText Product.with_search
         Product.with_metadata]. rewrite Hid.
    split; [apply file_In; left; split; reflexivity|].
    split; [apply file_In; left; split; reflexivity|].
    intros keyword Hin. apply files_In. left. split; [exact Hin|reflexivity].
  - rewrite (map_get_set_ne _ Z.eqb_eq) by exact Hne. intros G'.
    destruct (Hc _ _ G') as (H1 & H2 & H3).
    cbn [Product.productId Product.updateSearchText Product.with_search
         Product.with_metadata]. rewrite Hid.
    split; [apply file_In; right; apply unfile_In;
            [apply Hci|split; [exact H1|intros [_ E]; exact (Hne E)]]|].
    split; [apply file_In; right; apply unfile_In;
            [apply Hbi|split; [exact H2|intros [_ E]; exact (Hne E)]]|].
    intros keyword Hin. apply files_In. right. apply unfiles_In;
      [exact Hkwi|]. split; [apply H3; exact Hin|intros [_ E]; exact (Hne E)].
Qed.

Lemma deleteProduct_live (s : ProductService.t) (id id' : Z) (p p' : Product.t) :
  NoDup (map fst (ProductService.products s)) ->
  JsMap.get Z.eqb (ProductService.products s) id = Some p ->
  JsMap.get Z.eqb (JsMap.delete Z.eqb (ProductService.products s) id) id'
  = Some p' ->
  id' <> id /\ JsMap.get Z.eqb (ProductService.products s) id' = Some p'.
Proof.
  intros Hk G G'. destruct (Z.eq_dec id' id) as [->|Hne].
  - rewrite (map_get_delete_eq _ Z.eqb_eq) in G' by exact Hk. discriminate.
  - rewrite (map_get_delete_ne _ Z.eqb_eq) in G' by exact Hne. tauto.
Qed.

Lemma deleteProduct_complete (s : ProductService.t) (id : Z) :
  Invariant.wellFormed s ->
  Invariant.complete s ->
  Invariant.complete (fst (ProductService.deleteProduct s id)).
Proof.
  intros Hwf Hc. pose proof Hwf as [Hk Hkeyed Hnext Hci Hbi Hkwi].
  unfold ProductService.deleteProduct.
  destruct (JsMap.get Z.eqb (ProductService.products s) id)
    as [product|] eqn:G; [|exact Hc].
  pose proof (Hkeyed _ _ (map_get_In _ Z.eqb_eq _ _ G)) as Hid.
  cbn [fst]. intros id' p'. unfold ProductService.getProduct, Invariant.filed.
  cbn [ProductService.products ProductService.removeFromIndexes
       ProductService.with_products
       ProductService.categoryIndex ProductService.brandIndex
       ProductService.keywordIndex].
  intros G'. destruct (deleteProduct_live s _ _ Hk G G') as [Hne G''].
  destruct (Hc _ _ G'') as (H1 & H2 & H3). rewrite Hid.
  split; [apply unfile_In;
          [apply Hci|split; [exact H1|intros [_ E]; exact (Hne E)]]|].
  split; [apply unfile_In;
          [apply Hbi|split; [exact H2|intros [_ E]; exact (Hne E)]]|].
  intros keyword Hin. apply unfiles_In; [exact Hkwi|].
  split; [apply H3; exact Hin|intros [_ E]; exact (Hne E)].
Qed.

Lemma call_complete (s : ProductService.t) (c : Invariant.Call) :
  Invariant.wellFormed s -> Invariant.complete s ->
  Invariant.complete (Invariant.call s c).
Proof.
  intros Hwf H. destruct c as [data|id metadata|id|]; simpl.
  - apply addProduct_complete. exact H.
  - apply updateProductMetadata_complete; assumption.
  - apply deleteProduct_complete; assumption.
  - apply complete_empty.
Qed.

Lemma after_snoc (calls : list Invariant.Call) (c : Invariant.Call) :
  Invariant.after (calls ++ [c])%list
  = Invariant.call (Invariant.after calls) c.
Proof. unfold Invariant.after. rewrite fold_left_app. reflexivity. Qed.

Lemma after_wellFormed (calls : list Invariant.Call) :
  Invariant.wellFormed (Invariant.after calls).
Proof.
  induction calls as [|c calls IH] using rev_ind.
  - apply wellFormed_empty.
  - rewrite after_snoc. apply call_wellFormed. exact IH.
Qed.

Lemma after_complete (calls : list Invariant.Call) :
  Invariant.complete (Invariant.after calls).
Proof.
  induction calls as [|c calls IH] using rev_ind.
  - apply complete_empty.
  - rewrite after_snoc. apply call_complete; [apply after_wellFormed|exact IH].
Qed.

Lemma fresh_id (s : ProductService.t) :
  Invariant.wellFormed s ->
  ProductService.getProduct s (ProductService.nextProductId s) = None.
Proof.
  intros Hwf. unfold ProductService.getProduct.
  destruct (JsMap.get Z.eqb (ProductService.products s)
              (ProductService.nextProductId s)) as [p|] eqn:G; [|reflexivity].
  apply (map_get_In _ Z.eqb_eq) in G. apply (Invariant.below_next Hwf) in G.
  lia.
Qed.

Lemma sound_empty :
  Invariant.soundAttributes ProductService.empty
  /\ Invariant.soundKeywords ProductService.empty.
Proof.
  split; [intros key id; split|intros key id]; intros H; destruct H.
Qed.

Lemma addProduct_soundAttributes (s : ProductService.t) (data : Product.Data) :
  Invariant.wellFormed s ->
  ProductService.truthyId (Product.d_productId data) = None ->
  Invariant.soundAttributes s ->
  Invariant.soundAttributes (fst (ProductService.addProduct s data)).
Proof.
  intros Hwf Hfresh Hs. pose proof (fresh_id Hwf) as Hnone.
  destruct (addProduct_shape s data) as (id & next & -> & _ & _ & Hid).
  specialize (Hid Hfresh). subst id.
  cbn [fst]. intros key y. unfold ProductService.getProduct, Invariant.filed in *.
  cbn [ProductService.products ProductService.updateIndexes
       ProductService.with_products ProductService.with_next
       ProductService.categoryIndex ProductService.brandIndex].
  change (Product.productId (Product.new (ProductService.nextProductId s) data))
    with (ProductService.nextProductId s).
  split; intros H; apply file_In in H; destruct H as [[-> ->]|H].
  - eexists. rewrite (map_get_set_eq _ Z.eqb_eq). split; reflexivity.
  - destruct (proj1 (Hs key y) H) as (p & G & E). exists p. split; [|exact E].
    rewrite (map_get_set_ne _ Z.eqb_eq); [exact G|].
    intros ->. unfold ProductService.getProduct in *. congruence.
  - eexists. rewrite (map_get_set_eq _ Z.eqb_eq). split; reflexivity.
  - destruct (proj2 (Hs key y) H) as (p & G & E). exists p. split; [|exact E].
    rewrite (map_get_set_ne _ Z.eqb_eq); [exact G|].
    intros ->. unfold ProductService.getProduct in *. congruence.
Qed.

Lemma addProduct_soundKeywords (s : ProductService.t) (data : Product.Data) :
  Invariant.wellFormed s ->
  ProductService.truthyId (Product.d_productId data) = None ->
  Invariant.soundKeywords s ->
  Invariant.soundKeywords (fst (ProductService.addProduct s data)).
Proof.
  intros Hwf Hfresh Hs. pose proof (fresh_id Hwf) as Hnone.
  destruct (addProduct_shape s data) as (id & next & -> & _ & _ & Hid).
  specialize (Hid Hfresh). subst id.
  cbn [fst]. intros key y. unfold ProductService.getProduct, Invariant.filed in *.
  cbn [ProductService.products ProductService.updateIndexes
       ProductService.with_products ProductService.with_next
       ProductService.keywordIndex].
  change (Product.productId (Product.new (ProductService.nextProductId s) data))
    with (ProductService.nextProductId s).
  intros H. apply files_In in H. destruct H as [[Hin ->]|H].
  - eexists. rewrite (map_get_set_eq _ Z.eqb_eq). split; [reflexivity|exact Hin].
  - destruct (Hs key y H) as (p & G & E). exists p. split; [|exact E].
    rewrite (map_get_set_ne _ Z.eqb_eq); [exact G|].
    intros ->. unfold ProductService.getProduct in *. congruence.
Qed.

Lemma updateProductMetadata_soundAttributes (s : ProductService.t) (id : Z)
      (metadata : Product.Metadata) :
  Invariant.wellFormed s ->
  Invariant.soundAttributes s ->
  Invariant.soundAttributes
    (fst (ProductService.updateProductMetadata s id metadata)).
Proof.
  intros Hwf Hs. pose proof Hwf as [Hk Hkeyed Hnext Hci Hbi Hkwi].
  unfold ProductService.updateProductMetadata.
  destruct (JsMap.get Z.eqb (ProductService.products s) id)
    as [product|] eqn:G; [|exact Hs].
  pose proof (Hkeyed _ _ (map_get_In _ Z.eqb_eq _ _ G)) as Hid.
  cbn [fst]. intros key y. unfold ProductService.getProduct, Invariant.filed in *.
  cbn [ProductService.products ProductService.updateIndexes
       ProductService.removeFromIndexes
       ProductService.with_products ProductService.with_next
       ProductService.categoryIndex ProductService.brandIndex].
  cbn [Product.productId Product.category Product.brand
       Product.updateSearchText Product.with_search Product.with_metadata].
  rewrite Hid.
  split; intros H; apply file_In in H; destruct H as [[-> ->]|H].
  - eexists. rewrite (map_get_set_eq _ Z.eqb_eq). split; reflexivity.
  - apply unfile_In in H; [|apply Hci]. destruct H as [H _].
    destruct (proj1 (Hs key y) H) as (p & G' & E).
    destruct (Z.eq_dec y id) as [->|Hne].
    + eexists. rewrite (map_get_set_eq _ Z.eqb_eq). split; [reflexivity|].
      unfold ProductService.getProduct in G'. rewrite E. cbn. congruence.
    + exists p. rewrite (map_get_set_ne _ Z.eqb_eq) by exact Hne. tauto.
  - eexists. rewrite (map_get_set_eq _ Z.eqb_eq). split; reflexivity.
  - apply unfile_In in H; [|apply Hbi]. destruct H as [H _].
    destruct (proj2 (Hs key y) H) as (p & G' & E).
    destruct (Z.eq_dec y id) as [->|Hne].
    + eexists. rewrite (map_get_set_eq _ Z.eqb_eq). split; [reflexivity|].
      unfold ProductService.getProduct in G'. rewrite E. cbn. congruence.
    + exists p. rewrite (map_get_set_ne _ Z.eqb_eq) by exact Hne. tauto.
Qed.

Lemma deleteProduct_soundAttributes (s : ProductService.t) (id : Z) :
  Invariant.wellFormed s ->
  Invariant.soundAttributes s ->
  Invariant.soundAttributes (fst (ProductService.deleteProduct s id)).
Proof.
  intros Hwf Hs. pose proof Hwf as [Hk Hkeyed Hnext Hci Hbi Hkwi].
  unfold ProductService.deleteProduct.
  destruct (JsMap.get Z.eqb (ProductService.products s) id)
    as [product|] eqn:G; [|exact Hs].
  pose proof (Hkeyed _ _ (map_get_In _ Z.eqb_eq _ _ G)) as Hid.
  cbn [fst]. intros key y. unfold ProductService.getProduct, Invariant.filed in *.
  cbn [ProductService.products ProductService.removeFromIndexes
       ProductService.with_products
       ProductService.categoryIndex ProductService.brandIndex].
  rewrite Hid.
  split; intros H; (apply unfile_In in H; [|assumption || apply Hci || apply Hbi]);
    destruct H as [H Hno].
  - destruct (proj1 (Hs key y) H) as (p & G' & E). exists p. split; [|exact E].
    rewrite (map_get_delete_ne _ Z.eqb_eq); [exact G'|].
    intros ->. apply Hno. split; [|reflexivity].
    unfold ProductService.getProduct in G'. congruence.
  - destruct (proj2 (Hs key y) H) as (p & G' & E). exists p. split; [|exact E].
    rewrite (map_get_delete_ne _ Z.eqb_eq); [exact G'|].
    intros ->. apply Hno. split; [|reflexivity].
    unfold ProductService.getProduct in G'. congruence.
Qed.

Lemma deleteProduct_soundKeywords (s : ProductService.t) (id : Z) :
  Invariant.wellFormed s ->
  Invariant.soundKeywords s ->
  Invariant.soundKeywords (fst (ProductService.deleteProduct s id)).
Proof.
  intros Hwf Hs. pose proof Hwf as [Hk Hkeyed Hnext Hci Hbi Hkwi].
  unfold ProductService.deleteProduct.
  destruct (JsMap.get Z.eqb (ProductService.products s) id)
    as [product|] eqn:G; [|exact Hs].
  pose proof (Hkeyed _ _ (map_get_In _ Z.eqb_eq _ _ G)) as Hid.
  cbn [fst]. intros key y. unfold ProductService.getProduct, Invariant.filed in *.
  cbn [ProductService.products ProductService.removeFromIndexes
       ProductService.with_products ProductService.keywordIndex].
  rewrite Hid. intros H. apply unfiles_In in H; [|exact Hkwi].
  destruct H as [H Hno].
  destruct (Hs key y H) as (p & G' & E). exists p. split; [|exact E].
  rewrite (map_get_delete_ne _ Z.eqb_eq); [exact G'|].
  intros ->. apply Hno. split; [|reflexivity].
  unfold ProductService.getProduct in G'. congruence.
Qed.

Lemma call_soundAttributes (s : ProductService.t) (c : Invariant.Call) :
  Invariant.freshCall c = true ->
  Invariant.wellFormed s -> Invariant.soundAttributes s ->
  Invariant.soundAttributes (Invariant.call s c).
Proof.
  intros Hc Hwf H. destruct c as [data|id metadata|id|]; simpl in *.
  - apply addProduct_soundAttributes; try assumption.
    destruct (ProductService.truthyId (Product.d_productId data));
      [discriminate|reflexivity].
  - apply updateProductMetadata_soundAttributes; assumption.
  - apply deleteProduct_soundAttributes; assumption.
  - apply sound_empty.
Qed.

Lemma call_soundKeywords (s : ProductService.t) (c : Invariant.Call) :
  Invariant.plainCall c = true ->
  Invariant.wellFormed s -> Invariant.soundKeywords s ->
  Invariant.soundKeywords (Invariant.call s c).
Proof.
  intros Hc Hwf H. destruct c as [data|id metadata|id|]; simpl in *.
  - apply addProduct_soundKeywords; try assumption.
    destruct (ProductService.truthyId (Product.d_productId data));
      [discriminate|reflexivity].
  - discriminate.
  - apply deleteProduct_soundKeywords; assumption.
  - apply sound_empty.
Qed.

Lemma plain_fresh (c : Invariant.Call) :
  Invariant.plainCall c = true -> Invariant.freshCall c = true.
Proof. destruct c; simpl; congruence. Qed.

Lemma after_soundAttributes (calls : list Invariant.Call) :
  forallb Invariant.freshCall calls = true ->
  Invariant.soundAttributes (Invariant.after calls).
Proof.
  induction calls as [|c calls IH] using rev_ind; intros H.
  - apply sound_empty.
  - rewrite forallb_app in H. simpl in H.
    apply andb_true_iff in H. destruct H as [H1 H2].
    apply andb_true_iff in H2. destruct H2 as [H2 _].
    rewrite after_snoc. apply call_soundAttributes;
      [exact H2|apply after_wellFormed|apply IH; exact H1].
Qed.

Lemma after_soundKeywords (calls : list Invariant.Call) :
  forallb Invariant.plainCall calls = true ->
  Invariant.soundKeywords (Invariant.after calls).
Proof.
  induction calls as [|c calls IH] using rev_ind; intros H.
  - apply sound_empty.
  - rewrite forallb_app in H. simpl in H.
    apply andb_true_iff in H. destruct H as [H1 H2].
    apply andb_true_iff in H2. destruct H2 as [H2 _].
    rewrite after_snoc. apply call_soundKeywords;
      [exact H2|apply after_wellFormed|apply IH; exact H1].
Qed.

Lemma after_exact (calls : list Invariant.Call) :
  forallb Invariant.plainCall calls = true ->
  Invariant.exact (Invariant.after calls).
Proof.
  intros H. split; [apply after_complete|].
  split; [|apply after_soundKeywords; exact H].
  apply after_soundAttributes.
  apply forallb_forall. intros c Hc. apply plain_fresh.
  exact (proj1 (forallb_forall _ _) H c Hc).
Qed.

End CatalogInvariants.

Section Catalog.

Lemma lookupAll_In (s : ProductService.t) (l : list Z) (p : Product.t) :
  In p (ProductService.lookupAll s l)
  <-> exists id, In id l /\ ProductService.getProduct s id = Some p.
Proof.
  induction l as [|id l IH]; simpl.
  - split; [intros []|intros (id & [] & _)].
  - destruct (ProductService.getProduct s id) as [q|] eqn:G; simpl;
      rewrite IH; split.
    + intros [->|(id' & Hin & G')]; [exists id; tauto|exists id'; tauto].
    + intros (id' & [->|Hin] & G'); [left; congruence|right; exists id'; tauto].
    + intros (id' & Hin & G'). exists id'. tauto.
    + intros (id' & [->|Hin] & G'); [congruence|exists id'; tauto].
Qed.

Lemma live_keyed (s : ProductService.t) (id : Z) (p : Product.t) :
  Invariant.wellFormed s ->
  ProductService.getProduct s id = Some p -> Product.productId p = id.
Proof.
  intros Hwf G. apply (map_get_In _ Z.eqb_eq) in G.
  exact (Invariant.keyed Hwf _ _ G).
Qed.

Lemma live_In (s : ProductService.t) (p : Product.t) :
  Invariant.wellFormed s ->
  In p (ProductService.getAllProductsUnpaginated s)
  <-> ProductService.getProduct s (Product.productId p) = Some p.
Proof.
  intros Hwf. unfold ProductService.getAllProductsUnpaginated.
  rewrite map_values_In. split.
  - intros (k & Hin). rewrite (Invariant.keyed Hwf _ _ Hin).
    apply (map_In_get _ Z.eqb_eq); [apply Hwf|exact Hin].
  - intros G. apply (map_get_In _ Z.eqb_eq) in G. eexists. exact G.
Qed.

Lemma lookupAll_NoDup (s : ProductService.t) (l : list Z) :
  Invariant.wellFormed s -> NoDup l -> NoDup (ProductService.lookupAll s l).
Proof.
  intros Hwf. induction l as [|id l IH]; intros Hnd; simpl; [constructor|].
  inversion Hnd as [|a l' Hnotin Hnd']; subst.
  destruct (ProductService.getProduct s id) as [p|] eqn:G; [|apply IH; exact Hnd'].
  constructor; [|apply IH; exact Hnd'].
  intros Hin. apply lookupAll_In in Hin. destruct Hin as (id' & Hin & G').
  apply Hnotin. rewrite <- (@live_keyed _ _ _ Hwf G), (@live_keyed _ _ _ Hwf G'). exact Hin.
Qed.

Lemma lookup_In (s : ProductService.t) (index : ProductService.Index)
      (key : string) (p : Product.t) :
  Invariant.wellFormed s ->
  In p (ProductService.lookupAll s (ProductService.ids index key))
  <-> In p (ProductService.getAllProductsUnpaginated s)
      /\ Invariant.filed index key (Product.productId p).
Proof.
  intros Hwf. rewrite lookupAll_In, (@live_In _ _ Hwf). unfold Invariant.filed.
  split.
  - intros (id & Hin & G). rewrite (@live_keyed _ _ _ Hwf G). tauto.
  - intros [G Hin]. eexists. split; [exact Hin|exact G].
Qed.

(** Whatever calls were made on the service, every product of the
    catalog is stored under its own identifier, once; every identifier in
    use is below [nextProductId], so that an identifier the service hands
    out is never one in use; and no index holds a key twice, an identifier
    twice under a key, or an empty bucket. *)
Theorem catalog_well_formed (calls : list Invariant.Call) :
  Invariant.wellFormed (Invariant.after calls).
Proof. apply after_wellFormed. Qed.

(** Nothing is ever missing from the indexes: whatever calls were
    made, a product of the catalog is found by a lookup of its category,
    by a lookup of its brand, and by a lookup of any of its keywords,
    whatever the case of the letters in the key. *)
Theorem lookup_finds (calls : list Invariant.Call) (p : Product.t) :
  In p (ProductService.getAllProductsUnpaginated (Invariant.after calls)) ->
  In p (ProductService.getProductsByCategory (Invariant.after calls)
          (Product.category p))
  /\ In p (ProductService.getProductsByBrand (Invariant.after calls)
             (Product.brand p))
  /\ forall keyword,
       In (Js.toLowerCase keyword) (Product.searchKeywords p) ->
       In p (ProductService.getProductsByKeyword (Invariant.after calls)
               keyword).
Proof.
  intros Hin. pose proof (after_wellFormed calls) as Hwf.
  pose proof (proj1 (@live_In _ _ Hwf) Hin) as G.
  destruct (@after_complete calls _ _ G) as (H1 & H2 & H3).
  unfold ProductService.getProductsByCategory,
    ProductService.getProductsByBrand, ProductService.getProductsByKeyword.
  repeat split; try intros keyword Hk; apply (@lookup_In _ _ _ _ Hwf);
    (split; [exact Hin|]); auto.
Qed.

Lemma lookup_finds_witness :
  In Cases.blueCover
     (ProductService.getAllProductsUnpaginated (Invariant.after Cases.restyled))
  /\ In Cases.blueCover
        (ProductService.getProductsByCategory (Invariant.after Cases.restyled)
           (Product.category Cases.blueCover))
  /\ In Cases.blueCover
        (ProductService.getProductsByBrand (Invariant.after Cases.restyled)
           (Product.brand Cases.blueCover))
  /\ forall keyword,
       In (Js.toLowerCase keyword) (Product.searchKeywords Cases.blueCover) ->
       In Cases.blueCover
          (ProductService.getProductsByKeyword (Invariant.after Cases.restyled)
             keyword).
Proof.
  assert (In Cases.blueCover
             (ProductService.getAllProductsUnpaginated
                (Invariant.after Cases.restyled))) as H.
  { vm_compute. tauto. }
  split; [exact H|]. exact (@lookup_finds Cases.restyled Cases.blueCover H).
Defined.

(** As long as products are created without an identifier of the
    caller's choice and no metadata is updated, the keyword index mirrors
    the catalog: a lookup by keyword returns the products of the catalog
    that have the keyword (in lower case) among their keywords, and
    nothing else. *)
Theorem lookup_exact (calls : list Invariant.Call) (keyword : string)
        (p : Product.t) :
  forallb Invariant.plainCall calls = true ->
  In p (ProductService.getProductsByKeyword (Invariant.after calls) keyword)
  <-> In p (ProductService.getAllProductsUnpaginated (Invariant.after calls))
      /\ In (Js.toLowerCase keyword) (Product.searchKeywords p).
Proof.
  intros Hplain. pose proof (after_wellFormed calls) as Hwf.
  destruct (after_exact calls Hplain) as (Hc & _ & Hs).
  unfold ProductService.getProductsByKeyword.
  rewrite (@lookup_In _ _ _ _ Hwf). split; intros [Hin H]; (split; [exact Hin|]).
  - destruct (Hs _ _ H) as (q & G & Hk).
    apply (@live_In _ _ Hwf) in Hin. congruence.
  - apply (@live_In _ _ Hwf) in Hin. apply (Hc _ _ Hin). exact H.
Qed.

Lemma lookup_exact_witness :
  forallb Invariant.plainCall Cases.shop = true
  /\ forall p,
       In p (ProductService.getProductsByKeyword (Invariant.after Cases.shop)
               "Cover")
       <-> In p (ProductService.getAllProductsUnpaginated
                   (Invariant.after Cases.shop))
           /\ In (Js.toLowerCase "Cover") (Product.searchKeywords p).
Proof.
  split; [reflexivity|]. intros p.
  apply (@lookup_exact Cases.shop "Cover" p). reflexivity.
Defined.

(** As long as products are created without an identifier of the
    caller's choice, the category and brand indexes mirror the catalog,
    metadata updates included: a lookup by category (by brand) returns the
    products of the catalog whose category (brand) is the key up to the
    case of letters, and nothing else. *)
Theorem lookup_attributes (calls : list Invariant.Call) (key : string)
        (p : Product.t) :
  forallb Invariant.freshCall calls = true ->
  (In p (ProductService.getProductsByCategory (Invariant.after calls) key)
   <-> In p (ProductService.getAllProductsUnpaginated (Invariant.after calls))
       /\ Js.toLowerCase key = Js.toLowerCase (Product.category p))
  /\ (In p (ProductService.getProductsByBrand (Invariant.after calls) key)
      <-> In p (ProductService.getAllProductsUnpaginated
                  (Invariant.after calls))
          /\ Js.toLowerCase key = Js.toLowerCase (Product.brand p)).
Proof.
  intros Hfresh. pose proof (after_wellFormed calls) as Hwf.
  pose proof (after_complete calls) as Hc.
  pose proof (after_soundAttributes calls Hfresh) as Hs.
  unfold ProductService.getProductsByCategory,
    ProductService.getProductsByBrand.
  rewrite !(@lookup_In _ _ _ _ Hwf).
  split; split; intros [Hin H]; (split; [exact Hin|]).
  - destruct (proj1 (Hs _ _) H) as (q & G & Hk).
    apply (@live_In _ _ Hwf) in Hin. congruence.
  - apply (@live_In _ _ Hwf) in Hin. rewrite H. apply (Hc _ _ Hin).
  - destruct (proj2 (Hs _ _) H) as (q & G & Hk).
    apply (@live_In _ _ Hwf) in Hin. congruence.
  - apply (@live_In _ _ Hwf) in Hin. rewrite H. apply (Hc _ _ Hin).
Qed.

Lemma lookup_attributes_witness :
  forallb Invariant.freshCall Cases.restyled = true
  /\ forall p,
       In p (ProductService.getProductsByBrand
               (Invariant.after Cases.restyled) "APPLE")
       <-> In p (ProductService.getAllProductsUnpaginated
                   (Invariant.after Cases.restyled))
           /\ Js.toLowerCase "APPLE" = Js.toLowerCase (Product.brand p).
Proof.
  split; [reflexivity|]. intros p.
  apply (@lookup_attributes Cases.restyled "APPLE" p). reflexivity.
Defined.

(** Whatever calls were made, a lookup by category, brand or keyword
    lists no product twice. *)
Theorem lookup_distinct (calls : list Invariant.Call) (key : string) :
  NoDup (ProductService.getProductsByCategory (Invariant.after calls) key)
  /\ NoDup (ProductService.getProductsByBrand (Invariant.after calls) key)
  /\ NoDup (ProductService.getProductsByKeyword (Invariant.after calls) key).
Proof.
  pose proof (after_wellFormed calls) as Hwf.
  unfold ProductService.getProductsByCategory,
    ProductService.getProductsByBrand, ProductService.getProductsByKeyword.
  repeat split; apply lookupAll_NoDup; try exact Hwf;
    apply bucket_NoDup; apply Hwf.
Qed.

Lemma map_set_length (K V : Type) (eqb : K -> K -> bool) (m : list (K * V))
      (k : K) (v : V) :
  length (JsMap.set eqb m k v)
  = if JsMap.has eqb m k then length m else S (length m).
Proof.
  rewrite <- (length_map fst (JsMap.set eqb m k v)), map_keys_set.
  destruct (JsMap.has eqb m k); [apply length_map|].
  rewrite length_app, length_map. simpl. lia.
Qed.

Lemma map_delete_length (K V : Type) (eqb : K -> K -> bool)
      (m : list (K * V)) (k : K) :
  JsMap.has eqb m k = true ->
  S (length (JsMap.delete eqb m k)) = length m.
Proof.
  unfold JsMap.has. induction m as [|[k0 v0] m IH]; simpl; [discriminate|].
  destruct (eqb k k0); simpl; [reflexivity|].
  intros H. rewrite IH by exact H. reflexivity.
Qed.

(** [addProduct] stores what it returns: the returned product is the
    one [getProduct] gives for its identifier afterwards, and the product
    under any other identifier is what it was. *)
Theorem addProduct_getProduct (s : ProductService.t) (data : Product.Data) :
  let s' := fst (ProductService.addProduct s data) in
  let p := snd (ProductService.addProduct s data) in
  ProductService.getProduct s' (Product.productId p) = Some p
  /\ forall id,
       id <> Product.productId p ->
       ProductService.getProduct s' id = ProductService.getProduct s id.
Proof.
  destruct (addProduct_shape s data) as (id & next & -> & _).
  cbn [fst snd]. unfold ProductService.getProduct.
  cbn [ProductService.products ProductService.updateIndexes
       ProductService.with_products ProductService.with_next].
  change (Product.productId (Product.new id data)) with id. split.
  - apply (map_get_set_eq _ Z.eqb_eq).
  - intros id' Hne. apply (map_get_set_ne _ Z.eqb_eq). exact Hne.
Qed.

(** When the data carries no identifier the service chooses one that
    is not in use, whatever calls were made before: no product is
    overwritten, the catalog grows by one, and the next identifier chosen
    will be a different one. *)
Theorem addProduct_fresh (calls : list Invariant.Call) (data : Product.Data) :
  ProductService.truthyId (Product.d_productId data) = None ->
  let s := Invariant.after calls in
  let s' := fst (ProductService.addProduct s data) in
  let p := snd (ProductService.addProduct s data) in
  ProductService.getProduct s (Product.productId p) = None
  /\ ProductService.getProductCount s' = S (ProductService.getProductCount s)
  /\ (Product.productId p < ProductService.nextProductId s')%Z.
Proof.
  intros Hfresh s. subst s.
  pose proof (after_wellFormed calls) as Hwf.
  pose proof (fresh_id Hwf) as Hnone.
  destruct (addProduct_shape (Invariant.after calls) data)
    as (id & next & -> & _ & Hlt & Hid).
  specialize (Hid Hfresh). subst id.
  cbn [fst snd]. unfold ProductService.getProductCount.
  cbn [ProductService.products ProductService.updateIndexes
       ProductService.with_products ProductService.with_next
       ProductService.nextProductId].
  change (Product.productId
            (Product.new (ProductService.nextProductId (Invariant.after calls))
               data))
    with (ProductService.nextProductId (Invariant.after calls)).
  split; [exact Hnone|]. split; [|exact Hlt].
  rewrite map_set_length. unfold JsMap.has.
  unfold ProductService.getProduct in Hnone. rewrite Hnone. reflexivity.
Qed.

Lemma addProduct_fresh_witness :
  ProductService.truthyId (Product.d_productId Cases.coverData) = None
  /\ ProductService.getProductCount
       (fst (ProductService.addProduct (Invariant.after Cases.restyled)
               Cases.coverData))
     = S (ProductService.getProductCount (Invariant.after Cases.restyled)).
Proof.
  split; [reflexivity|].
  apply (@addProduct_fresh Cases.restyled Cases.coverData). reflexivity.
Defined.

(** Deletion, whatever calls were made before: afterwards
    [getProduct] finds nothing under the identifier and what it finds
    under any other identifier is what it was; the call answers [true]
    exactly when there was such a product, and the catalog is then one
    product smaller; when there was none the service is left as it was. *)
Theorem deleteProduct_removes (calls : list Invariant.Call) (id : Z) :
  let s := Invariant.after calls in
  let s' := fst (ProductService.deleteProduct s id) in
  ProductService.getProduct s' id = None
  /\ (forall id', id' <> id ->
        ProductService.getProduct s' id' = ProductService.getProduct s id')
  /\ (snd (ProductService.deleteProduct s id) = true
      <-> ProductService.getProduct s id <> None)
  /\ (snd (ProductService.deleteProduct s id) = true ->
      S (ProductService.getProductCount s') = ProductService.getProductCount s)
  /\ (snd (ProductService.deleteProduct s id) = false -> s' = s).
Proof.
  intros s. subst s. pose proof (after_wellFormed calls) as Hwf.
  unfold ProductService.deleteProduct, ProductService.getProduct,
    ProductService.getProductCount.
  destruct (JsMap.get Z.eqb (ProductService.products (Invariant.after calls)) id)
    as [product|] eqn:G; cbn [fst snd].
  - cbn [ProductService.products ProductService.removeFromIndexes
         ProductService.with_products].
    split; [apply (map_get_delete_eq _ Z.eqb_eq); apply Hwf|].
    split; [intros id' Hne; apply (map_get_delete_ne _ Z.eqb_eq); exact Hne|].
    split; [split; [discriminate|reflexivity]|].
    split; [|discriminate].
    intros _. apply map_delete_length. unfold JsMap.has. rewrite G. reflexivity.
  - split; [exact G|]. split; [reflexivity|].
    split; [split; [discriminate|intros H; exfalso; apply H; reflexivity]|].
    split; [discriminate|reflexivity].
Qed.

(** After a deletion nothing of the product is left in the indexes,
    as long as products were created without an identifier of the caller's
    choice and no metadata was updated: the deleted identifier is filed
    under no category, brand or keyword. *)
Theorem deleteProduct_unfiles (calls : list Invariant.Call) (id : Z)
        (key : string) :
  forallb Invariant.plainCall calls = true ->
  let s' := fst (ProductService.deleteProduct (Invariant.after calls) id) in
  ~ In id (ProductService.ids (ProductService.categoryIndex s') key)
  /\ ~ In id (ProductService.ids (ProductService.brandIndex s') key)
  /\ ~ In id (ProductService.ids (ProductService.keywordIndex s') key).
Proof.
  intros Hplain s'.
  assert (forallb Invariant.plainCall (calls ++ [Invariant.Delete id])%list
          = true) as Hplain'.
  { rewrite forallb_app, Hplain. reflexivity. }
  destruct (after_exact _ Hplain') as (_ & Ha & Hk).
  assert (ProductService.getProduct s' id = None) as Hnone.
  { unfold s', ProductService.deleteProduct, ProductService.getProduct.
    destruct (JsMap.get Z.eqb
                (ProductService.products (Invariant.after calls)) id)
      as [product|] eqn:G; cbn [fst]; [|exact G].
    apply (map_get_delete_eq _ Z.eqb_eq). apply (after_wellFormed calls). }
  rewrite after_snoc in Ha, Hk. change (Invariant.call (Invariant.after calls)
    (Invariant.Delete id)) with s' in Ha, Hk.
  repeat split; intros Hin.
  - destruct (proj1 (Ha key id) Hin) as (p & G & _). congruence.
  - destruct (proj2 (Ha key id) Hin) as (p & G & _). congruence.
  - destruct (Hk key id Hin) as (p & G & _). congruence.
Qed.

Lemma deleteProduct_unfiles_witness :
  forallb Invariant.plainCall Cases.shop = true
  /\ ~ In 3%Z
       (ProductService.ids
          (ProductService.keywordIndex
             (fst (ProductService.deleteProduct (Invariant.after Cases.shop)
                     3%Z)))
          "cover").
Proof.
  split; [reflexivity|].
  apply (@deleteProduct_unfiles Cases.shop 3%Z "cover"). reflexivity.
Defined.

End Catalog.

(* ================================================================== *)
(** * Paging through the catalog                                      *)
(* ================================================================== *)

Section Pagination.

Lemma slice_nonneg (A : Type) (l : list A) (a b : Z) :
  (0 <= a)%Z -> (a <= b)%Z ->
  ProductService.slice l a b
  = firstn (Z.to_nat (b - a)) (skipn (Z.to_nat a) l).
Proof.
  intros Ha Hab. unfold ProductService.slice.
  destruct (Z.ltb_spec a 0) as [H|_]; [lia|].
  destruct (Z.ltb_spec b 0) as [H|_]; [lia|].
  destruct (Z_lt_le_dec a (Z.of_nat (length l))) as [Hlt|Hge].
  - rewrite (Z.min_l a) by lia.
    destruct (Z_le_gt_dec b (Z.of_nat (length l))) as [Hb|Hb].
    + rewrite (Z.min_l b) by lia. rewrite Z.max_l by lia. reflexivity.
    + rewrite (Z.min_r b) by lia. rewrite Z.max_l by lia.
      rewrite !firstn_all2; [reflexivity| |]; rewrite length_skipn; lia.
  - rewrite (Z.min_r a) by lia.
    rewrite !skipn_all2 by lia. rewrite !firstn_nil. reflexivity.
Qed.

Lemma firstn_skipn_add (A : Type) (a b : nat) (l : list A) :
  (firstn a l ++ firstn b (skipn a l))%list = firstn (a + b) l.
Proof.
  revert l. induction a as [|a IH]; intros l; [reflexivity|].
  destruct l as [|x l]; simpl.
  - rewrite firstn_nil. reflexivity.
  - rewrite IH. reflexivity.
Qed.

Lemma concat_pages (A : Type) (l : list A) (k m : nat) :
  concat (map (fun i => firstn k (skipn (i * k) l)) (seq 0 m))
  = firstn (m * k) l.
Proof.
  induction m as [|m IH]; [reflexivity|].
  rewrite seq_S, map_app, concat_app, IH. simpl.
  rewrite app_nil_r, firstn_skipn_add. f_equal. lia.
Qed.

Lemma ceiling_quotient (n limit : Z) :
  (0 < limit)%Z ->
  ((Qceiling (inject_Z n / inject_Z limit) - 1) * limit < n
   <= Qceiling (inject_Z n / inject_Z limit) * limit)%Z.
Proof.
  intros Hpos. destruct limit as [|p|p]; try lia.
  unfold Qceiling, Qfloor, Qdiv, Qmult, Qinv, Qopp, inject_Z. simpl.
  rewrite Z.mul_1_r.
  pose proof (Z.div_mod (- n) (Z.pos p) ltac:(lia)) as Hdm.
  pose proof (Z.mod_pos_bound (- n) (Z.pos p) ltac:(lia)) as Hb.
  nia.
Qed.

Lemma page_slice (s : ProductService.t) (i : nat) (limit : Z) :
  (1 <= limit)%Z ->
  ProductService.pageProducts
    (ProductService.getAllProducts s (Some (Z.of_nat i + 1)%Z) (Some limit))
  = firstn (Z.to_nat limit)
      (skipn (i * Z.to_nat limit)
         (ProductService.getAllProductsUnpaginated s)).
Proof.
  intros Hl. unfold ProductService.getAllProducts,
    ProductService.getAllProductsUnpaginated.
  cbn [ProductService.pageProducts].
  rewrite slice_nonneg by nia. f_equal; [f_equal; lia|].
  f_equal. nia.
Qed.

(** Paging ([getAllProducts] with a page size of at least one):
    [totalPages] is a whole number of pages; the pages 1 to [totalPages],
    one after the other, are the catalog in its order, so that every
    product is on exactly one of them; none of these pages is empty, none
    holds more than [limit] products, and every later page is empty. *)
Theorem getAllProducts_pages (s : ProductService.t) (limit : Z) :
  (1 <= limit)%Z ->
  exists pages : nat,
    (forall page,
        ProductService.totalPages
          (ProductService.getAllProducts s (Some page) (Some limit))
        = Some (Z.of_nat pages))
    /\ concat
         (map (fun i =>
                 ProductService.pageProducts
                   (ProductService.getAllProducts s
                      (Some (Z.of_nat i + 1)%Z) (Some limit)))
            (seq 0 pages))
       = ProductService.getAllProductsUnpaginated s
    /\ forall i,
         let products :=
           ProductService.pageProducts
             (ProductService.getAllProducts s
                (Some (Z.of_nat i + 1)%Z) (Some limit)) in
         (Z.of_nat (length products) <= limit)%Z
         /\ ((i < pages)%nat -> products <> [])
         /\ ((pages <= i)%nat -> products = []).
Proof.
  intros Hl.
  set (all := ProductService.getAllProductsUnpaginated s).
  pose proof (@ceiling_quotient (Z.of_nat (length all)) limit ltac:(lia))
    as Hc.
  set (c := Qceiling (inject_Z (Z.of_nat (length all)) / inject_Z limit)) in *.
  assert (0 <= c)%Z as Hc0 by nia.
  exists (Z.to_nat c). split; [|split].
  - intros page. unfold ProductService.getAllProducts.
    cbn [ProductService.totalPages].
    destruct (Z.eqb_spec limit 0) as [E|_]; [lia|].
    rewrite Z2Nat.id by exact Hc0. reflexivity.
  - rewrite (map_ext _ (fun i => firstn (Z.to_nat limit)
                                   (skipn (i * Z.to_nat limit) all)))
      by (intros i; apply page_slice; exact Hl).
    rewrite concat_pages. apply firstn_all2. nia.
  - intros i products. subst products. rewrite page_slice by exact Hl.
    fold all. split; [rewrite length_firstn; lia|]. split.
    + intros Hi Hnil. apply (f_equal (@length _)) in Hnil.
      rewrite length_firstn, length_skipn in Hnil. simpl in Hnil. nia.
    + intros Hi. rewrite skipn_all2 by nia. apply firstn_nil.
Qed.

Lemma getAllProducts_pages_witness :
  (1 <= 3)%Z
  /\ exists pages : nat,
       (forall page,
           ProductService.totalPages
             (ProductService.getAllProducts Samples.phones (Some page)
                (Some 3%Z))
           = Some (Z.of_nat pages))
       /\ concat
            (map (fun i =>
                    ProductService.pageProducts
                      (ProductService.getAllProducts Samples.phones
                         (Some (Z.of_nat i + 1)%Z) (Some 3%Z)))
               (seq 0 pages))
          = ProductService.getAllProductsUnpaginated Samples.phones
       /\ forall i,
            let products :=
              ProductService.pageProducts
                (ProductService.getAllProducts Samples.phones
                   (Some (Z.of_nat i + 1)%Z) (Some 3%Z)) in
            (Z.of_nat (length products) <= 3)%Z
            /\ ((i < pages)%nat -> products <> [])
            /\ ((pages <= i)%nat -> products = []).
Proof.
  split; [lia|]. apply (@getAllProducts_pages Samples.phones 3%Z). lia.
Defined.

End Pagination.

(* ================================================================== *)
(** * The keywords of a product                                       *)
(* ================================================================== *)

Section Keywords.

Lemma allChars_app (test : ascii -> bool) (a b : string) :
  Invariant.allChars test (a ++ b)
  = Invariant.allChars test a && Invariant.allChars test b.
Proof.
  induction a as [|c a IH]; simpl; [reflexivity|].
  rewrite IH, andb_assoc. reflexivity.
Qed.

Lemma allChars_weaken (P Q : ascii -> bool) (s : string) :
  (forall c, P c = true -> Q c = true) ->
  Invariant.allChars P s = true -> Invariant.allChars Q s = true.
Proof.
  intros H. induction s as [|c s IH]; simpl; [reflexivity|].
  intros E. apply andb_true_iff in E. destruct E as [E1 E2].
  rewrite (H _ E1), (IH E2). reflexivity.
Qed.

Lemma lower_char_lowered (c : ascii) :
  Js.in_range 65 90 (Js.lower_char c) = false.
Proof.
  destruct c as [b0 b1 b2 b3 b4 b5 b6 b7].
  destruct b0, b1, b2, b3, b4, b5, b6, b7; reflexivity.
Qed.

Lemma toLowerCase_lowered (s : string) :
  Invariant.allChars (fun c => negb (Js.in_range 65 90 c)) (Js.toLowerCase s)
  = true.
Proof.
  induction s as [|c s IH]; simpl; [reflexivity|].
  rewrite lower_char_lowered, IH. reflexivity.
Qed.

Lemma lowered_toLowerCase (s : string) :
  Invariant.allChars (fun c => negb (Js.in_range 65 90 c)) s = true ->
  Js.toLowerCase s = s.
Proof.
  induction s as [|c s IH]; simpl; [reflexivity|].
  intros E. apply andb_true_iff in E. destruct E as [E1 E2].
  rewrite (IH E2). unfold Js.lower_char.
  apply negb_true_iff in E1. rewrite E1. reflexivity.
Qed.

(** [\s+] matches wherever a whitespace character stands, and what it
    matches is not empty. *)
Lemma iterate_space_shrinks (fuel : nat) (p e : Regex.pos) :
  Regex.iterate (Regex.rmatch false (Regex.Chr Regex.CSpace))
    (fun e => Some e) fuel p = Some e ->
  (String.length (snd e) <= String.length (snd p))%nat.
Proof.
  assert (forall p k,
             Regex.rmatch false (Regex.Chr Regex.CSpace) p k
             = match snd p with
               | EmptyString => None
               | String x rest =>
                   if Js.is_space x then k (Some x, rest) else None
               end) as Hstep by reflexivity.
  remember (Regex.rmatch false (Regex.Chr Regex.CSpace)) as step eqn:Estep.
  clear Estep. revert p.
  induction fuel as [|fuel IH]; intros p; cbn [Regex.iterate].
  - intros E. injection E as <-. lia.
  - rewrite Hstep. destruct p as [prev s]. cbn [snd].
    destruct s as [|x rest].
    + intros E. injection E as <-. simpl. lia.
    + destruct (Js.is_space x).
      * cbn [snd String.length].
        rewrite (proj2 (Nat.ltb_lt _ _)) by lia.
        destruct (Regex.iterate step (fun e => Some e) fuel (Some x, rest))
          as [e'|] eqn:E'.
        -- intros E. injection E as <-. apply IH in E'. simpl in E'. lia.
        -- intros E. injection E as <-. simpl. lia.
      * intros E. injection E as <-. simpl. lia.
Qed.

Lemma spaces_match (prev : option ascii) (c : ascii) (s : string) :
  match Regex.match_at false Regex.spaces (prev, String c s) with
  | Some e =>
      Js.is_space c = true
      /\ exists n, String.length (Regex.consumed (String c s) e) = S n
  | None => Js.is_space c = false
  end.
Proof.
  assert (Regex.match_at false Regex.spaces (prev, String c s)
          = if Js.is_space c
            then Regex.iterate (Regex.rmatch false (Regex.Chr Regex.CSpace))
                   (fun e => Some e) (String.length s) (Some c, s)
            else None) as -> by reflexivity.
  destruct (Js.is_space c); [|reflexivity].
  destruct (Regex.iterate (Regex.rmatch false (Regex.Chr Regex.CSpace))
              (fun e => Some e) (String.length s) (Some c, s))
    as [e|] eqn:E.
  - split; [reflexivity|]. apply iterate_space_shrinks in E. simpl in E.
    unfold Regex.consumed.
    destruct (String.length (String c s) - String.length (snd e))%nat
      as [|n] eqn:En;
      [change (String.length (String c s)) with (S (String.length s)) in En;
       lia|].
    simpl. eexists. reflexivity.
  - exfalso. revert E. generalize (String.length s).
    generalize (Some c, s). intros p fuel.
    destruct fuel as [|fuel]; cbn [Regex.iterate]; [discriminate|].
    match goal with |- match ?x with _ => _ end = _ -> _ => destruct x end;
      discriminate.
Qed.

(** The pieces of a split at whitespace hold no whitespace, and nothing
    that the subject does not hold. *)
Lemma split_scan_spaces (Q : ascii -> bool) (s piece : string)
      (prev : option ascii) (skip : nat) :
  Invariant.allChars (fun c => Q c && negb (Js.is_space c)) piece = true ->
  Invariant.allChars Q s = true ->
  Forall (fun w =>
            Invariant.allChars (fun c => Q c && negb (Js.is_space c)) w = true)
    (Regex.split_scan false Regex.spaces piece prev skip s).
Proof.
  revert piece prev skip.
  induction s as [|c s IH]; intros piece prev skip Hp Hs.
  - simpl. constructor; [exact Hp|constructor].
  - simpl in Hs. apply andb_true_iff in Hs. destruct Hs as [Hc Hs].
    cbn [Regex.split_scan]. destruct skip as [|skip]; [|apply IH; assumption].
    pose proof (spaces_match prev c s) as Hm.
    destruct (Regex.match_at false Regex.spaces (prev, String c s)) as [e|].
    + destruct Hm as [_ [n ->]].
      constructor; [exact Hp|]. apply IH; [reflexivity|exact Hs].
    + apply IH; [|exact Hs]. rewrite allChars_app, Hp. simpl.
      rewrite Hc, Hm. reflexivity.
Qed.

Lemma split_spaces (Q : ascii -> bool) (s : string) :
  Invariant.allChars Q s = true ->
  Forall (fun w =>
            Invariant.allChars (fun c => Q c && negb (Js.is_space c)) w = true)
    (Regex.split false Regex.spaces s).
Proof.
  intros Hs. unfold Regex.split. destruct s as [|c s].
  - destruct (Regex.match_at false Regex.spaces (None, ""));
      repeat constructor.
  - apply split_scan_spaces; [reflexivity|exact Hs].
Qed.

(** Replacing what is neither a word character nor whitespace leaves
    word characters, whitespace and the replacement. *)
Lemma replaceAll_scan_punctuation (Q : ascii -> bool) (by_ s : string)
      (prev : option ascii) (skip : nat) :
  Invariant.allChars (fun c => Q c && (Js.is_word c || Js.is_space c)) by_
  = true ->
  Invariant.allChars Q s = true ->
  Invariant.allChars (fun c => Q c && (Js.is_word c || Js.is_space c))
    (Regex.replaceAll_scan false (Regex.Chr Regex.CNotWordSpace) by_ prev
       skip s) = true.
Proof.
  intros Hby. revert prev skip.
  induction s as [|c s IH]; intros prev skip Hs.
  - destruct skip; simpl; [|reflexivity].
    unfold Regex.match_at. simpl. reflexivity.
  - simpl in Hs. apply andb_true_iff in Hs. destruct Hs as [Hc Hs].
    cbn [Regex.replaceAll_scan]. destruct skip as [|skip]; [|apply IH; exact Hs].
    unfold Regex.match_at. cbn [Regex.rmatch snd Regex.cmatch].
    destruct (Js.is_word c || Js.is_space c) eqn:Hw; cbn [negb].
    + simpl. rewrite Hc, Hw. simpl. apply IH. exact Hs.
    + rewrite allChars_app, Hby. simpl. unfold Regex.consumed. simpl snd.
      destruct (String.length (String c s) - String.length s)%nat
        as [|n] eqn:En;
      [change (String.length (String c s)) with (S (String.length s)) in En;
       lia|].
      simpl. apply IH. exact Hs.
Qed.

Lemma dedup_In (l seen : list string) (x : string) :
  In x (Product.dedup seen l) -> In x l /\ Js.mem x seen = false.
Proof.
  revert seen. induction l as [|y l IH]; intros seen; simpl; [tauto|].
  destruct (Js.mem y seen) eqn:E.
  - intros H. destruct (IH _ H). tauto.
  - simpl. intros [->|H]; [tauto|].
    destruct (IH _ H) as [H1 H2]. split; [tauto|].
    simpl in H2. apply orb_false_iff in H2. tauto.
Qed.

Lemma dedup_NoDup (l seen : list string) : NoDup (Product.dedup seen l).
Proof.
  revert seen. induction l as [|y l IH]; intros seen; simpl; [constructor|].
  destruct (Js.mem y seen); [apply IH|].
  constructor; [|apply IH].
  intros H. apply dedup_In in H. destruct H as [_ H].
  simpl in H. rewrite String.eqb_refl in H. discriminate.
Qed.

Lemma keywordChar_spec (c : ascii) :
  negb (Js.in_range 65 90 c) && (Js.is_word c || Js.is_space c)
  && negb (Js.is_space c) = true ->
  Invariant.keywordChar c = true.
Proof.
  unfold Invariant.keywordChar, Js.is_word.
  destruct (Js.in_range 65 90 c), (Js.in_range 97 122 c), (Js.is_digit c),
    (Js.code c =? 95)%N, (Js.is_space c); simpl; congruence.
Qed.

Lemma keywordChar_lowered (k : string) :
  Invariant.allChars Invariant.keywordChar k = true -> Js.toLowerCase k = k.
Proof.
  intros H. apply lowered_toLowerCase. revert H. apply allChars_weaken.
  intros c. destruct c as [b0 b1 b2 b3 b4 b5 b6 b7].
  destruct b0, b1, b2, b3, b4, b5, b6, b7; vm_compute; congruence.
Qed.

(** What [extractKeywords] returns for a text in lower case. *)
Lemma extractKeywords_spec (text : string) :
  NoDup (Product.extractKeywords (Js.toLowerCase text))
  /\ forall k,
       In k (Product.extractKeywords (Js.toLowerCase text)) ->
       Invariant.allChars Invariant.keywordChar k = true
       /\ ((2 < String.length k)%nat
           \/ Regex.test false Regex.all_digits k = true).
Proof.
  unfold Product.extractKeywords. split; [apply dedup_NoDup|].
  intros k Hin. apply dedup_In in Hin. destruct Hin as [Hin _].
  apply filter_In in Hin. destruct Hin as [Hin Hlen]. split.
  - pose proof (toLowerCase_lowered text) as Hl.
    pose proof (@replaceAll_scan_punctuation
                  (fun c => negb (Js.in_range 65 90 c)) " " _ None 0
                  eq_refl Hl) as Hr.
    pose proof (@split_spaces _ _ Hr) as Hsp.
    rewrite Forall_forall in Hsp. specialize (Hsp _ Hin).
    revert Hsp. apply allChars_weaken. intros c. apply keywordChar_spec.
  - apply orb_true_iff in Hlen. destruct Hlen as [H|H]; [left|right; exact H].
    apply Nat.ltb_lt in H. exact H.
Qed.

Lemma call_indexed (s : ProductService.t) (c : Invariant.Call) :
  (forall id p, In (id, p) (ProductService.products s) ->
                exists q, p = Product.updateSearchText q) ->
  forall id p, In (id, p) (ProductService.products (Invariant.call s c)) ->
               exists q, p = Product.updateSearchText q.
Proof.
  intros H id p. destruct c as [data|id' metadata|id'|]; simpl.
  - destruct (addProduct_shape s data) as (id0 & next & -> & _).
    cbn [fst ProductService.products ProductService.updateIndexes
         ProductService.with_products].
    intros Hin. apply (map_In_set _ Z.eqb_eq) in Hin.
    destruct Hin as [E|Hin]; [|exact (H _ _ Hin)].
    injection E as -> ->. unfold Product.new. eexists. reflexivity.
  - unfold ProductService.updateProductMetadata.
    destruct (JsMap.get Z.eqb (ProductService.products s) id');
      [|apply H].
    cbn [fst ProductService.products ProductService.updateIndexes
         ProductService.removeFromIndexes ProductService.with_products].
    intros Hin. apply (map_In_set _ Z.eqb_eq) in Hin.
    destruct Hin as [E|Hin]; [|exact (H _ _ Hin)].
    injection E as -> ->. eexists. reflexivity.
  - unfold ProductService.deleteProduct.
    destruct (JsMap.get Z.eqb (ProductService.products s) id');
      [|apply H].
    cbn [fst ProductService.products ProductService.removeFromIndexes
         ProductService.with_products].
    intros Hin. apply map_In_delete in Hin. exact (H _ _ Hin).
  - intros [].
Qed.

Lemma after_indexed (calls : list Invariant.Call) (id : Z) (p : Product.t) :
  In (id, p) (ProductService.products (Invariant.after calls)) ->
  exists q, p = Product.updateSearchText q.
Proof.
  revert id p. induction calls as [|c calls IH] using rev_ind.
  - intros id p [].
  - rewrite after_snoc. apply call_indexed. exact IH.
Qed.

(** The keywords of a product of the catalog, whatever calls were
    made: no keyword is listed twice; a keyword is made of lower-case
    letters, digits and underscores only, and is longer than two
    characters or a run of digits; a lookup by any of the keywords finds
    the product; and the search text of the product is in lower case. *)
Theorem keywords_shape (calls : list Invariant.Call) (p : Product.t) :
  In p (ProductService.getAllProductsUnpaginated (Invariant.after calls)) ->
  NoDup (Product.searchKeywords p)
  /\ (forall k,
        In k (Product.searchKeywords p) ->
        Invariant.allChars Invariant.keywordChar k = true
        /\ ((2 < String.length k)%nat
            \/ Regex.test false Regex.all_digits k = true)
        /\ In p (ProductService.getProductsByKeyword (Invariant.after calls)
                   k))
  /\ Js.toLowerCase (Product.searchText p) = Product.searchText p.
Proof.
  intros Hin. pose proof (after_wellFormed calls) as Hwf.
  pose proof (proj1 (@live_In _ _ Hwf) Hin) as G.
  destruct (@after_complete calls _ _ G) as (_ & _ & Hfiled).
  apply (map_get_In _ Z.eqb_eq) in G. apply after_indexed in G.
  destruct G as [q ->].
  unfold Product.updateSearchText in *.
  cbn [Product.searchKeywords Product.searchText Product.with_search] in *.
  destruct (extractKeywords_spec
              (Js.join " "
                 ([Product.title q; Product.description q; Product.brand q;
                   Product.category q] ++ Product.stringValues
                                            (Product.metadata q))%list))
    as [Hnd Hk].
  split; [exact Hnd|]. split.
  - intros k Hkin. destruct (Hk _ Hkin) as [Hchars Hlen].
    split; [exact Hchars|]. split; [exact Hlen|].
    unfold ProductService.getProductsByKeyword.
    apply (@lookup_In _ _ _ _ Hwf). split; [exact Hin|].
    rewrite (keywordChar_lowered _ Hchars). apply Hfiled. exact Hkin.
  - apply lowered_toLowerCase, toLowerCase_lowered.
Qed.

Lemma keywords_shape_witness :
  In Cases.blueCover
     (ProductService.getAllProductsUnpaginated (Invariant.after Cases.restyled))
  /\ NoDup (Product.searchKeywords Cases.blueCover)
  /\ (forall k,
        In k (Product.searchKeywords Cases.blueCover) ->
        Invariant.allChars Invariant.keywordChar k = true
        /\ ((2 < String.length k)%nat
            \/ Regex.test false Regex.all_digits k = true)
        /\ In Cases.blueCover
              (ProductService.getProductsByKeyword
                 (Invariant.after Cases.restyled) k))
  /\ Js.toLowerCase (Product.searchText Cases.blueCover)
     = Product.searchText Cases.blueCover.
Proof.
  assert (In Cases.blueCover
             (ProductService.getAllProductsUnpaginated
                (Invariant.after Cases.restyled))) as H.
  { vm_compute. tauto. }
  split; [exact H|]. exact (@keywords_shape Cases.restyled Cases.blueCover H).
Defined.

End Keywords.

(* ================================================================== *)
(** * The order of the ranking                                        *)
(* ================================================================== *)

Section RankingOrders.

Import QueryProcessor.
Local Open Scope Q_scope.

Lemma ranked_items (products ranked : list Product.t) (query : string)
      (pq : ProcessedQuery) :
  RankingEngine.rankProducts products query pq = Ok ranked ->
  exists items,
    ranked
    = map RankingEngine.product
        (RankingEngine.resort pq (ArraySort.sort RankingEngine.byScore items))
    /\ forall x,
         In x items ->
         RankingEngine.score x
         = Spec.finalScore query pq (RankingEngine.product x)
         /\ In (RankingEngine.product x) products.
Proof.
  intros Hrank.
  apply rankProducts_Ok in Hrank. destruct Hrank as (items & Hitems & ->).
  apply mapM_scoreProduct in Hitems. destruct Hitems as [Hproducts Hscores].
  exists items. split; [reflexivity|]. intros x Hx. split.
  - apply scored_finalScore. rewrite Forall_forall in Hscores.
    apply Hscores. exact Hx.
  - rewrite <- Hproducts. apply in_map. exact Hx.
Qed.

Lemma byScore_sorted (items : list RankingEngine.Scored) :
  StronglySorted (ArraySort.inOrder RankingEngine.byScore)
    (ArraySort.sort RankingEngine.byScore items).
Proof.
  apply sort_sorted with (D := fun _ => True).
  - intros a b _ _. unfold ArraySort.before, RankingEngine.byScore.
    rewrite ltb_true, ltb_false. lra.
  - intros a b c _ _ _. unfold ArraySort.before, RankingEngine.byScore.
    rewrite !ltb_false. lra.
  - apply Forall_forall. intros x _. exact I.
Qed.

(** Without a sort word in the query ([sortBy] unset) the ranked
    products come in non-increasing order of final score. *)
Theorem rankProducts_by_score (products ranked : list Product.t)
        (query : string) (pq : ProcessedQuery) (i j : nat) (a b : Product.t) :
  sortBy (intent pq) = None ->
  RankingEngine.rankProducts products query pq = Ok ranked ->
  (i < j)%nat ->
  nth_error ranked i = Some a ->
  nth_error ranked j = Some b ->
  Spec.finalScore query pq b <= Spec.finalScore query pq a.
Proof.
  intros Hsort Hrank Hij Hi Hj.
  apply ranked_items in Hrank. destruct Hrank as (items & -> & Hitem).
  unfold RankingEngine.resort in *. rewrite Hsort in *.
  rewrite nth_error_map in Hi, Hj.
  destruct (nth_error (ArraySort.sort RankingEngine.byScore items) i)
    as [x|] eqn:Ex; [|discriminate].
  destruct (nth_error (ArraySort.sort RankingEngine.byScore items) j)
    as [y|] eqn:Ey; [|discriminate].
  injection Hi as <-. injection Hj as <-.
  pose proof (sorted_nth (byScore_sorted items) Hij Ex Ey) as Hxy.
  assert (forall z n,
             nth_error (ArraySort.sort RankingEngine.byScore items) n = Some z ->
             In z items) as Hin.
  { intros z n Hz. apply nth_error_In in Hz.
    eapply Permutation_in; [apply sort_perm|exact Hz]. }
  destruct (Hitem x (Hin _ _ Ex)) as [<- _].
  destruct (Hitem y (Hin _ _ Ey)) as [<- _].
  unfold ArraySort.inOrder, ArraySort.before in Hxy.
  apply ltb_false in Hxy. unfold RankingEngine.byScore in Hxy. lra.
Qed.

Lemma rankProducts_by_score_witness :
  sortBy (intent (processQuery "phone")) = None
  /\ exists ranked a b,
       RankingEngine.rankProducts Samples.phoneList "phone"
         (processQuery "phone") = Ok ranked
       /\ nth_error ranked 0 = Some a
       /\ nth_error ranked 3 = Some b
       /\ Spec.finalScore "phone" (processQuery "phone") b
          <= Spec.finalScore "phone" (processQuery "phone") a.
Proof.
  split; [vm_compute; reflexivity|].
  do 3 eexists.
  assert (forall A B C D : Prop,
             A -> B -> C -> (A -> B -> C -> D) -> A /\ B /\ C /\ D)
    as conj4 by tauto.
  apply conj4.
  - vm_compute. reflexivity.
  - reflexivity.
  - reflexivity.
  - intros Hrank Ha Hb.
    refine (@rankProducts_by_score Samples.phoneList _ "phone"
              (processQuery "phone") 0 3 _ _ _ Hrank _ Ha Hb).
    + vm_compute. reflexivity.
    + lia.
Defined.

(** The comparators of the second sort: within a tie of scores the order
    is that of [sub], otherwise that of the scores. *)
Section TieBreak.

Variable sub : RankingEngine.Scored -> RankingEngine.Scored -> Q.

Abbreviation tieBreak :=
  (fun a b : RankingEngine.Scored =>
     if RankingEngine.tied a b then sub a b
     else RankingEngine.score b - RankingEngine.score a).

Hypothesis sub_asymmetric : forall a b, sub a b < 0 -> 0 <= sub b a.

Hypothesis sub_transitive :
  forall a b c, 0 <= sub a b -> 0 <= sub b c -> 0 <= sub a c.

Lemma tieBreak_asymmetric (a b : RankingEngine.Scored) :
  ArraySort.before tieBreak a b = true ->
  ArraySort.before tieBreak b a = false.
Proof.
  unfold ArraySort.before. rewrite ltb_true, ltb_false.
  rewrite (tied_sym b a).
  destruct (RankingEngine.tied a b); intros H; [|lra].
  apply sub_asymmetric. exact H.
Qed.

Lemma tieBreak_negatively_transitive (items : list RankingEngine.Scored) :
  (forall a b c, In a items -> In b items -> In c items ->
                 RankingEngine.tied a b = true ->
                 RankingEngine.tied b c = true ->
                 RankingEngine.tied a c = true) ->
  forall a b c, In a items -> In b items -> In c items ->
    ArraySort.before tieBreak a b = false ->
    ArraySort.before tieBreak b c = false ->
    ArraySort.before tieBreak a c = false.
Proof.
  intros Htrans a b c Da Db Dc.
  unfold ArraySort.before. rewrite !ltb_false.
  destruct (RankingEngine.tied a b) eqn:Tab;
    destruct (RankingEngine.tied b c) eqn:Tbc;
    destruct (RankingEngine.tied a c) eqn:Tac;
    intros Hab Hbc.
  - exact (@sub_transitive a b c Hab Hbc).
  - rewrite (Htrans a b c) in Tac; auto. discriminate.
  - rewrite (Htrans b a c) in Tbc; auto; [discriminate|].
    rewrite tied_sym. exact Tab.
  - apply tied_true in Tab. apply tied_false in Tbc. lra.
  - rewrite (Htrans a c b) in Tab; auto; [discriminate|].
    rewrite tied_sym. exact Tbc.
  - apply tied_false in Tab. apply tied_true in Tbc. lra.
  - apply tied_false in Tab. apply tied_false in Tbc. apply tied_true in Tac.
    lra.
  - apply tied_false in Tab. apply tied_false in Tbc. lra.
Qed.

(** Two products of the ranked output that are tied in score stand in the
    order of [sub], when ties are transitive among the candidates. *)
Lemma tieBreak_order (products ranked : list Product.t)
      (query : string) (pq : ProcessedQuery) (i j : nat) (a b : Product.t) :
  (forall items, RankingEngine.resort pq items = ArraySort.sort tieBreak items) ->
  (forall x y z, In x products -> In y products -> In z products ->
     Spec.near (Spec.finalScore query pq x) (Spec.finalScore query pq y) ->
     Spec.near (Spec.finalScore query pq y) (Spec.finalScore query pq z) ->
     Spec.near (Spec.finalScore query pq x) (Spec.finalScore query pq z)) ->
  RankingEngine.rankProducts products query pq = Ok ranked ->
  (i < j)%nat ->
  nth_error ranked i = Some a ->
  nth_error ranked j = Some b ->
  Spec.near (Spec.finalScore query pq a) (Spec.finalScore query pq b) ->
  exists x y,
    RankingEngine.product x = a /\ RankingEngine.product y = b
    /\ 0 <= sub y x.
Proof.
  intros Hresort Htrans Hrank Hij Hi Hj Hnear.
  apply ranked_items in Hrank. destruct Hrank as (items & -> & Hitem).
  rewrite Hresort in *.
  set (first := ArraySort.sort RankingEngine.byScore items) in *.
  assert (StronglySorted (ArraySort.inOrder tieBreak)
            (ArraySort.sort tieBreak first)) as Hsorted.
  { apply sort_sorted with (D := fun x => In x items).
    - intros x y _ _. apply tieBreak_asymmetric.
    - apply tieBreak_negatively_transitive.
      intros x y z Hx Hy Hz Txy Tyz.
      destruct (Hitem x Hx) as [Ex Px].
      destruct (Hitem y Hy) as [Ey Py].
      destruct (Hitem z Hz) as [Ez Pz].
      apply tied_near. apply tied_near in Txy. apply tied_near in Tyz.
      rewrite Ex, Ey in Txy. rewrite Ey, Ez in Tyz. rewrite Ex, Ez.
      apply (Htrans _ _ _ Px Py Pz Txy Tyz).
    - apply Forall_forall. intros x Hx.
      eapply Permutation_in; [apply sort_perm|exact Hx]. }
  rewrite nth_error_map in Hi, Hj.
  destruct (nth_error (ArraySort.sort tieBreak first) i)
    as [x|] eqn:Ex; [|discriminate].
  destruct (nth_error (ArraySort.sort tieBreak first) j)
    as [y|] eqn:Ey; [|discriminate].
  injection Hi as <-. injection Hj as <-.
  pose proof (sorted_nth Hsorted Hij Ex Ey) as Hxy.
  assert (forall z n,
             nth_error (ArraySort.sort tieBreak first) n = Some z ->
             In z items) as Hin.
  { intros z n Hz. apply nth_error_In in Hz.
    eapply Permutation_in; [apply sort_perm|].
    eapply Permutation_in; [apply sort_perm|exact Hz]. }
  destruct (Hitem x (Hin _ _ Ex)) as [Sx _].
  destruct (Hitem y (Hin _ _ Ey)) as [Sy _].
  rewrite <- Sx, <- Sy in Hnear. apply tied_near in Hnear.
  unfold ArraySort.inOrder, ArraySort.before in Hxy.
  apply ltb_false in Hxy.
  rewrite tied_sym, Hnear in Hxy.
  exists x, y. split; [reflexivity|]. split; [reflexivity|exact Hxy].
Qed.

End TieBreak.

(** Under [sortBy = rating], when being within 0.01 in final score
    is transitive among the candidates, every two products of the ranked
    output whose final scores differ by less than 0.01 stand in
    non-increasing order of rating. *)
Theorem rankProducts_rating_ties (products ranked : list Product.t)
        (query : string) (pq : ProcessedQuery) (i j : nat) (a b : Product.t) :
  sortBy (intent pq) = Some rating ->
  (forall x y z, In x products -> In y products -> In z products ->
     Spec.near (Spec.finalScore query pq x) (Spec.finalScore query pq y) ->
     Spec.near (Spec.finalScore query pq y) (Spec.finalScore query pq z) ->
     Spec.near (Spec.finalScore query pq x) (Spec.finalScore query pq z)) ->
  RankingEngine.rankProducts products query pq = Ok ranked ->
  (i < j)%nat ->
  nth_error ranked i = Some a ->
  nth_error ranked j = Some b ->
  Spec.near (Spec.finalScore query pq a) (Spec.finalScore query pq b) ->
  Product.rating b <= Product.rating a.
Proof.
  intros Hsort Htrans Hrank Hij Hi Hj Hnear.
  destruct (@tieBreak_order
              (fun a b => Product.rating (RankingEngine.product b)
                          - Product.rating (RankingEngine.product a)))
    with (products := products) (ranked := ranked) (query := query)
         (pq := pq) (i := i) (j := j) (a := a) (b := b)
    as (x & y & <- & <- & H);
    try assumption.
  - intros x y. lra.
  - intros x y z. lra.
  - intros items. unfold RankingEngine.resort. rewrite Hsort. reflexivity.
  - lra.
Qed.

Lemma rankProducts_rating_ties_witness :
  sortBy (intent (processQuery "top phone")) = Some rating
  /\ exists ranked a b,
       RankingEngine.rankProducts Cases.rated "top phone"
         (processQuery "top phone") = Ok ranked
       /\ nth_error ranked 0 = Some a
       /\ nth_error ranked 1 = Some b
       /\ Product.rating a == 4.8
       /\ Product.rating b == 4.4
       /\ Spec.near
            (Spec.finalScore "top phone" (processQuery "top phone") a)
            (Spec.finalScore "top phone" (processQuery "top phone") b)
       /\ Product.rating b <= Product.rating a.
Proof.
  split; [vm_compute; reflexivity|].
  do 3 eexists.
  assert (forall A B C D E F G : Prop,
             A -> B -> C -> D -> E -> F -> (A -> B -> C -> F -> G) ->
             A /\ B /\ C /\ D /\ E /\ F /\ G) as conj7 by tauto.
  apply conj7.
  - vm_compute. reflexivity.
  - reflexivity.
  - reflexivity.
  - vm_compute. reflexivity.
  - vm_compute. reflexivity.
  - unfold Spec.near. vm_compute. reflexivity.
  - intros Hrank Ha Hb Hnear.
    refine (@rankProducts_rating_ties Cases.rated _ "top phone"
              (processQuery "top phone") 0 1 _ _ _ _ Hrank _ Ha Hb Hnear).
    + vm_compute. reflexivity.
    + intros x y z Hx Hy Hz _ _.
      destruct Hx as [<-|[<-|[]]]; destruct Hz as [<-|[<-|[]]];
        unfold Spec.near; vm_compute; reflexivity.
    + lia.
Defined.

(** Under [sortBy = latest], when being within 0.01 in final score
    is transitive among the candidates, of every two products of the
    ranked output whose final scores differ by less than 0.01 a latest
    model never comes after one that is not, and of two that are both
    latest models, or both not, the one with the higher identifier comes
    first. *)
Theorem rankProducts_latest_ties (products ranked : list Product.t)
        (query : string) (pq : ProcessedQuery) (i j : nat) (a b : Product.t) :
  sortBy (intent pq) = Some latest ->
  (forall x y z, In x products -> In y products -> In z products ->
     Spec.near (Spec.finalScore query pq x) (Spec.finalScore query pq y) ->
     Spec.near (Spec.finalScore query pq y) (Spec.finalScore query pq z) ->
     Spec.near (Spec.finalScore query pq x) (Spec.finalScore query pq z)) ->
  RankingEngine.rankProducts products query pq = Ok ranked ->
  (i < j)%nat ->
  nth_error ranked i = Some a ->
  nth_error ranked j = Some b ->
  Spec.near (Spec.finalScore query pq a) (Spec.finalScore query pq b) ->
  (Product.isLatest b = true -> Product.isLatest a = true)
  /\ (Product.isLatest a = Product.isLatest b ->
      (Product.productId b <= Product.productId a)%Z).
Proof.
  intros Hsort Htrans Hrank Hij Hi Hj Hnear.
  assert (forall z : Z, 0 <= inject_Z z <-> (0 <= z)%Z) as Hz.
  { intros z. unfold Qle. simpl. lia. }
  assert (forall z : Z, inject_Z z < 0 <-> (z < 0)%Z) as Hz'.
  { intros z. unfold Qlt. simpl. lia. }
  destruct (@tieBreak_order
              (fun a b =>
                 if Product.isLatest (RankingEngine.product b)
                    && negb (Product.isLatest (RankingEngine.product a))
                 then 1
                 else if Product.isLatest (RankingEngine.product a)
                         && negb (Product.isLatest (RankingEngine.product b))
                      then -1
                      else inject_Z
                             (Product.productId (RankingEngine.product b)
                              - Product.productId (RankingEngine.product a)))
              ) with (products := products) (ranked := ranked)
                     (query := query) (pq := pq) (i := i) (j := j)
                     (a := a) (b := b) as (x & y & <- & <- & H);
    try assumption.
  - intros x y.
    destruct (Product.isLatest (RankingEngine.product x)),
      (Product.isLatest (RankingEngine.product y)); simpl;
      rewrite ?Hz, ?Hz'; try lra; lia.
  - intros x y z.
    destruct (Product.isLatest (RankingEngine.product x)),
      (Product.isLatest (RankingEngine.product y)),
      (Product.isLatest (RankingEngine.product z)); simpl;
      rewrite ?Hz; try lra; lia.
  - intros items. unfold RankingEngine.resort. rewrite Hsort. reflexivity.
  - revert H.
    destruct (Product.isLatest (RankingEngine.product x)),
      (Product.isLatest (RankingEngine.product y)); simpl;
      rewrite ?Hz; intros H; split; intros; try congruence; try lia; lra.
Qed.

Lemma rankProducts_latest_ties_witness :
  sortBy (intent (processQuery "new phone")) = Some latest
  /\ exists ranked a b,
       RankingEngine.rankProducts Samples.twins "new phone"
         (processQuery "new phone") = Ok ranked
       /\ nth_error ranked 0 = Some a
       /\ nth_error ranked 1 = Some b
       /\ Product.productId a = 2%Z
       /\ Product.productId b = 1%Z
       /\ Spec.near
            (Spec.finalScore "new phone" (processQuery "new phone") a)
            (Spec.finalScore "new phone" (processQuery "new phone") b)
       /\ (Product.isLatest b = true -> Product.isLatest a = true)
       /\ (Product.isLatest a = Product.isLatest b ->
           (Product.productId b <= Product.productId a)%Z).
Proof.
  split; [vm_compute; reflexivity|].
  do 3 eexists.
  assert (forall A B C D E F G : Prop,
             A -> B -> C -> D -> E -> F -> (A -> B -> C -> F -> G) ->
             A /\ B /\ C /\ D /\ E /\ F /\ G) as conj7 by tauto.
  apply conj7.
  - vm_compute. reflexivity.
  - reflexivity.
  - reflexivity.
  - reflexivity.
  - reflexivity.
  - unfold Spec.near. vm_compute. reflexivity.
  - intros Hrank Ha Hb Hnear.
    refine (@rankProducts_latest_ties Samples.twins _ "new phone"
              (processQuery "new phone") 0 1 _ _ _ _ Hrank _ Ha Hb Hnear).
    + vm_compute. reflexivity.
    + intros x y z Hx Hy Hz _ _.
      destruct Hx as [<-|[<-|[]]]; destruct Hz as [<-|[<-|[]]];
        unfold Spec.near; vm_compute; reflexivity.
    + lia.
Defined.

End RankingOrders.

(* ================================================================== *)
(** * What a search returns                                           *)
(* ================================================================== *)

Section SearchResults.

Import QueryProcessor.

Lemma filterM_filter (A : Type) (f : A -> result bool) (l kept : list A) :
  filterM f l = Ok kept -> kept = filter (fun x => Criteria.holds (f x)) l.
Proof.
  revert kept. induction l as [|x l IH]; intros kept H; simpl in H.
  - injection H as <-. reflexivity.
  - apply bind_Ok in H. destruct H as (b & Hb & H).
    apply bind_Ok in H. destruct H as (rest & Hrest & H).
    injection H as <-. simpl. rewrite Hb. simpl.
    rewrite <- (IH rest Hrest). reflexivity.
Qed.

Lemma filter_and (A : Type) (g h : A -> bool) (l : list A) :
  filter g (filter h l) = filter (fun x => h x && g x) l.
Proof.
  induction l as [|x l IH]; simpl; [reflexivity|].
  destruct (h x); simpl; [destruct (g x)|]; rewrite IH; reflexivity.
Qed.

Lemma filter_true (A : Type) (l : list A) : filter (fun _ => true) l = l.
Proof. induction l as [|x l IH]; simpl; [|rewrite IH]; reflexivity. Qed.

Lemma applyFilters_filter (products kept : list Product.t)
      (pq : ProcessedQuery) :
  SearchService.applyFilters products pq = Ok kept ->
  exists f,
    filterBy (intent pq) = Some f
    /\ kept = filter (Criteria.passes f) products.
Proof.
  unfold SearchService.applyFilters, RankingEngine.filterByOf.
  destruct (filterBy (intent pq)) as [f|]; [|discriminate].
  cbn [bind]. cbv zeta. intros H. exists f. split; [reflexivity|].
  apply bind_Ok in H. destruct H as (l1 & H1 & H).
  apply bind_Ok in H. destruct H as (l2 & H2 & H).
  injection H as <-.
  set (l0 := match priceRange f with
             | Some range => filter (SearchService.priceOk range) products
             | None => products
             end) in *.
  assert (l0 = filter (fun p => match priceRange f with
                                | Some range => SearchService.priceOk range p
                                | None => true
                                end) products) as E0.
  { unfold l0. destruct (priceRange f); [reflexivity|].
    symmetry. apply filter_true. }
  assert (l1 = filter (fun p => match whenTruthy (color f) with
                                | Some c =>
                                    Criteria.holds (SearchService.colorOk c p)
                                | None => true
                                end) l0) as E1.
  { destruct (whenTruthy (color f)); [apply filterM_filter; exact H1|].
    injection H1 as <-. symmetry. apply filter_true. }
  assert (l2 = filter (fun p => match whenTruthy (model f) with
                                | Some m =>
                                    Criteria.holds (SearchService.modelOk m p)
                                | None => true
                                end) l1) as E2.
  { destruct (whenTruthy (model f)); [apply filterM_filter; exact H2|].
    injection H2 as <-. symmetry. apply filter_true. }
  assert (match whenTruthy (brand f) with
          | Some b => filter (SearchService.brandOk b) l2
          | None => l2
          end
          = filter (fun p => match whenTruthy (brand f) with
                             | Some b => SearchService.brandOk b p
                             | None => true
                             end) l2) as E3.
  { destruct (whenTruthy (brand f)); [reflexivity|].
    symmetry. apply filter_true. }
  rewrite E3, E2, E1, E0, !filter_and. apply filter_ext. intros p.
  unfold Criteria.passes. rewrite !andb_assoc. reflexivity.
Qed.

(** The filters of a query work as one test on each product: what
    [applyFilters] returns is the candidates that are within the price
    range, have the colour, have the model and are of the brand that the
    query set --- all of them, no others, in the order they came in. *)
Theorem applyFilters_exact (products kept : list Product.t)
        (pq : ProcessedQuery) (f : FilterBy) :
  filterBy (intent pq) = Some f ->
  SearchService.applyFilters products pq = Ok kept ->
  kept = filter (Criteria.passes f) products.
Proof.
  intros Hf H. apply applyFilters_filter in H.
  destruct H as (f' & Hf' & ->). congruence.
Qed.

Lemma applyFilters_exact_witness :
  exists f kept,
    filterBy (intent (processQuery "iphone 25k")) = Some f
    /\ SearchService.applyFilters Samples.phoneList (processQuery "iphone 25k")
       = Ok kept
    /\ length kept = 2%nat
    /\ kept = filter (Criteria.passes f) Samples.phoneList.
Proof.
  do 2 eexists.
  assert (forall A B C D : Prop,
             A -> B -> C -> (A -> B -> D) -> A /\ B /\ C /\ D)
    as conj4 by tauto.
  apply conj4.
  - vm_compute. reflexivity.
  - vm_compute. reflexivity.
  - reflexivity.
  - intros Hf Hk.
    exact (@applyFilters_exact Samples.phoneList _ (processQuery "iphone 25k")
             _ Hf Hk).
Defined.

Lemma firstn_NoDup (A : Type) (n : nat) (l : list A) :
  NoDup l -> NoDup (firstn n l).
Proof.
  intros H. rewrite <- (firstn_skipn n l) in H.
  apply NoDup_app_remove_r in H. exact H.
Qed.

Lemma firstn_incl (A : Type) (n : nat) (l : list A) : incl (firstn n l) l.
Proof.
  intros x H. rewrite <- (firstn_skipn n l). apply in_or_app. left. exact H.
Qed.

Lemma slice0_NoDup (A : Type) (l : list A) (e : Z) :
  NoDup l -> NoDup (SearchService.slice0 l e).
Proof.
  intros H. unfold SearchService.slice0.
  destruct (e <? 0)%Z; apply firstn_NoDup; exact H.
Qed.

Lemma slice0_incl (A : Type) (l : list A) (e : Z) :
  incl (SearchService.slice0 l e) l.
Proof.
  unfold SearchService.slice0. destruct (e <? 0)%Z; apply firstn_incl.
Qed.

Lemma addProducts_NoDup (matches : list Z) (ps : list Product.t) :
  NoDup matches -> NoDup (SearchService.addProducts matches ps).
Proof. apply set_addAll_NoDup. Qed.

Lemma findMatchingProducts_NoDup (store : ProductService.t) (query : string)
      (pq : ProcessedQuery) (ps : list Product.t) :
  Invariant.wellFormed store ->
  SearchService.findMatchingProducts store query pq = Ok ps ->
  NoDup ps.
Proof.
  intros Hwf. unfold SearchService.findMatchingProducts.
  destruct (RankingEngine.filterByOf pq) as [f|]; [|discriminate].
  cbn [bind]. cbv zeta. intros H. injection H as <-.
  apply lookupAll_NoDup; [exact Hwf|].
  assert (forall (keywords : list string) (acc : list Z),
             NoDup acc ->
             NoDup (fold_left
                      (fun acc keyword =>
                         SearchService.addProducts acc
                           (ProductService.getProductsByKeyword store keyword))
                      keywords acc)) as Hfold.
  { intros keywords. induction keywords as [|k keywords IH]; intros acc Hacc;
      simpl; [exact Hacc|]. apply IH. apply addProducts_NoDup. exact Hacc. }
  match goal with
  | |- NoDup (if ?c then _ else _) => destruct c
  end;
    repeat first
      [ apply addProducts_NoDup
      | apply Hfold
      | match goal with
        | |- NoDup (match ?x with Some _ => _ | None => _ end) => destruct x
        end
      | constructor ].
Qed.

Lemma searchProductsByText_NoDup (store : ProductService.t) (text : string) :
  Invariant.wellFormed store ->
  NoDup (ProductService.searchProductsByText store text).
Proof.
  intros Hwf. unfold ProductService.searchProductsByText.
  destruct (map (ProductService.getProductsByKeyword store) _)
    as [|first others]; [constructor|].
  cbv zeta. apply lookupAll_NoDup; [exact Hwf|].
  assert (forall (sets : list (list Product.t)) (acc : list Z),
             NoDup acc ->
             NoDup (fold_left
                      (fun acc set =>
                         filter (JsSet.has (ProductService.idsOf set)) acc)
                      sets acc)) as Hinter.
  { intros sets. induction sets as [|x sets IH]; intros acc Hacc; simpl;
      [exact Hacc|]. apply IH. apply NoDup_filter. exact Hacc. }
  assert (forall (sets : list (list Product.t)) (acc : list Z),
             NoDup acc ->
             NoDup (fold_left
                      (fun acc set =>
                         JsSet.addAll acc (map Product.productId set))
                      sets acc)) as Hunion.
  { intros sets. induction sets as [|x sets IH]; intros acc Hacc; simpl;
      [exact Hacc|]. apply IH. apply set_addAll_NoDup. exact Hacc. }
  assert (NoDup (ProductService.idsOf first)) as Hfirst.
  { apply set_addAll_NoDup. constructor. }
  pose proof (Hinter others _ Hfirst) as Hres.
  destruct (fold_left _ others (ProductService.idsOf first)) as [|x l];
    [|exact Hres].
  apply Hunion. constructor.
Qed.

Lemma orByText_NoDup (store : ProductService.t) (pq : ProcessedQuery)
      (ps : list Product.t) :
  Invariant.wellFormed store ->
  NoDup ps -> NoDup (SearchService.orByText store pq ps).
Proof.
  intros Hwf H. unfold SearchService.orByText. destruct ps; [|exact H].
  cbv zeta. destruct (filter _ _); [exact H|].
  apply searchProductsByText_NoDup. exact Hwf.
Qed.

(** What a search returns, whatever calls were made on the catalog
    before: products of the catalog, none of them twice, each of which
    passes every filter that the processed query set (price range,
    colour, model and brand). *)
Theorem searchProducts_sound (calls : list Invariant.Call) (query : string)
        (limit : option Z) (found : list Product.t) :
  SearchService.searchProducts (Invariant.after calls) (Some query) limit
  = Ok found ->
  NoDup found
  /\ forall p,
       In p found ->
       In p (ProductService.getAllProductsUnpaginated (Invariant.after calls))
       /\ exists f,
            filterBy (intent (processQuery query)) = Some f
            /\ Criteria.passes f p = true.
Proof.
  pose proof (after_wellFormed calls) as Hwf.
  set (store := Invariant.after calls) in *.
  unfold SearchService.searchProducts.
  destruct (Js.truthy_string query) eqn:Hq; cbn [negb orb];
    [|intros H; injection H as <-; split; [constructor|intros p []]].
  destruct (String.length (Js.trim query) =? 0)%nat;
    [intros H; injection H as <-; split; [constructor|intros p []]|].
  destruct (processQuery_filterBy query Hq) as [f Hf].
  destruct (findMatchingProducts_Ok store query (processQuery query) Hf)
    as (ps & Eps & Hps).
  pose proof (@findMatchingProducts_NoDup _ _ _ _ Hwf Eps) as Hnd.
  rewrite Eps. cbn [bind]. cbv zeta.
  pose proof (orByText_incl store (processQuery query) Hps) as Hc.
  pose proof (@orByText_NoDup _ (processQuery query) _ Hwf Hnd) as Hcn.
  set (cands := SearchService.orByText store (processQuery query) ps) in *.
  destruct (SearchService.applyFilters cands (processQuery query))
    as [kept|e] eqn:Ek; cbn [bind]; [|discriminate].
  destruct (applyFilters_filter _ _ Ek) as (f' & Hf' & Hkept).
  destruct (RankingEngine.rankProducts kept query (processQuery query))
    as [ranked|e] eqn:Er; cbn [bind]; [|discriminate].
  apply rankProducts_returns_perm in Er.
  intros H. injection H as <-. split.
  - apply slice0_NoDup. eapply Permutation_NoDup; [exact Er|].
    rewrite Hkept. apply NoDup_filter. exact Hcn.
  - intros p Hin. apply slice0_incl in Hin.
    eapply Permutation_in in Hin; [|apply Permutation_sym; exact Er].
    rewrite Hkept in Hin. apply filter_In in Hin. destruct Hin as [Hin Hp].
    split; [apply Hc; exact Hin|]. exists f'. split; [exact Hf'|exact Hp].
Qed.

Lemma searchProducts_sound_witness :
  exists found,
    SearchService.searchProducts (Invariant.after Cases.shop)
      (Some "phone cover") (Some 10%Z) = Ok found
    /\ length found = 1%nat
    /\ NoDup found
    /\ forall p,
         In p found ->
         In p (ProductService.getAllProductsUnpaginated
                 (Invariant.after Cases.shop))
         /\ exists f,
              filterBy (intent (processQuery "phone cover")) = Some f
              /\ Criteria.passes f p = true.
Proof.
  eexists.
  assert (forall A B C : Prop, A -> B -> (A -> C) -> A /\ B /\ C)
    as conj3 by tauto.
  apply conj3.
  - vm_compute. reflexivity.
  - reflexivity.
  - intros H.
    exact (@searchProducts_sound Cases.shop "phone cover" (Some 10%Z) _ H).
Defined.

End SearchResults.

(* ================================================================== *)
(** * Search suggestions                                              *)
(* ================================================================== *)

Section Suggestions.

Lemma addString_In (set : list string) (x y : string) :
  In y (SearchService.addString set x) <-> y = x \/ In y set.
Proof.
  unfold SearchService.addString, Js.mem.
  destruct (existsb (String.eqb x) set) eqn:E.
  - split; [tauto|]. intros [->|H]; [|exact H].
    apply existsb_exists in E. destruct E as (z & Hz & Hxz).
    apply String.eqb_eq in Hxz. subst z. exact Hz.
  - rewrite in_app_iff. simpl. split; intros H.
    + destruct H as [H|[H|[]]]; [right; exact H|left; symmetry; exact H].
    + destruct H as [->|H]; [right; left; reflexivity|left; exact H].
Qed.

Lemma addString_NoDup (set : list string) (x : string) :
  NoDup set -> NoDup (SearchService.addString set x).
Proof.
  intros Hnd. unfold SearchService.addString, Js.mem.
  destruct (existsb (String.eqb x) set) eqn:E; [exact Hnd|].
  assert (~ In x set) as Hx.
  { intros H. assert (existsb (String.eqb x) set = true) as E'.
    { apply existsb_exists. exists x. split; [exact H|apply String.eqb_refl]. }
    congruence. }
  apply NoDup_rev in Hnd. rewrite <- (rev_involutive (set ++ [x])).
  apply NoDup_rev. rewrite rev_app_distr. simpl.
  constructor; [|exact Hnd]. rewrite <- in_rev. exact Hx.
Qed.

Lemma prefix_app (a b c : string) :
  String.prefix a b = true -> String.prefix a (b ++ c) = true.
Proof.
  revert b. induction a as [|x a IH]; intros b; simpl.
  - intros _. destruct (b ++ c); reflexivity.
  - destruct b as [|y b]; simpl; [discriminate|].
    destruct (Ascii.ascii_dec x y); [apply IH|discriminate].
Qed.

Lemma prefix_join (query word : string) (rest : list string) :
  String.prefix query word = true ->
  String.prefix query (Js.join " " (word :: rest)) = true.
Proof.
  intros H. unfold Js.join. simpl. destruct rest; [exact H|].
  apply prefix_app. exact H.
Qed.

Lemma titleSuggestions_spec (query : string) (words acc : list string) :
  NoDup acc /\ (forall s, In s acc -> String.prefix query s = true) ->
  NoDup (SearchService.titleSuggestions query words acc)
  /\ forall s, In s (SearchService.titleSuggestions query words acc) ->
               String.prefix query s = true.
Proof.
  revert acc. induction words as [|word words IH]; intros acc H;
    [exact H|].
  cbn [SearchService.titleSuggestions]. apply IH.
  destruct (SearchService.startsWith word query) eqn:Hs; cbn [andb];
    [|exact H].
  destruct (String.length query <? String.length word)%nat; [|exact H].
  destruct (String.length query <? _)%nat; [|exact H].
  destruct H as [Hnd Hp]. split; [apply addString_NoDup; exact Hnd|].
  intros s Hin. apply addString_In in Hin. destruct Hin as [->|Hin];
    [|apply Hp; exact Hin].
  change (firstn 3 (word :: words)) with (word :: firstn 2 words).
  apply prefix_join. exact Hs.
Qed.

(** The suggestions for a query, when the underlying search returns:
    no suggestion is made twice, every suggestion begins with the query in
    lower case, and there are at most [limit] of them (ten when no limit
    is given), for a limit that is not negative. *)
Theorem getSearchSuggestions_spec (store : ProductService.t) (query : string)
        (limit : option Z) (suggestions : list string) :
  SearchService.getSearchSuggestions store (Some query) limit
  = Ok suggestions ->
  NoDup suggestions
  /\ (forall s, In s suggestions ->
                String.prefix (Js.toLowerCase query) s = true)
  /\ ((0 <= match limit with Some l => l | None => 10 end)%Z ->
      (Z.of_nat (length suggestions)
       <= match limit with Some l => l | None => 10 end)%Z).
Proof.
  unfold SearchService.getSearchSuggestions.
  destruct (negb (Js.truthy_string query) || (String.length query <? 2)%nat).
  - intros H. injection H as <-.
    split; [constructor|]. split; [intros s []|]. simpl. lia.
  - destruct (SearchService.searchProducts store (Some query) (Some 50%Z))
      as [products|e]; cbn [bind]; [|discriminate].
    cbv zeta. intros H. injection H as <-.
    assert (forall (products : list Product.t) (acc : list string),
               NoDup acc
               /\ (forall s, In s acc ->
                             String.prefix (Js.toLowerCase query) s = true) ->
               let result :=
                 fold_left
                   (fun acc product =>
                      SearchService.titleSuggestions (Js.toLowerCase query)
                        (Regex.split false Regex.spaces
                           (Js.toLowerCase (Product.title product)))
                        acc)
                   products acc in
               NoDup result
               /\ (forall s, In s result ->
                             String.prefix (Js.toLowerCase query) s = true))
      as Htitles.
    { intros ps. induction ps as [|p ps IH]; intros acc Hacc; simpl;
        [exact Hacc|]. apply IH. apply titleSuggestions_spec. exact Hacc. }
    assert (forall (brands acc : list string),
               NoDup acc
               /\ (forall s, In s acc ->
                             String.prefix (Js.toLowerCase query) s = true) ->
               let result :=
                 fold_left
                   (fun acc brand =>
                      if SearchService.startsWith brand (Js.toLowerCase query)
                      then SearchService.addString acc brand else acc)
                   brands acc in
               NoDup result
               /\ (forall s, In s result ->
                             String.prefix (Js.toLowerCase query) s = true))
      as Hbrands.
    { intros bs. induction bs as [|b bs IH]; intros acc Hacc; simpl;
        [exact Hacc|]. apply IH.
      destruct (SearchService.startsWith b (Js.toLowerCase query)) eqn:Hb;
        [|exact Hacc].
      destruct Hacc as [Hnd Hp]. split; [apply addString_NoDup; exact Hnd|].
      intros s Hin. apply addString_In in Hin.
      destruct Hin as [->|Hin]; [exact Hb|apply Hp; exact Hin]. }
    assert (NoDup (@nil string)
            /\ (forall s, In s [] ->
                          String.prefix (Js.toLowerCase query) s = true))
      as Hnil by (split; [constructor|intros s []]).
    destruct (Hbrands SearchService.suggestionBrands _
                (Htitles products [] Hnil)) as [Hnd Hp].
    split; [apply slice0_NoDup; exact Hnd|].
    split; [intros s Hin; apply Hp; apply slice0_incl in Hin; exact Hin|].
    apply slice0_length.
Qed.

Lemma getSearchSuggestions_spec_witness :
  exists suggestions,
    SearchService.getSearchSuggestions (Invariant.after Cases.shop)
      (Some "Co") (Some 5%Z) = Ok suggestions
    /\ length suggestions = 1%nat
    /\ NoDup suggestions
    /\ (forall s, In s suggestions ->
                  String.prefix (Js.toLowerCase "Co") s = true)
    /\ ((0 <= 5)%Z -> (Z.of_nat (length suggestions) <= 5)%Z).
Proof.
  eexists.
  assert (forall A B C : Prop, A -> B -> (A -> C) -> A /\ B /\ C)
    as conj3 by tauto.
  apply conj3.
  - vm_compute. reflexivity.
  - reflexivity.
  - intros H.
    exact (@getSearchSuggestions_spec (Invariant.after Cases.shop) "Co"
             (Some 5%Z) _ H).
Defined.

End Suggestions.

(* ================================================================== *)
(** * The colour read off a text                                      *)
(* ================================================================== *)

Section Colours.

Lemma prefix_iff (a b : string) :
  String.prefix a b = true <-> exists post, b = a ++ post.
Proof.
  revert b. induction a as [|x a IH]; intros b; simpl.
  - split; [intros _; exists b; reflexivity|].
    intros _. destruct b; reflexivity.
  - destruct b as [|y b]; simpl.
    + split; [discriminate|intros [post H]; discriminate].
    + destruct (Ascii.ascii_dec x y) as [->|Hne].
      * rewrite IH. split; intros [post H]; exists post; congruence.
      * split; [discriminate|]. intros [post H]. congruence.
Qed.

Lemma includes_iff (s sub : string) :
  Js.includes s sub = true <-> exists pre post, s = pre ++ sub ++ post.
Proof.
  induction s as [|c s IH].
  - cbn [Js.includes]. destruct (String.prefix sub "") eqn:E.
    + split; [|reflexivity]. intros _. apply prefix_iff in E.
      destruct E as [post E]. exists "", post. exact E.
    + split; [discriminate|]. intros (pre & post & H).
      destruct pre; [|discriminate]. simpl in H.
      assert (String.prefix sub "" = true) as E'
          by (apply prefix_iff; exists post; exact H).
      congruence.
  - cbn [Js.includes]. destruct (String.prefix sub (String c s)) eqn:E.
    + split; [|reflexivity]. intros _. apply prefix_iff in E.
      destruct E as [post E]. exists "", post. exact E.
    + rewrite IH. split.
      * intros (pre & post & ->). exists (String c pre), post. reflexivity.
      * intros (pre & post & H). destruct pre as [|x pre].
        -- simpl in H.
           assert (String.prefix sub (String c s) = true) as E'
               by (apply prefix_iff; exists post; exact H).
           congruence.
        -- simpl in H. injection H as _ ->. exists pre, post. reflexivity.
Qed.

Lemma append_assoc (a b c : string) : (a ++ b) ++ c = a ++ (b ++ c).
Proof. induction a as [|x a IH]; simpl; [|rewrite IH]; reflexivity. Qed.

(** A text that holds a phrase holds every part of the phrase. *)
Lemma includes_part (s a b c : string) :
  Js.includes s (a ++ b ++ c) = true -> Js.includes s b = true.
Proof.
  rewrite !includes_iff. intros (pre & post & ->).
  exists (pre ++ a), (c ++ post). rewrite !append_assoc. reflexivity.
Qed.

Lemma includes_false_part (s a b c : string) :
  Js.includes s b = false -> Js.includes s (a ++ b ++ c) = false.
Proof.
  intros H. destruct (Js.includes s (a ++ b ++ c)) eqn:E; [|reflexivity].
  apply includes_part in E. congruence.
Qed.

(** The colour that a query is filtered by is always one of the
    fifteen one-word colours, and it occurs in the query: the two-word
    colours of the list ("deep blue", "space gray", ...) come after the
    words they end in and are never returned. *)
Theorem extractColor_one_word (query color : string) :
  QueryProcessor.extractColor query = Some color ->
  In color
     [ "red"; "blue"; "green"; "yellow"; "black"; "white"; "silver"; "gold";
       "pink"; "purple"; "orange"; "grey"; "gray"; "brown"; "starlight" ]
  /\ Js.includes (Js.toLowerCase query) color = true.
Proof.
  unfold QueryProcessor.extractColor, QueryProcessor.colors.
  set (text := Js.toLowerCase query).
  cbn [find]. change (Js.toLowerCase ?s) with s.
  destruct (Js.includes text "red") eqn:E1;
    [intros H; injection H as <-; simpl; tauto|].
  destruct (Js.includes text "blue") eqn:E2;
    [intros H; injection H as <-; simpl; tauto|].
  destruct (Js.includes text "green") eqn:E3;
    [intros H; injection H as <-; simpl; tauto|].
  destruct (Js.includes text "yellow") eqn:E4;
    [intros H; injection H as <-; simpl; tauto|].
  destruct (Js.includes text "black") eqn:E5;
    [intros H; injection H as <-; simpl; tauto|].
  destruct (Js.includes text "white") eqn:E6;
    [intros H; injection H as <-; simpl; tauto|].
  destruct (Js.includes text "silver") eqn:E7;
    [intros H; injection H as <-; simpl; tauto|].
  destruct (Js.includes text "gold") eqn:E8;
    [intros H; injection H as <-; simpl; tauto|].
  destruct (Js.includes text "pink") eqn:E9;
    [intros H; injection H as <-; simpl; tauto|].
  destruct (Js.includes text "purple") eqn:E10;
    [intros H; injection H as <-; simpl; tauto|].
  destruct (Js.includes text "orange") eqn:E11;
    [intros H; injection H as <-; simpl; tauto|].
  destruct (Js.includes text "grey") eqn:E12;
    [intros H; injection H as <-; simpl; tauto|].
  destruct (Js.includes text "gray") eqn:E13;
    [intros H; injection H as <-; simpl; tauto|].
  destruct (Js.includes text "brown") eqn:E14;
    [intros H; injection H as <-; simpl; tauto|].
  destruct (Js.includes text "starlight") eqn:E15;
    [intros H; injection H as <-; simpl; tauto|].
  pose proof (@includes_false_part text "cosmic " "orange" "" E11) as H16.
  pose proof (@includes_false_part text "deep " "blue" "" E2) as H17.
  pose proof (@includes_false_part text "sky " "blue" "" E2) as H18.
  pose proof (@includes_false_part text "space " "black" "" E5) as H19.
  pose proof (@includes_false_part text "space " "gray" "" E13) as H20.
  cbn [append] in H16, H17, H18, H19, H20.
  rewrite H16, H17, H18, H19, H20. discriminate.
Qed.

Lemma extractColor_one_word_witness :
  QueryProcessor.extractColor "Deep Blue cover" = Some "blue"
  /\ In "blue"
        [ "red"; "blue"; "green"; "yellow"; "black"; "white"; "silver";
          "gold"; "pink"; "purple"; "orange"; "grey"; "gray"; "brown";
          "starlight" ]
  /\ Js.includes (Js.toLowerCase "Deep Blue cover") "blue" = true.
Proof.
  split; [vm_compute; reflexivity|].
  apply (@extractColor_one_word "Deep Blue cover" "blue").
  vm_compute. reflexivity.
Defined.

(** The colour that the metadata extractor reads off the text of a
    new product is always one of seventeen one-word colours, capitalised:
    the two-word colours of the list ("Sierra Blue", "Space Gray", ...)
    come after the words they end in and are never returned. *)
Theorem stored_color_one_word (text color : string) :
  MetadataExtractor.extractColor text = Some color ->
  In color
     [ "Blue"; "Red"; "Green"; "Yellow"; "Black"; "White"; "Silver"; "Gold";
       "Pink"; "Purple"; "Orange"; "Grey"; "Gray"; "Brown"; "Starlight";
       "Midnight"; "Graphite" ].
Proof.
  unfold MetadataExtractor.extractColor, MetadataExtractor.colors.
  generalize (Js.toLowerCase text). clear text. intros text.
  cbn [find]. change (Js.toLowerCase ?s) with s.
  destruct (Js.includes text "blue") eqn:E1;
    [intros H; injection H as <-; vm_compute; tauto|].
  destruct (Js.includes text "red") eqn:E2;
    [intros H; injection H as <-; vm_compute; tauto|].
  destruct (Js.includes text "green") eqn:E3;
    [intros H; injection H as <-; vm_compute; tauto|].
  destruct (Js.includes text "yellow") eqn:E4;
    [intros H; injection H as <-; vm_compute; tauto|].
  destruct (Js.includes text "black") eqn:E5;
    [intros H; injection H as <-; vm_compute; tauto|].
  destruct (Js.includes text "white") eqn:E6;
    [intros H; injection H as <-; vm_compute; tauto|].
  destruct (Js.includes text "silver") eqn:E7;
    [intros H; injection H as <-; vm_compute; tauto|].
  destruct (Js.includes text "gold") eqn:E8;
    [intros H; injection H as <-; vm_compute; tauto|].
  destruct (Js.includes text "pink") eqn:E9;
    [intros H; injection H as <-; vm_compute; tauto|].
  destruct (Js.includes text "purple") eqn:E10;
    [intros H; injection H as <-; vm_compute; tauto|].
  destruct (Js.includes text "orange") eqn:E11;
    [intros H; injection H as <-; vm_compute; tauto|].
  destruct (Js.includes text "grey") eqn:E12;
    [intros H; injection H as <-; vm_compute; tauto|].
  destruct (Js.includes text "gray") eqn:E13;
    [intros H; injection H as <-; vm_compute; tauto|].
  destruct (Js.includes text "brown") eqn:E14;
    [intros H; injection H as <-; vm_compute; tauto|].
  destruct (Js.includes text "starlight") eqn:E15;
    [intros H; injection H as <-; vm_compute; tauto|].
  pose proof (@includes_false_part text "cosmic " "orange" "" E11) as E16.
  cbn [append] in E16. rewrite E16.
  pose proof (@includes_false_part text "deep " "blue" "" E1) as E17.
  cbn [append] in E17. rewrite E17.
  pose proof (@includes_false_part text "sky " "blue" "" E1) as E18.
  cbn [append] in E18. rewrite E18.
  pose proof (@includes_false_part text "space " "black" "" E5) as E19.
  cbn [append] in E19. rewrite E19.
  pose proof (@includes_false_part text "space " "gray" "" E13) as E20.
  cbn [append] in E20. rewrite E20.
  destruct (Js.includes text "midnight") eqn:E21;
    [intros H; injection H as <-; vm_compute; tauto|].
  pose proof (@includes_false_part text "alpine " "green" "" E3) as E22.
  cbn [append] in E22. rewrite E22.
  pose proof (@includes_false_part text "sierra " "blue" "" E1) as E23.
  cbn [append] in E23. rewrite E23.
  destruct (Js.includes text "graphite") eqn:E24;
    [intros H; injection H as <-; vm_compute; tauto|].
  pose proof (@includes_false_part text "pacific " "blue" "" E1) as E25.
  cbn [append] in E25. rewrite E25.
  discriminate.
Qed.

Lemma stored_color_one_word_witness :
  MetadataExtractor.extractColor "Apple iPhone 15 Sierra Blue" = Some "Blue"
  /\ In "Blue"
        [ "Blue"; "Red"; "Green"; "Yellow"; "Black"; "White"; "Silver";
          "Gold"; "Pink"; "Purple"; "Orange"; "Grey"; "Gray"; "Brown";
          "Starlight"; "Midnight"; "Graphite" ].
Proof.
  split; [vm_compute; reflexivity|].
  apply (@stored_color_one_word "Apple iPhone 15 Sierra Blue" "Blue").
  vm_compute. reflexivity.
Defined.

End Colours.

(* ================================================================== *)
(** * The price filter of a query                                     *)
(* ================================================================== *)

Section PriceFilter.

Import QueryProcessor.

Lemma parseDigits_nonneg (s : string) (acc : Z) :
  (0 <= acc)%Z -> (0 <= Js.parseDigits acc s)%Z.
Proof.
  revert acc. induction s as [|c s IH]; intros acc H;
    cbn [Js.parseDigits]; [exact H|].
  destruct (Js.is_digit c); [|exact H].
  apply IH. unfold Js.digit_value.
  pose proof (N2Z.is_nonneg (Js.code c - 48)). lia.
Qed.

Lemma priceOfMatch_nonneg (range : PriceRange) (m : string) :
  (forall x, maxPrice range = Some x -> (0 <= x)%Z) ->
  forall x, maxPrice (priceOfMatch range m) = Some x -> (0 <= x)%Z.
Proof.
  intros H x. unfold priceOfMatch.
  destruct (Regex.exec false Regex.digits m) as [number|]; [|apply H].
  cbv zeta.
  pose proof (@parseDigits_nonneg number 0 ltac:(lia)) as Hn.
  fold (Js.parseInt number) in Hn.
  destruct (Js.includes (Js.toLowerCase m) "k"
            || Js.includes (Js.toLowerCase m) "thousand");
    [|destruct (Js.includes (Js.toLowerCase m) "lakh"
               || Js.includes (Js.toLowerCase m) "lac")];
    destruct (Js.includes (Js.toLowerCase m) "under"
              || Js.includes (Js.toLowerCase m) "below"
              || Js.includes (Js.toLowerCase m) "upto"
              || Js.includes (Js.toLowerCase m) "max");
    cbn [maxPrice]; intros E; injection E as <-; lia.
Qed.

Lemma extractPriceRange_nonneg (query : string) (x : Z) :
  maxPrice (extractPriceRange query) = Some x -> (0 <= x)%Z.
Proof.
  unfold extractPriceRange.
  assert (forall ms range,
             (forall x, maxPrice range = Some x -> (0 <= x)%Z) ->
             forall x, maxPrice (fold_left priceOfMatch ms range) = Some x ->
                       (0 <= x)%Z) as Hms.
  { intros ms. induction ms as [|m ms IH]; intros range H; simpl; [exact H|].
    apply IH. apply priceOfMatch_nonneg. exact H. }
  assert (forall ps range,
             (forall x, maxPrice range = Some x -> (0 <= x)%Z) ->
             forall x,
               maxPrice
                 (fold_left
                    (fun r pattern =>
                       fold_left priceOfMatch
                         (Regex.matchAll true pattern query) r)
                    ps range) = Some x ->
               (0 <= x)%Z) as Hps.
  { intros ps. induction ps as [|p ps IH]; intros range H; simpl; [exact H|].
    apply IH. apply Hms. exact H. }
  apply Hps. simpl. discriminate.
Qed.

(** A price filter that a query sets always has a ceiling, and the
    ceiling is a positive number. *)
Theorem price_filter_ceiling (query : string) (f : FilterBy)
        (range : PriceRange) :
  filterBy (intent (processQuery query)) = Some f ->
  priceRange f = Some range ->
  exists m, maxPrice range = Some m /\ (0 < m)%Z.
Proof.
  destruct (processQuery_intent query) as [-> | ->]; [discriminate|].
  destruct (extractIntent_priceRange
              (correctSpelling (translateHinglish (normalizeQuery query))))
    as (f' & -> & Hr).
  intros Hf. injection Hf as <-. rewrite Hr.
  set (text := correctSpelling (translateHinglish (normalizeQuery query))).
  assert (minPrice (extractPriceRange text) = None) as Hmin.
  { unfold extractPriceRange. apply patterns_keep_minPrice. }
  rewrite Hmin. cbn [truthyPrice orb].
  destruct (maxPrice (extractPriceRange text)) as [m|] eqn:Em;
    cbn [truthyPrice]; [|discriminate].
  destruct (Js.truthy_Z m) eqn:Et; [|discriminate].
  intros H. injection H as <-.
  exists m. split; [exact Em|].
  pose proof (extractPriceRange_nonneg _ Em) as Hm.
  unfold Js.truthy_Z in Et. apply negb_true_iff in Et.
  apply Z.eqb_neq in Et. lia.
Qed.

Lemma price_filter_ceiling_witness :
  exists f range,
    filterBy (intent (processQuery "iphone 25k")) = Some f
    /\ priceRange f = Some range
    /\ exists m, maxPrice range = Some m /\ (0 < m)%Z.
Proof.
  do 2 eexists.
  assert (forall A B C : Prop, A -> B -> (A -> B -> C) -> A /\ B /\ C)
    as conj3 by tauto.
  apply conj3.
  - vm_compute. reflexivity.
  - reflexivity.
  - intros Hf Hr. exact (@price_filter_ceiling "iphone 25k" _ _ Hf Hr).
Defined.

End PriceFilter.

(* ================================================================== *)
(** * Updating the metadata of a product                              *)
(* ================================================================== *)

Section MetadataUpdate.

Lemma spread_get (update old : Product.Metadata) (key : string) :
  JsMap.get String.eqb (ProductService.spread old update) key
  = match JsMap.get String.eqb (rev update) key with
    | Some v => Some v
    | None => JsMap.get String.eqb old key
    end.
Proof.
  unfold ProductService.spread.
  induction update as [|[k v] update IH] using rev_ind; [reflexivity|].
  rewrite fold_left_app, rev_app_distr. cbn [fold_left rev app fst snd JsMap.get].
  destruct (String.eqb_spec key k) as [->|Hne].
  - apply (map_get_set_eq _ String.eqb_eq).
  - rewrite (map_get_set_ne _ String.eqb_eq) by exact Hne. exact IH.
Qed.

(** [updateProductMetadata] merges: for a product of the catalog the
    call returns the product as it is stored afterwards; a metadata key of
    the update has the value of the update (the last one, were it given
    twice), every other key keeps its value; the identifier, title,
    description, brand, category, price, rating and stock are what they
    were; the search text and keywords are those of the new metadata; and
    no other product changes.  For an unknown identifier nothing changes
    and nothing is returned. *)
Theorem updateProductMetadata_merges (s : ProductService.t) (id : Z)
        (metadata : Product.Metadata) :
  match ProductService.getProduct s id with
  | None => ProductService.updateProductMetadata s id metadata = (s, None)
  | Some p =>
      exists p',
        snd (ProductService.updateProductMetadata s id metadata) = Some p'
        /\ ProductService.getProduct
             (fst (ProductService.updateProductMetadata s id metadata)) id
           = Some p'
        /\ (forall id', id' <> id ->
              ProductService.getProduct
                (fst (ProductService.updateProductMetadata s id metadata)) id'
              = ProductService.getProduct s id')
        /\ (forall key,
              Product.meta p' key
              = match JsMap.get String.eqb (rev metadata) key with
                | Some v => Some v
                | None => Product.meta p key
                end)
        /\ (Product.productId p', Product.title p', Product.description p',
            Product.brand p', Product.category p')
           = (Product.productId p, Product.title p, Product.description p,
              Product.brand p, Product.category p)
        /\ (Product.price p', Product.rating p', Product.stock p')
           = (Product.price p, Product.rating p, Product.stock p)
        /\ Product.updateSearchText p' = p'
  end.
Proof.
  unfold ProductService.updateProductMetadata, ProductService.getProduct.
  destruct (JsMap.get Z.eqb (ProductService.products s) id) as [p|] eqn:G;
    [|reflexivity].
  eexists. cbn [fst snd]. split; [reflexivity|].
  cbn [ProductService.products ProductService.updateIndexes
       ProductService.removeFromIndexes ProductService.with_products].
  split; [apply (map_get_set_eq _ Z.eqb_eq)|].
  split; [intros id' Hne; apply (map_get_set_ne _ Z.eqb_eq); exact Hne|].
  split; [intros key; unfold Product.meta; apply spread_get|].
  repeat split; reflexivity.
Qed.

End MetadataUpdate.

(* ================================================================== *)
(** * The filters reply                                               *)
(* ================================================================== *)

Section FiltersReply.

Local Open Scope Q_scope.

Lemma min_le_l (a b : Q) : Num.min a b <= a.
Proof.
  unfold Num.min. destruct (Qle_bool a b) eqn:E; [apply Qle_refl|].
  destruct (Qlt_le_dec a b) as [H|H]; [|exact H].
  apply Qlt_le_weak, Qle_bool_iff in H. congruence.
Qed.

Lemma min_le_r (a b : Q) : Num.min a b <= b.
Proof.
  unfold Num.min. destruct (Qle_bool a b) eqn:E; [|apply Qle_refl].
  apply Qle_bool_iff. exact E.
Qed.

Lemma max_ge_l (a b : Q) : a <= Num.max a b.
Proof.
  unfold Num.max. destruct (Qle_bool a b) eqn:E; [|apply Qle_refl].
  apply Qle_bool_iff. exact E.
Qed.

Lemma max_ge_r (a b : Q) : b <= Num.max a b.
Proof.
  unfold Num.max. destruct (Qle_bool a b) eqn:E; [apply Qle_refl|].
  destruct (Qlt_le_dec a b) as [H|H]; [|exact H].
  apply Qlt_le_weak, Qle_bool_iff in H. congruence.
Qed.

Lemma minOf_spec (others : list Q) (first : Q) :
  In (SearchController.minOf first others) (first :: others)
  /\ forall x, In x (first :: others) ->
               SearchController.minOf first others <= x.
Proof.
  unfold SearchController.minOf. revert first.
  induction others as [|y others IH]; intros first; cbn [fold_left].
  - split; [left; reflexivity|]. intros x [<-|[]]. apply Qle_refl.
  - destruct (IH (Num.min first y)) as [Hin Hle]. split.
    + destruct Hin as [E|Hin]; [|right; right; exact Hin].
      rewrite <- E. unfold Num.min.
      destruct (Qle_bool first y); [left|right; left]; reflexivity.
    + intros x [<-|[<-|Hx]].
      * eapply Qle_trans; [apply Hle; left; reflexivity|apply min_le_l].
      * eapply Qle_trans; [apply Hle; left; reflexivity|apply min_le_r].
      * apply Hle. right. exact Hx.
Qed.

Lemma maxOf_spec (others : list Q) (first : Q) :
  In (SearchController.maxOf first others) (first :: others)
  /\ forall x, In x (first :: others) ->
               x <= SearchController.maxOf first others.
Proof.
  unfold SearchController.maxOf. revert first.
  induction others as [|y others IH]; intros first; cbn [fold_left].
  - split; [left; reflexivity|]. intros x [<-|[]]. apply Qle_refl.
  - destruct (IH (Num.max first y)) as [Hin Hle]. split.
    + destruct Hin as [E|Hin]; [|right; right; exact Hin].
      rewrite <- E. unfold Num.max.
      destruct (Qle_bool first y); [right; left|left]; reflexivity.
    + intros x [<-|[<-|Hx]].
      * eapply Qle_trans; [apply max_ge_l|apply Hle; left; reflexivity].
      * eapply Qle_trans; [apply max_ge_r|apply Hle; left; reflexivity].
      * apply Hle. right. exact Hx.
Qed.

(** The price range of the filters reply: every product of the
    catalog with a price other than zero has its price within the range,
    and both ends of the range are prices of such products. *)
Theorem priceRange_bounds (store : ProductService.t) (p : Product.t) :
  In p (ProductService.getAllProductsUnpaginated store) ->
  Num.truthy (Product.price p) = true ->
  fst (SearchController.priceRange store) <= Product.price p
  /\ Product.price p <= snd (SearchController.priceRange store)
  /\ In (fst (SearchController.priceRange store))
        (SearchController.prices store)
  /\ In (snd (SearchController.priceRange store))
        (SearchController.prices store).
Proof.
  intros Hin Hp.
  assert (In (Product.price p) (SearchController.prices store)) as Hprice.
  { unfold SearchController.prices. apply in_map. apply filter_In.
    split; assumption. }
  unfold SearchController.priceRange.
  destruct (SearchController.prices store) as [|first others];
    [destruct Hprice|].
  cbn [fst snd].
  destruct (minOf_spec others first) as [Hmin Hle].
  destruct (maxOf_spec others first) as [Hmax Hge].
  repeat split; auto.
Qed.

Lemma priceRange_bounds_witness :
  exists p,
    In p (ProductService.getAllProductsUnpaginated Samples.phones)
    /\ Num.truthy (Product.price p) = true
    /\ fst (SearchController.priceRange Samples.phones) == 10000
    /\ snd (SearchController.priceRange Samples.phones) == 40000
    /\ fst (SearchController.priceRange Samples.phones) <= Product.price p
    /\ Product.price p <= snd (SearchController.priceRange Samples.phones)
    /\ In (fst (SearchController.priceRange Samples.phones))
          (SearchController.prices Samples.phones)
    /\ In (snd (SearchController.priceRange Samples.phones))
          (SearchController.prices Samples.phones).
Proof.
  eexists.
  assert (forall A B C D E : Prop,
             A -> B -> C -> D -> (A -> B -> E) -> A /\ B /\ C /\ D /\ E)
    as conj5 by tauto.
  apply conj5.
  - vm_compute. left. reflexivity.
  - vm_compute. reflexivity.
  - vm_compute. reflexivity.
  - vm_compute. reflexivity.
  - intros Hin Hp. exact (@priceRange_bounds Samples.phones _ Hin Hp).
Defined.

Lemma brands_fold (products : list Product.t) (acc : list string) :
  NoDup acc ->
  let result :=
    fold_left
      (fun acc p =>
         if Js.truthy_string (Product.brand p)
            && negb (String.eqb (Product.brand p) "unknown")
         then SearchService.addString acc (Product.brand p)
         else acc)
      products acc in
  NoDup result
  /\ forall b,
       In b result
       <-> In b acc
           \/ (b <> "" /\ b <> "unknown"
               /\ exists p, In p products /\ Product.brand p = b).
Proof.
  revert acc. induction products as [|p products IH]; intros acc Hnd.
  - simpl. split; [exact Hnd|]. intros b. split; [tauto|].
    intros [H|(_ & _ & q & [] & _)]. exact H.
  - cbn [fold_left].
    set (acc' := if Js.truthy_string (Product.brand p)
                    && negb (String.eqb (Product.brand p) "unknown")
                 then SearchService.addString acc (Product.brand p)
                 else acc).
    assert (NoDup acc') as Hnd'.
    { unfold acc'. destruct (_ && _); [apply addString_NoDup|]; exact Hnd. }
    destruct (IH acc' Hnd') as [Hres Hiff]. split; [exact Hres|].
    intros b. rewrite Hiff. unfold acc'.
    destruct (Js.truthy_string (Product.brand p)) eqn:Ht; cbn [andb].
    + destruct (String.eqb_spec (Product.brand p) "unknown") as [Hu|Hu];
        cbn [negb].
      * split; intros [H|(H1 & H2 & q & Hq & E)]; auto.
        -- right. repeat split; auto. exists q. split; [right|]; assumption.
        -- destruct Hq as [<-|Hq]; [congruence|].
           right. repeat split; auto. exists q. tauto.
      * rewrite addString_In. split.
        -- intros [[->|H]|(H1 & H2 & q & Hq & E)]; auto.
           ++ right. repeat split; auto.
              ** intros E. rewrite E in Ht. discriminate.
              ** exists p. split; [left|]; reflexivity.
           ++ right. repeat split; auto. exists q. split; [right|]; assumption.
        -- intros [H|(H1 & H2 & q & [<-|Hq] & E)]; auto.
           right. repeat split; auto. exists q. tauto.
    + split; intros [H|(H1 & H2 & q & Hq & E)]; auto.
      * right. repeat split; auto. exists q. split; [right|]; assumption.
      * destruct Hq as [<-|Hq].
        -- destruct (Product.brand p); [congruence|discriminate].
        -- right. repeat split; auto. exists q. tauto.
Qed.

(** The brands of the filters reply: no brand is listed twice, and
    the brands listed are the brands of the products of the catalog, the
    empty brand and "unknown" left out. *)
Theorem brands_spec (store : ProductService.t) (b : string) :
  NoDup (SearchController.brands store)
  /\ (In b (SearchController.brands store)
      <-> b <> "" /\ b <> "unknown"
          /\ exists p,
               In p (ProductService.getAllProductsUnpaginated store)
               /\ Product.brand p = b).
Proof.
  unfold SearchController.brands.
  destruct (@brands_fold (ProductService.getAllProductsUnpaginated store) []
              (NoDup_nil _)) as [Hnd Hiff].
  split; [exact Hnd|]. rewrite Hiff. split; [|tauto].
  intros [[]|H]. exact H.
Qed.

End FiltersReply.

(* ================================================================== *)
(** * Searching the keyword index by text                             *)
(* ================================================================== *)

Section TextSearch.

Lemma idsOf_In (ps : list Product.t) (id : Z) :
  In id (ProductService.idsOf ps)
  <-> exists p, In p ps /\ Product.productId p = id.
Proof.
  unfold ProductService.idsOf. rewrite set_addAll_In, in_map_iff.
  split; [intros [[]|(p & E & H)]|intros (p & H & E); right];
    exists p; tauto.
Qed.

Lemma inter_In (others : list (list Product.t)) (acc : list Z) (id : Z) :
  In id (fold_left
           (fun acc set => filter (JsSet.has (ProductService.idsOf set)) acc)
           others acc)
  <-> In id acc
      /\ forall set, In set others -> In id (ProductService.idsOf set).
Proof.
  revert acc. induction others as [|x others IH]; intros acc; simpl.
  - split; [intros H; split; [exact H|intros set []]|tauto].
  - rewrite IH, filter_In, set_has_In. split.
    + intros [[H1 H2] H3]. split; [exact H1|].
      intros set [<-|Hs]; [exact H2|apply H3; exact Hs].
    + intros [H1 H2]. repeat split; auto.
Qed.

Lemma union_In (sets : list (list Product.t)) (acc : list Z) (id : Z) :
  In id (fold_left
           (fun acc set => JsSet.addAll acc (map Product.productId set))
           sets acc)
  <-> In id acc
      \/ exists set, In set sets /\ In id (ProductService.idsOf set).
Proof.
  revert acc. induction sets as [|x sets IH]; intros acc; simpl.
  - split; [tauto|]. intros [H|(set & [] & _)]. exact H.
  - rewrite IH, set_addAll_In. split.
    + intros [[H|H]|(set & Hs & H)].
      * left. exact H.
      * right. exists x. split; [left; reflexivity|].
        apply idsOf_In. apply in_map_iff in H.
        destruct H as (p & E & Hp). exists p. tauto.
      * right. exists set. split; [right; exact Hs|exact H].
    + intros [H|(set & [<-|Hs] & H)].
      * left. left. exact H.
      * left. right. apply idsOf_In in H. destruct H as (p & Hp & E).
        apply in_map_iff. exists p. tauto.
      * right. exists set. tauto.
Qed.

(** The sets that the search combines hold products of the catalog. *)
Lemma text_search_sets (s : ProductService.t) (sets : list (list Product.t))
      (p : Product.t) :
  Invariant.wellFormed s ->
  (forall set q, In set sets -> In q set ->
                 ProductService.getProduct s (Product.productId q) = Some q) ->
  let everywhere q := forall set, In set sets -> In q set in
  let result :=
    match sets with
    | [] => []
    | first :: others =>
        let resultSet :=
          fold_left
            (fun acc set => filter (JsSet.has (ProductService.idsOf set)) acc)
            others (ProductService.idsOf first) in
        let resultSet :=
          match resultSet with
          | [] =>
              fold_left
                (fun acc set => JsSet.addAll acc (map Product.productId set))
                sets []
          | _ => resultSet
          end in
        ProductService.lookupAll s resultSet
    end in
  sets <> [] ->
  ((exists q, everywhere q) -> (In p result <-> everywhere p))
  /\ (~ (exists q, everywhere q) ->
      (In p result <-> exists set, In set sets /\ In p set)).
Proof.
  intros Hwf Hlive everywhere result Hsets.
  destruct sets as [|first others]; [congruence|].
  assert (forall q set, In set (first :: others) ->
            (In (Product.productId q) (ProductService.idsOf set)
             /\ ProductService.getProduct s (Product.productId q) = Some q
             <-> In q set)) as Hmember.
  { intros q set Hset. rewrite idsOf_In. split.
    - intros [(q' & Hq' & E) G].
      pose proof (Hlive _ _ Hset Hq') as G'. rewrite E in G'. congruence.
    - intros Hq. split; [exists q; tauto|]. apply (Hlive _ _ Hset Hq). }
  assert (forall id,
             In id (fold_left
                      (fun acc set =>
                         filter (JsSet.has (ProductService.idsOf set)) acc)
                      others (ProductService.idsOf first))
             <-> forall set, In set (first :: others) ->
                             In id (ProductService.idsOf set)) as Hinter.
  { intros id. rewrite inter_In. split.
    - intros [H1 H2] set [<-|Hs]; [exact H1|apply H2; exact Hs].
    - intros H. split; [apply H; left; reflexivity|].
      intros set Hs. apply H. right. exact Hs. }
  assert (forall q,
             everywhere q
             <-> In (Product.productId q)
                   (fold_left
                      (fun acc set =>
                         filter (JsSet.has (ProductService.idsOf set)) acc)
                      others (ProductService.idsOf first))
                 /\ ProductService.getProduct s (Product.productId q) = Some q)
    as Hevery.
  { intros q. rewrite Hinter. unfold everywhere. split.
    - intros H. split.
      + intros set Hs. apply (Hmember q set Hs). apply H. exact Hs.
      + apply (Hlive first q); [left; reflexivity|].
        apply H. left. reflexivity.
    - intros [H G] set Hs. apply (Hmember q set Hs). split; [|exact G].
      apply H. exact Hs. }
  subst result. cbv zeta.
  destruct (fold_left
              (fun acc set =>
                 filter (JsSet.has (ProductService.idsOf set)) acc)
              others (ProductService.idsOf first)) as [|id0 rest] eqn:E.
  - split.
    + intros (q & Hq). apply Hevery in Hq. destruct Hq as [[] _].
    + intros _. rewrite lookupAll_In. split.
      * intros (id & Hid & G). apply union_In in Hid.
        destruct Hid as [[]|(set & Hs & Hid)].
        exists set. split; [exact Hs|].
        apply (Hmember p set Hs).
        rewrite (@live_keyed _ _ _ Hwf G). tauto.
      * intros (set & Hs & Hp). apply (Hmember p set Hs) in Hp.
        destruct Hp as [Hid G]. exists (Product.productId p).
        split; [|exact G]. apply union_In. right. exists set. tauto.
  - split.
    + intros _. rewrite lookupAll_In, Hevery. split.
      * intros (id & Hid & G). rewrite (@live_keyed _ _ _ Hwf G). tauto.
      * intros [Hid G]. exists (Product.productId p). tauto.
    + intros Hnone. exfalso. apply Hnone.
      assert (In id0 (id0 :: rest)) as Hid by (left; reflexivity).
      pose proof (proj1 (Hinter id0) Hid first (or_introl eq_refl)) as Hf.
      apply idsOf_In in Hf. destruct Hf as (q & Hq & Eq).
      exists q. apply Hevery. rewrite Eq. split; [left; reflexivity|].
      rewrite <- Eq. apply (Hlive first q); [left; reflexivity|exact Hq].
Qed.

(** Searching the keyword index by a text, whatever calls were made
    before.  The words of the text that count as keywords are looked up
    one by one.  Without such a word nothing is returned.  When some
    product is found under every one of the words, what is returned is
    the products found under every word; otherwise it is the products
    found under at least one of them. *)
Theorem searchProductsByText_spec (calls : list Invariant.Call)
        (text : string) (p : Product.t) :
  let s := Invariant.after calls in
  let keywords :=
    filter ProductService.isKeyword
      (Regex.split false Regex.spaces (Js.toLowerCase text)) in
  let everywhere q :=
    forall k, In k keywords -> In q (ProductService.getProductsByKeyword s k) in
  (keywords = [] -> ProductService.searchProductsByText s text = [])
  /\ (keywords <> [] ->
      ((exists q, everywhere q) ->
       (In p (ProductService.searchProductsByText s text) <-> everywhere p))
      /\ (~ (exists q, everywhere q) ->
          (In p (ProductService.searchProductsByText s text)
           <-> exists k,
                 In k keywords
                 /\ In p (ProductService.getProductsByKeyword s k)))).
Proof.
  intros s keywords everywhere.
  pose proof (after_wellFormed calls) as Hwf. fold s in Hwf.
  unfold ProductService.searchProductsByText. fold keywords. cbv zeta.
  split; [intros ->; reflexivity|]. intros Hk.
  set (sets := map (ProductService.getProductsByKeyword s) keywords).
  assert (forall set q, In set sets -> In q set ->
            ProductService.getProduct s (Product.productId q) = Some q)
    as Hlive.
  { intros set q Hset Hq. apply in_map_iff in Hset.
    destruct Hset as (k & <- & _).
    unfold ProductService.getProductsByKeyword in Hq.
    apply lookupAll_In in Hq. destruct Hq as (id & _ & G).
    rewrite (@live_keyed _ _ _ Hwf G). exact G. }
  assert (sets <> []) as Hsets.
  { unfold sets. destruct keywords; [congruence|discriminate]. }
  assert (forall q, everywhere q <-> forall set, In set sets -> In q set)
    as Hevery.
  { intros q. unfold everywhere, sets. split.
    - intros H set Hset. apply in_map_iff in Hset.
      destruct Hset as (k & <- & Hkin). apply H. exact Hkin.
    - intros H k Hkin. apply H. apply in_map. exact Hkin. }
  destruct (@text_search_sets s sets p Hwf Hlive Hsets) as [Hall Hany].
  split.
  - intros (q & Hq). rewrite Hevery. apply Hall. exists q.
    apply Hevery. exact Hq.
  - intros Hnone. rewrite Hany.
    + unfold sets. split.
      * intros (set & Hset & Hp). apply in_map_iff in Hset.
        destruct Hset as (k & <- & Hkin). exists k. tauto.
      * intros (k & Hkin & Hp). eexists. split; [|exact Hp].
        apply in_map. exact Hkin.
    + intros (q & Hq). apply Hnone. exists q. apply Hevery. exact Hq.
Qed.

End TextSearch.

(* ================================================================== *)
(** * The candidates of a search                                      *)
(* ================================================================== *)

Section Candidates.

Import QueryProcessor.





End Candidates.

(* ================================================================== *)
(** * The normalized query                                            *)
(* ================================================================== *)

Section Normalization.

Import QueryProcessor.

Lemma lower_char_class (c : ascii) :
  Js.is_word (Js.lower_char c) = Js.is_word c
  /\ Js.is_space (Js.lower_char c) = Js.is_space c.
Proof.
  destruct c as [b0 b1 b2 b3 b4 b5 b6 b7].
  destruct b0, b1, b2, b3, b4, b5, b6, b7; split; reflexivity.
Qed.

Lemma toLowerCase_class (s : string) :
  Invariant.allChars (fun c => true && (Js.is_word c || Js.is_space c)) s
  = true ->
  Invariant.allChars
    (fun c => negb (Js.in_range 65 90 c) && (Js.is_word c || Js.is_space c))
    (Js.toLowerCase s) = true.
Proof.
  induction s as [|c s IH]; simpl; [reflexivity|].
  intros H. apply andb_true_iff in H. destruct H as [Hc Hs].
  destruct (lower_char_class c) as [-> ->].
  rewrite lower_char_lowered, Hc, (IH Hs). reflexivity.
Qed.

(** Replacing runs of whitespace by a text leaves what is no whitespace,
    and the text. *)
Lemma replaceAll_scan_spaces (Q R : ascii -> bool) (by_ s : string)
      (prev : option ascii) (skip : nat) :
  (forall c, Q c = true -> Js.is_space c = false -> R c = true) ->
  Invariant.allChars R by_ = true ->
  Invariant.allChars Q s = true ->
  Invariant.allChars R
    (Regex.replaceAll_scan false Regex.spaces by_ prev skip s) = true.
Proof.
  intros HQR Hby. revert prev skip.
  induction s as [|c s IH]; intros prev skip Hs.
  - destruct skip; simpl; [|reflexivity].
    unfold Regex.match_at. simpl. reflexivity.
  - simpl in Hs. apply andb_true_iff in Hs. destruct Hs as [Hc Hs].
    cbn [Regex.replaceAll_scan]. destruct skip as [|skip]; [|apply IH; exact Hs].
    pose proof (spaces_match prev c s) as Hm.
    destruct (Regex.match_at false Regex.spaces (prev, String c s)) as [e|].
    + destruct Hm as [_ [n ->]]. rewrite allChars_app, Hby. simpl.
      apply IH. exact Hs.
    + simpl. rewrite (HQR c Hc Hm). simpl. apply IH. exact Hs.
Qed.

Lemma trimStart_chars (R : ascii -> bool) (s : string) :
  Invariant.allChars R s = true -> Invariant.allChars R (Js.trimStart s) = true.
Proof.
  induction s as [|c s IH]; simpl; [reflexivity|].
  intros H. destruct (Js.is_space c); [|exact H].
  apply andb_true_iff in H. apply IH. tauto.
Qed.

Lemma trimEnd_chars (R : ascii -> bool) (s : string) :
  Invariant.allChars R s = true -> Invariant.allChars R (Js.trimEnd s) = true.
Proof.
  induction s as [|c s IH]; cbn [Js.trimEnd]; [reflexivity|].
  intros H. simpl in H. apply andb_true_iff in H. destruct H as [Hc Hs].
  specialize (IH Hs). destruct (Js.trimEnd s) as [|x t].
  - destruct (Js.is_space c); simpl; [reflexivity|].
    rewrite Hc. reflexivity.
  - cbn [Invariant.allChars]. rewrite Hc. exact IH.
Qed.

(** A normalized query is made of lower-case letters, digits,
    underscores and spaces only: punctuation, upper-case letters, tabs
    and line breaks of the query are gone; and it does not begin with a
    space. *)
Theorem normalizeQuery_chars (query : string) :
  Invariant.allChars
    (fun c => Invariant.keywordChar c || Ascii.eqb c " ")
    (normalizeQuery query) = true
  /\ String.prefix " " (normalizeQuery query) = false.
Proof.
  unfold normalizeQuery.
  destruct (negb (Js.truthy_string query)); [split; reflexivity|].
  cbv zeta. unfold Js.trim, Regex.replaceAll. split.
  - apply trimEnd_chars, trimStart_chars.
    apply (@replaceAll_scan_spaces
             (fun c => negb (Js.in_range 65 90 c)
                       && (Js.is_word c || Js.is_space c))).
    + intros c Hc Hsp. rewrite keywordChar_spec; [reflexivity|].
      rewrite Hc, Hsp. reflexivity.
    + reflexivity.
    + apply toLowerCase_class.
      apply (@replaceAll_scan_punctuation (fun _ => true)); [reflexivity|].
      generalize query. intros s. induction s as [|c s IH]; simpl;
        [reflexivity|exact IH].
  - generalize (Regex.replaceAll_scan false Regex.spaces " " None 0
                  (Js.toLowerCase
                     (Regex.replaceAll_scan false
                        (Regex.Chr Regex.CNotWordSpace) " " None 0 query))).
    intros s.
    assert (forall t, String.prefix " " t = true ->
              exists t', t = String " " t') as Hpre.
    { intros t H. apply prefix_iff in H. destruct H as [post ->].
      exists post. reflexivity. }
    assert (forall t, match Js.trimStart t with
                      | String c _ => Js.is_space c = false
                      | EmptyString => True
                      end) as Hstart.
    { intros t. induction t as [|c t IH]; simpl; [exact I|].
      destruct (Js.is_space c) eqn:E; [exact IH|exact E]. }
    specialize (Hstart s).
    destruct (Js.trimStart s) as [|c t]; [reflexivity|].
    destruct (String.prefix " " (Js.trimEnd (String c t))) eqn:E;
      [|reflexivity].
    apply Hpre in E. destruct E as [t' E]. cbn [Js.trimEnd] in E.
    destruct (Js.trimEnd t) as [|x u].
    + rewrite Hstart in E. injection E as -> _. discriminate.
    + injection E as -> _. discriminate.
Qed.

End Normalization.
